(** * gatewayapi-operator: the HTTPRoute reconciler

    A shallow embedding of [internal/controller]: the constants and
    annotation keys, the listener builder and route aggregator of
    [annotations.go], the gateway synchroniser ([ensureGateway],
    [createGateway], [updateGatewayListeners]) and the [Reconcile] state
    machine of [httproute_controller.go], followed by the properties the
    specification states about them.

    Go maps ([map[string]string], [map[string]bool]) are stdpp [gmap]s and
    [gset]s; a nil map reads like the empty one.  Pointers that may be nil
    are [option]s.  The Kubernetes client embedded in [HTTPRouteReconciler]
    is an in-memory store driven by an environment script, so that every
    call can fail and other writers can change the store between two calls.
    The order in which a [range] over a Go map iterates is the environment's
    choice as well, made anew for each loop. *)

From Stdlib Require Import Ascii String.
From stdpp Require Import gmap strings list fin_maps.

Open Scope string_scope.
Open Scope list_scope.

#[local] Set Warnings "-clear-no-such-hyp".

(** ** Constants ([constants.go] and the annotation keys) *)

Definition httprouteFinalizerName : string := "gatewayapi-operator.vitistack.io/finalizer".
Definition reconcileAnnotationKey : string := "gatewayapi-operator.vitistack.io/reconciled".
Definition previousGatewayAnnotationKey : string := "gatewayapi-operator.vitistack.io/previous-gateway".
Definition clusterIssuerAnnotation : string := "cert-manager.io/cluster-issuer".
Definition defaultClusterIssuer : string := "internpki".
Definition gatewayClassName : string := "eg".
Definition httpPort : Z := 80.
Definition httpsPort : Z := 443.
Definition tlsCertSuffix : string := "-tls".
Definition defaultIPAMZone : string := "hnet-private".

Definition AnnotationUseHttprouteOperator : string := "gatewayapi-operator.vitistack.io/enabled".
Definition AnnotationIPAMZone : string := "ipam.vitistack.io/zone".
Definition AnnotationClusterIssuer : string := "gatewayapi-operator.vitistack.io/cluster-issuer".

(** The field owner of every server-side apply. *)
Definition fieldOwner : string := "gatewayapi-operator".

(** ** Data model (the parts of the Gateway API types the controller touches) *)

Record ParentReference := {
  prName : string;
  prNamespace : option string
}.

Record HTTPRoute := {
  rtName : string;
  rtNamespace : string;
  rtAnnotations : gmap string string;
  rtDeletionTimestamp : option Z;
  rtFinalizers : list string;
  rtParentRefs : list ParentReference;
  rtHostnames : list string
}.

Inductive ProtocolType := HTTPProtocolType | HTTPSProtocolType | TLSProtocolType.
Inductive TLSModeType := TLSModeTerminate | TLSModePassthrough.
Inductive FromNamespaces := NamespacesFromAll | NamespacesFromSelector | NamespacesFromSame.

Record SecretObjectReference := {
  sorGroup : option string;
  sorKind : option string;
  sorName : string;
  sorNamespace : option string
}.

Record GatewayTLSConfig := {
  tlsMode : option TLSModeType;
  tlsCertificateRefs : list SecretObjectReference
}.

Record RouteNamespaces := { rnFrom : option FromNamespaces }.
Record AllowedRoutes := { arNamespaces : option RouteNamespaces }.

Record Listener := {
  lsName : string;
  lsProtocol : ProtocolType;
  lsPort : Z;
  lsHostname : option string;
  lsAllowedRoutes : option AllowedRoutes;
  lsTLS : option GatewayTLSConfig
}.

Record GatewayInfrastructure := { giAnnotations : option (gmap string string) }.

Record Gateway := {
  gwName : string;
  gwNamespace : string;
  gwAnnotations : gmap string string;
  gwClassName : string;
  gwListeners : list Listener;
  gwInfrastructure : option GatewayInfrastructure
}.

(** [m[k]] on a Go [map[string]string]: the zero value when the key is absent. *)
Definition annot (m : gmap string string) (k : string) : string := default "" (m !! k).

(** [metav1.Time.IsZero]: a nil time, or the zero instant. *)
Definition timeIsZero (t : option Z) : bool :=
  match t with
  | None => true
  | Some s => bool_decide (s = 0%Z)
  end.

(** [controllerutil.ContainsFinalizer], [AddFinalizer], [RemoveFinalizer]. *)
Definition ContainsFinalizer (rt : HTTPRoute) (f : string) : bool :=
  bool_decide (f ∈ rtFinalizers rt).

Definition setFinalizers (rt : HTTPRoute) (fs : list string) : HTTPRoute :=
  {| rtName := rtName rt; rtNamespace := rtNamespace rt;
     rtAnnotations := rtAnnotations rt;
     rtDeletionTimestamp := rtDeletionTimestamp rt;
     rtFinalizers := fs;
     rtParentRefs := rtParentRefs rt; rtHostnames := rtHostnames rt |}.

Definition AddFinalizer (rt : HTTPRoute) (f : string) : HTTPRoute :=
  if ContainsFinalizer rt f then rt else setFinalizers rt (rtFinalizers rt ++ [f]).

Definition RemoveFinalizer (rt : HTTPRoute) (f : string) : HTTPRoute :=
  setFinalizers rt (filter (λ x, x ≠ f) (rtFinalizers rt)).

Definition setAnnotations (rt : HTTPRoute) (a : gmap string string) : HTTPRoute :=
  {| rtName := rtName rt; rtNamespace := rtNamespace rt;
     rtAnnotations := a;
     rtDeletionTimestamp := rtDeletionTimestamp rt;
     rtFinalizers := rtFinalizers rt;
     rtParentRefs := rtParentRefs rt; rtHostnames := rtHostnames rt |}.

(** The enabled test both [Reconcile] and the aggregator apply. *)
Definition operatorEnabled (rt : HTTPRoute) : bool :=
  bool_decide (annot (rtAnnotations rt) AnnotationUseHttprouteOperator = "true").

(** ** Listener builder ([createHTTPSListener]) *)

Definition createHTTPSListener (hostname gatewayNamespace : string) : Listener :=
  let certSecretName := hostname +:+ tlsCertSuffix in
  {| lsName := hostname;
     lsProtocol := HTTPSProtocolType;
     lsPort := httpsPort;
     lsHostname := Some hostname;
     lsAllowedRoutes :=
       Some {| arNamespaces := Some {| rnFrom := Some NamespacesFromAll |} |};
     lsTLS :=
       Some {| tlsMode := Some TLSModeTerminate;
               tlsCertificateRefs :=
                 [ {| sorGroup := Some "";
                      sorKind := Some "Secret";
                      sorName := certSecretName;
                      sorNamespace := Some gatewayNamespace |} ] |} |}.

(** ** Route aggregator (the loop of [collectListenersForGateway]) *)

(** The loop state: the hostname set and the two counters that are logged. *)
Record Collected := {
  hostnameSet : gset string;
  routeCount : nat;
  skippedCount : nat
}.

Definition emptyCollected : Collected :=
  {| hostnameSet := ∅; routeCount := 0; skippedCount := 0 |}.

(** The test of the inner loop on one parent reference.  A reference without
    a namespace takes [gatewayNamespace], the namespace of the gateway that
    is being collected for. *)
Definition parentRefMatches (gatewayName gatewayNamespace : string)
    (parentRef : ParentReference) : bool :=
  let refName := prName parentRef in
  let refNamespace := default gatewayNamespace (prNamespace parentRef) in
  bool_decide (refName = gatewayName) && bool_decide (refNamespace = gatewayNamespace).

(** [hostnameSet[hostname] = true] for every hostname of the route. *)
Definition addHostnames (hs : list string) (s : gset string) : gset string :=
  foldl (λ acc h, {[h]} ∪ acc) s hs.

(** The inner loop over [route.Spec.ParentRefs]: at the first reference that
    matches, the hostnames are collected and the loop breaks. *)
Fixpoint scanParentRefs (gatewayName gatewayNamespace : string)
    (route : HTTPRoute) (refs : list ParentReference) (acc : Collected) : Collected :=
  match refs with
  | [] => acc
  | parentRef :: rest =>
      if parentRefMatches gatewayName gatewayNamespace parentRef then
        {| hostnameSet := addHostnames (rtHostnames route) (hostnameSet acc);
           routeCount := S (routeCount acc);
           skippedCount := skippedCount acc |}
      else scanParentRefs gatewayName gatewayNamespace route rest acc
  end.

Definition skipRoute (acc : Collected) : Collected :=
  {| hostnameSet := hostnameSet acc;
     routeCount := routeCount acc;
     skippedCount := S (skippedCount acc) |}.

(** One iteration of the outer loop. *)
Definition collectRoute (gatewayName gatewayNamespace : string)
    (acc : Collected) (route : HTTPRoute) : Collected :=
  if negb (timeIsZero (rtDeletionTimestamp route)) then skipRoute acc
  else if negb (operatorEnabled route) then skipRoute acc
  else scanParentRefs gatewayName gatewayNamespace route (rtParentRefs route) acc.

Definition collectHostnames (gatewayName gatewayNamespace : string)
    (items : list HTTPRoute) : Collected :=
  foldl (collectRoute gatewayName gatewayNamespace) emptyCollected items.

(** One listener per hostname of the set, listed in the order of
    [elements].  This is the listing the loop over [hostnameSet] would
    produce if it iterated in that order; the order Go really iterates in
    is applied to it by [rangeOver] in [collectListenersForGateway]. *)
Definition listenersOf (gatewayNamespace : string) (s : gset string) : list Listener :=
  (λ hostname, createHTTPSListener hostname gatewayNamespace) <$> elements s.

Definition collectListeners (gatewayName gatewayNamespace : string)
    (items : list HTTPRoute) : list Listener :=
  listenersOf gatewayNamespace
    (hostnameSet (collectHostnames gatewayName gatewayNamespace items)).

(** Go iterates a map in an order that is not specified and differs from
    one [range] to the next.  The order of one iteration is given by a list
    of positions: the first element is inserted at the first position into
    the iteration of the others, and so on.  Every order of the elements
    arises from some positions, and without positions the list is iterated
    as it stands. *)
Fixpoint insertAt {A : Type} (n : nat) (x : A) (l : list A) : list A :=
  match n, l with
  | S m, y :: rest => y :: insertAt m x rest
  | _, _ => x :: l
  end.

Fixpoint rangeOver {A : Type} (order : list nat) (l : list A) : list A :=
  match order with
  | [] => l
  | p :: order' =>
      match l with
      | [] => []
      | x :: rest => insertAt p x (rangeOver order' rest)
      end
  end.

(** ** The resource store and its client *)

(** The API errors the controller distinguishes ([errors.IsNotFound],
    [client.IgnoreNotFound], the conflict test of [retry.RetryOnConflict],
    [errors.NewBadRequest]); everything else is [ErrInternal]. *)
Inductive StatusError :=
  | ErrNotFound
  | ErrConflict
  | ErrAlreadyExists
  | ErrBadRequest (msg : string)
  | ErrInternal (msg : string).

Definition IsNotFound (e : StatusError) : bool :=
  match e with ErrNotFound => true | _ => false end.

Definition IsConflict (e : StatusError) : bool :=
  match e with ErrConflict => true | _ => false end.

Inductive Result (A : Type) :=
  | Ok (a : A)
  | Err (e : StatusError).
Arguments Ok {A} a.
Arguments Err {A} e.

(** What a run leaves behind for an observer: the write calls it issued, in
    order and whether or not the store accepted them, and its [log.Error]
    lines. *)
Inductive Event :=
  | EvCreateGateway (g : Gateway)
  | EvApplyGateway (patch : Gateway)
  | EvDeleteGateway (g : Gateway)
  | EvUpdateRoute (rt : HTTPRoute)
  | EvApplyRoute (patch : HTTPRoute)
  | EvLogError (msg : string).

Definition isWrite (e : Event) : bool :=
  match e with EvLogError _ => false | _ => true end.

Definition writes (evs : list Event) : list Event := List.filter isWrite evs.

(** Objects of one kind, keyed by (namespace, name), in list order. *)
Section Objects.
Context {A : Type} (key : A → string * string).

Definition hasKey (k : string * string) (x : A) : bool := bool_decide (key x = k).

Definition findObj (k : string * string) (l : list A) : option A :=
  List.find (hasKey k) l.

Fixpoint putObj (x : A) (l : list A) : list A :=
  match l with
  | [] => [x]
  | y :: rest => if hasKey (key x) y then x :: rest else y :: putObj x rest
  end.

Definition removeObj (k : string * string) (l : list A) : list A :=
  List.filter (λ y, negb (hasKey k y)) l.
End Objects.

Definition routeKey (rt : HTTPRoute) : string * string := (rtNamespace rt, rtName rt).
Definition gatewayKey (g : Gateway) : string * string := (gwNamespace g, gwName g).

Record Store := {
  stRoutes : list HTTPRoute;
  stGateways : list Gateway
}.

(** What other writers do to the store between two calls of the controller. *)
Inductive EnvAction :=
  | EnvPutRoute (rt : HTTPRoute)
  | EnvRemoveRoute (k : string * string)
  | EnvPutGateway (g : Gateway)
  | EnvRemoveGateway (k : string * string).

Definition interfere1 (st : Store) (a : EnvAction) : Store :=
  match a with
  | EnvPutRoute rt =>
      {| stRoutes := putObj routeKey rt (stRoutes st); stGateways := stGateways st |}
  | EnvRemoveRoute k =>
      {| stRoutes := removeObj routeKey k (stRoutes st); stGateways := stGateways st |}
  | EnvPutGateway g =>
      {| stRoutes := stRoutes st; stGateways := putObj gatewayKey g (stGateways st) |}
  | EnvRemoveGateway k =>
      {| stRoutes := stRoutes st; stGateways := removeObj gatewayKey k (stGateways st) |}
  end.

Definition interfere (acts : list EnvAction) (st : Store) : Store :=
  foldl interfere1 st acts.

(** One entry of the environment script is consumed by each client call:
    the changes other writers made since the previous call, and the error
    the API server answers this call with, if any.  Optimistic-concurrency
    conflicts are raised this way. *)
Record EnvStep := {
  esInterference : list EnvAction;
  esFault : option StatusError
}.

(** The world of a run: the store, the script of the environment, and the
    orders in which the [range] loops over maps still to come iterate, one
    per loop. *)
Record World := {
  wStore : Store;
  wScript : list EnvStep;
  wMapOrder : list (list nat)
}.

(** A world in which no call fails and nobody else writes; its maps are
    iterated in the orders given. *)
Definition calm (st : Store) (orders : list (list nat)) : World :=
  {| wStore := st; wScript := []; wMapOrder := orders |}.

(** A calm world whose maps are iterated as they are listed. *)
Definition quiet (st : Store) : World :=
  {| wStore := st; wScript := []; wMapOrder := [] |}.

(** The controller's computations: state (the world), failure (a Go
    [error]) and the events issued. *)
Definition M (A : Type) : Type := World → Result A * World * list Event.

Definition ret {A : Type} (a : A) : M A := λ w, (Ok a, w, []).

Definition fail {A : Type} (e : StatusError) : M A := λ w, (Err e, w, []).

Definition bind {A B : Type} (m : M A) (f : A → M B) : M B :=
  λ w, match m w with
       | (Ok a, w1, ev1) =>
           match f a w1 with
           | (r, w2, ev2) => (r, w2, ev1 ++ ev2)
           end
       | (Err e, w1, ev1) => (Err e, w1, ev1)
       end.

(** [err := f(); if err != nil { ... }] where the error is inspected. *)
Definition attempt {A : Type} (m : M A) : M (Result A) :=
  λ w, match m w with (r, w1, ev) => (Ok r, w1, ev) end.

Definition emit (e : Event) : M unit := λ w, (Ok tt, w, [e]).

Definition logError (msg : string) : M unit := emit (EvLogError msg).

(** The order of the next [range] over a map. *)
Definition nextMapOrder : M (list nat) :=
  λ w, (Ok (hd [] (wMapOrder w)),
        {| wStore := wStore w; wScript := wScript w; wMapOrder := tl (wMapOrder w) |},
        []).

Declare Scope ctl_scope.
Delimit Scope ctl_scope with ctl.
Notation "x <- m ;; k" := (bind m (λ x, k))
  (at level 100, m at next level, right associativity) : ctl_scope.
Notation "m ;;; k" := (bind m (λ _, k))
  (at level 100, right associativity) : ctl_scope.
Open Scope ctl_scope.

(** A client call: the environment moves first, then either the injected
    fault is returned or the operation runs on the store. *)
Definition call {A : Type} (evs : list Event) (op : Store → Result A * Store) : M A :=
  λ w, match wScript w with
       | [] =>
           let '(r, st) := op (wStore w) in
           (r, {| wStore := st; wScript := []; wMapOrder := wMapOrder w |}, evs)
       | step :: rest =>
           let st := interfere (esInterference step) (wStore w) in
           match esFault step with
           | Some e =>
               (Err e, {| wStore := st; wScript := rest; wMapOrder := wMapOrder w |}, evs)
           | None =>
               let '(r, st') := op st in
               (r, {| wStore := st'; wScript := rest; wMapOrder := wMapOrder w |}, evs)
           end
       end.

Definition orNotFound {A : Type} (o : option A) : Result A :=
  match o with Some a => Ok a | None => Err ErrNotFound end.

Definition clientGetRoute (k : string * string) : M HTTPRoute :=
  call [] (λ st, (orNotFound (findObj routeKey k (stRoutes st)), st)).

Definition clientGetGateway (k : string * string) : M Gateway :=
  call [] (λ st, (orNotFound (findObj gatewayKey k (stGateways st)), st)).

Definition clientListRoutes : M (list HTTPRoute) :=
  call [] (λ st, (Ok (stRoutes st), st)).

Definition clientCreateGateway (g : Gateway) : M unit :=
  call [EvCreateGateway g] (λ st,
    match findObj gatewayKey (gatewayKey g) (stGateways st) with
    | Some _ => (Err ErrAlreadyExists, st)
    | None =>
        (Ok tt, {| stRoutes := stRoutes st;
                   stGateways := putObj gatewayKey g (stGateways st) |})
    end).

Definition clientDeleteGateway (g : Gateway) : M unit :=
  call [EvDeleteGateway g] (λ st,
    match findObj gatewayKey (gatewayKey g) (stGateways st) with
    | Some _ =>
        (Ok tt, {| stRoutes := stRoutes st;
                   stGateways := removeObj gatewayKey (gatewayKey g) (stGateways st) |})
    | None => (Err ErrNotFound, st)
    end).

(** Server-side apply of a gateway by [fieldOwner]: the applied fields (class
    name and listeners) replace the stored ones, every other field of the
    stored object stays; applying to an absent object creates it. *)
Definition applied (patch g : Gateway) : Gateway :=
  {| gwName := gwName g; gwNamespace := gwNamespace g;
     gwAnnotations := gwAnnotations g;
     gwClassName := gwClassName patch;
     gwListeners := gwListeners patch;
     gwInfrastructure := gwInfrastructure g |}.

Definition applyGatewayTo (patch : Gateway) (gs : list Gateway) : list Gateway :=
  match findObj gatewayKey (gatewayKey patch) gs with
  | Some g => putObj gatewayKey (applied patch g) gs
  | None => putObj gatewayKey patch gs
  end.

Definition clientApplyGateway (patch : Gateway) : M unit :=
  call [EvApplyGateway patch] (λ st,
    (Ok tt, {| stRoutes := stRoutes st;
               stGateways := applyGatewayTo patch (stGateways st) |})).

(** Server-side apply of a route's annotations: the applied keys are set,
    the other stored keys stay. *)
Definition applyRouteTo (patch : HTTPRoute) (rs : list HTTPRoute) : list HTTPRoute :=
  match findObj routeKey (routeKey patch) rs with
  | Some rt =>
      putObj routeKey (setAnnotations rt (rtAnnotations patch ∪ rtAnnotations rt)) rs
  | None => putObj routeKey patch rs
  end.

Definition clientApplyRoute (patch : HTTPRoute) : M unit :=
  call [EvApplyRoute patch] (λ st,
    (Ok tt, {| stRoutes := applyRouteTo patch (stRoutes st);
               stGateways := stGateways st |})).

(** [Update] of a route: the stored object is replaced; a route that is
    being deleted and has no finalizer left is removed by the API server. *)
Definition clientUpdateRoute (rt : HTTPRoute) : M unit :=
  call [EvUpdateRoute rt] (λ st,
    match findObj routeKey (routeKey rt) (stRoutes st) with
    | None => (Err ErrNotFound, st)
    | Some _ =>
        let rs :=
          if negb (timeIsZero (rtDeletionTimestamp rt))
             && bool_decide (rtFinalizers rt = [])
          then removeObj routeKey (routeKey rt) (stRoutes st)
          else putObj routeKey rt (stRoutes st) in
        (Ok tt, {| stRoutes := rs; stGateways := stGateways st |})
    end).

(** [retry.RetryOnConflict(retry.DefaultRetry, fn)] of client-go:
    [DefaultRetry] has [Steps = 5]; [fn] runs until it succeeds, fails with
    something else than a conflict, or the steps are used up, in which case
    the last conflict is returned. *)
Definition defaultRetrySteps : nat := 5.

Fixpoint onConflict (steps : nat) (fn : M unit) (lastErr : StatusError) : M unit :=
  match steps with
  | 0 => fail lastErr
  | S n =>
      r <- attempt fn ;;
      match r with
      | Ok _ => ret tt
      | Err e => if IsConflict e then onConflict n fn e else fail e
      end
  end.

Definition RetryOnConflict (fn : M unit) : M unit :=
  onConflict defaultRetrySteps fn (ErrInternal "timed out waiting for the condition").

(** ** Gateway synchroniser ([annotations.go] and the gateway file) *)

(** The routes are listed, the hostnames collected, and the listeners
    built in the order in which the [range] over [hostnameSet] iterates. *)
Definition collectListenersForGateway (gatewayName gatewayNamespace : string)
    : M (list Listener) :=
  httpRouteList <- clientListRoutes ;;
  order <- nextMapOrder ;;
  ret (rangeOver order (collectListeners gatewayName gatewayNamespace httpRouteList)).

(** The applied configuration of a listener patch: name, namespace, class
    name and listeners, nothing else. *)
Definition listenersPatch (gatewayName gatewayNamespace className : string)
    (listeners : list Listener) : Gateway :=
  {| gwName := gatewayName; gwNamespace := gatewayNamespace;
     gwAnnotations := ∅;
     gwClassName := className;
     gwListeners := listeners;
     gwInfrastructure := None |}.

Definition updateGatewayListeners (gateway : Gateway) (gatewayNamespace : string)
    : M unit :=
  let gatewayName := gwName gateway in
  newListeners <- collectListenersForGateway gatewayName gatewayNamespace ;;
  if Nat.eqb (length newListeners) 0 then clientDeleteGateway gateway
  else
    clientApplyGateway
      (listenersPatch gatewayName gatewayNamespace (gwClassName gateway) newListeners).

Definition newGatewayObject (gatewayName gatewayNamespace ipamZone clusterIssuer : string)
    (listeners : list Listener) : Gateway :=
  {| gwName := gatewayName; gwNamespace := gatewayNamespace;
     gwAnnotations := {[ clusterIssuerAnnotation := clusterIssuer ]};
     gwClassName := gatewayClassName;
     gwListeners := listeners;
     gwInfrastructure :=
       Some {| giAnnotations := Some {[ "ipam.vitistack.io/zone" := ipamZone ]} |} |}.

Definition createGateway (gatewayName gatewayNamespace ipamZone clusterIssuer : string)
    : M unit :=
  r <- attempt (collectListenersForGateway gatewayName gatewayNamespace) ;;
  match r with
  | Err e => logError "Failed to collect listeners for new Gateway" ;;; fail e
  | Ok listeners =>
      let newGateway :=
        newGatewayObject gatewayName gatewayNamespace ipamZone clusterIssuer listeners in
      r' <- attempt (clientCreateGateway newGateway) ;;
      match r' with
      | Err e => logError "Failed to create Gateway" ;;; fail e
      | Ok _ => ret tt
      end
  end.

Definition issuerMismatch (existingIssuer clusterIssuer : string) : StatusError :=
  ErrBadRequest
    ("HTTPRoute cluster issuer mismatch: Gateway has issuer '" +:+ existingIssuer
       +:+ "' but HTTPRoute requires '" +:+ clusterIssuer +:+ "'").

Definition zoneMismatch (existingZone ipamZone : string) : StatusError :=
  ErrBadRequest
    ("HTTPRoute IPAM zone mismatch: Gateway has zone '" +:+ existingZone
       +:+ "' but HTTPRoute requires '" +:+ ipamZone +:+ "'").

(** The zone a gateway records: present only with an Infrastructure block,
    a non-nil annotation map in it, and the zone key in that map. *)
Definition recordedZone (gateway : Gateway) : option string :=
  match gwInfrastructure gateway with
  | Some infra =>
      match giAnnotations infra with
      | Some annotations => annotations !! "ipam.vitistack.io/zone"
      | None => None
      end
  | None => None
  end.

Definition ensureGateway (gatewayName gatewayNamespace ipamZone clusterIssuer : string)
    : M unit :=
  r <- attempt (clientGetGateway (gatewayNamespace, gatewayName)) ;;
  match r with
  | Err e =>
      if IsNotFound e
      then createGateway gatewayName gatewayNamespace ipamZone clusterIssuer
      else logError "Failed to get Gateway" ;;; fail e
  | Ok gateway =>
      let existingIssuer := annot (gwAnnotations gateway) clusterIssuerAnnotation in
      if bool_decide (existingIssuer ≠ clusterIssuer) then
        logError "Cluster issuer mismatch" ;;;
        fail (issuerMismatch existingIssuer clusterIssuer)
      else
        match recordedZone gateway with
        | Some existingZone =>
            if bool_decide (existingZone ≠ ipamZone) then
              logError "IPAM zone mismatch" ;;;
              fail (zoneMismatch existingZone ipamZone)
            else updateGatewayListeners gateway gatewayNamespace
        | None => updateGatewayListeners gateway gatewayNamespace
        end
  end.

(** ** The reconciliation controller ([httproute_controller.go]) *)

(** The parse at the head of [updateOldGateway]: the reference is cut at
    its first slash; without one both parts stay empty. *)
Fixpoint cutAtSlash (gatewayRef : string) : option (string * string) :=
  match gatewayRef with
  | EmptyString => None
  | String ch rest =>
      if bool_decide (ch = "/"%char) then Some ("", rest)
      else
        match cutAtSlash rest with
        | Some (ns, name) => Some (String ch ns, name)
        | None => None
        end
  end.

Definition parseGatewayRef (gatewayRef : string) : string * string :=
  default ("", "") (cutAtSlash gatewayRef).

Definition updateOldGateway (gatewayRef : string) : M unit :=
  let '(gatewayNamespace, gatewayName) := parseGatewayRef gatewayRef in
  if bool_decide (gatewayNamespace = "") || bool_decide (gatewayName = "") then
    logError "Invalid gateway reference format"
  else
    r <- attempt (clientGetGateway (gatewayNamespace, gatewayName)) ;;
    match r with
    | Err e => if IsNotFound e then ret tt else fail e
    | Ok gateway =>
        listeners <- collectListenersForGateway gatewayName gatewayNamespace ;;
        if Nat.eqb (length listeners) 0 then clientDeleteGateway gateway
        else
          clientApplyGateway
            (listenersPatch gatewayName gatewayNamespace (gwClassName gateway) listeners)
    end.

Definition handleHTTPRouteDeletion (gatewayName gatewayNamespace : string) : M unit :=
  r <- attempt (clientGetGateway (gatewayNamespace, gatewayName)) ;;
  match r with
  | Err e =>
      if IsNotFound e then ret tt
      else logError "Failed to get Gateway" ;;; fail e
  | Ok gateway =>
      r' <- attempt (updateGatewayListeners gateway gatewayNamespace) ;;
      match r' with
      | Err e =>
          logError "Failed to update Gateway listeners after HTTPRoute deletion" ;;;
          fail e
      | Ok _ => ret tt
      end
  end.

(** The closure retried to remove the finalizer. *)
Definition removeFinalizerOnce (req : string * string) : M unit :=
  r <- attempt (clientGetRoute req) ;;
  match r with
  | Err e => if IsNotFound e then ret tt else fail e
  | Ok latest =>
      if negb (ContainsFinalizer latest httprouteFinalizerName) then ret tt
      else clientUpdateRoute (RemoveFinalizer latest httprouteFinalizerName)
  end.

(** The closure retried to add the finalizer. *)
Definition addFinalizerOnce (req : string * string) : M unit :=
  latest <- clientGetRoute req ;;
  if ContainsFinalizer latest httprouteFinalizerName then ret tt
  else clientUpdateRoute (AddFinalizer latest httprouteFinalizerName).

(** The gateway a parent reference of a route stands for in [Reconcile],
    which applies it to the first one: the namespace defaults to the route's
    own. *)
Definition effectiveGateway (httpRoute : HTTPRoute) (parentRef : ParentReference)
    : string * string :=
  (default (rtNamespace httpRoute) (prNamespace parentRef), prName parentRef).

(** The deletion branch of [Reconcile]. *)
Definition reconcileDeleting (req : string * string) (httpRoute : HTTPRoute)
    (gatewayName gatewayNamespace : string) : M unit :=
  if ContainsFinalizer httpRoute httprouteFinalizerName then
    r <- attempt (handleHTTPRouteDeletion gatewayName gatewayNamespace) ;;
    match r with
    | Err e => logError "Failed to handle HTTPRoute deletion" ;;; fail e
    | Ok _ =>
        r' <- attempt (RetryOnConflict (removeFinalizerOnce req)) ;;
        match r' with
        | Err e =>
            if IsNotFound e then ret tt
            else logError "Failed to remove finalizer" ;;; fail e
        | Ok _ => ret tt
        end
    end
  else ret tt.

(** The annotation bookkeeping: the map after it, and [needsUpdate]. *)
Definition syncedAnnotations (annotations : gmap string string)
    (currentGatewayRef : string) : gmap string string * bool :=
  let '(a1, n1) :=
    match annotations !! reconcileAnnotationKey with
    | Some _ => (annotations, false)
    | None => (<[reconcileAnnotationKey := "true"]> annotations, true)
    end in
  if bool_decide (annot a1 previousGatewayAnnotationKey ≠ currentGatewayRef)
  then (<[previousGatewayAnnotationKey := currentGatewayRef]> a1, true)
  else (a1, n1).

Definition annotationsPatch (httpRoute : HTTPRoute) (annotations : gmap string string)
    : HTTPRoute :=
  {| rtName := rtName httpRoute; rtNamespace := rtNamespace httpRoute;
     rtAnnotations := annotations;
     rtDeletionTimestamp := None; rtFinalizers := [];
     rtParentRefs := []; rtHostnames := [] |}.

(** Zone and issuer "from annotation or use default". *)
Definition effectiveZone (annotations : gmap string string) : string :=
  let ipamZone := annot annotations AnnotationIPAMZone in
  if bool_decide (ipamZone = "") then defaultIPAMZone else ipamZone.

Definition effectiveIssuer (annotations : gmap string string) : string :=
  let clusterIssuer := annot annotations AnnotationClusterIssuer in
  if bool_decide (clusterIssuer = "") then defaultClusterIssuer else clusterIssuer.

(** [Reconcile] from "Update annotations" to its end. *)
Definition reconcileGateway (httpRoute : HTTPRoute)
    (gatewayName gatewayNamespace currentGatewayRef : string) : M unit :=
  let '(annotations, needsUpdate) :=
    syncedAnnotations (rtAnnotations httpRoute) currentGatewayRef in
  (if needsUpdate then
     r <- attempt (clientApplyRoute (annotationsPatch httpRoute annotations)) ;;
     match r with
     | Err e => logError "Failed to update HTTPRoute annotations" ;;; fail e
     | Ok _ => ret tt
     end
   else ret tt) ;;;
  let ipamZone := effectiveZone annotations in
  let clusterIssuer := effectiveIssuer annotations in
  r <- attempt (ensureGateway gatewayName gatewayNamespace ipamZone clusterIssuer) ;;
  match r with
  | Err e => logError "Failed to ensure Gateway" ;;; fail e
  | Ok _ => ret tt
  end.

(** [Reconcile] from the finalizer check to its end. *)
Definition reconcileFinalized (req : string * string) (httpRoute : HTTPRoute)
    (gatewayName gatewayNamespace currentGatewayRef : string) : M unit :=
  if negb (ContainsFinalizer httpRoute httprouteFinalizerName) then
    r <- attempt (RetryOnConflict (addFinalizerOnce req)) ;;
    match r with
    | Err e => logError "Failed to add finalizer" ;;; fail e
    | Ok _ => ret tt
    end
  else reconcileGateway httpRoute gatewayName gatewayNamespace currentGatewayRef.

(** [Reconcile] after the deletion branch. *)
Definition reconcileLive (req : string * string) (httpRoute : HTTPRoute)
    (gatewayName gatewayNamespace : string) : M unit :=
  let currentGatewayRef := gatewayNamespace +:+ "/" +:+ gatewayName in
  let previousGatewayRef := annot (rtAnnotations httpRoute) previousGatewayAnnotationKey in
  (if bool_decide (previousGatewayRef ≠ "")
      && bool_decide (previousGatewayRef ≠ currentGatewayRef)
   then
     r <- attempt (updateOldGateway previousGatewayRef) ;;
     match r with
     | Err _ => logError "Failed to update old gateway listeners"
     | Ok _ => ret tt
     end
   else ret tt) ;;;
  reconcileFinalized req httpRoute gatewayName gatewayNamespace currentGatewayRef.

Definition Reconcile (req : string * string) : M unit :=
  r <- attempt (clientGetRoute req) ;;
  match r with
  | Err e => if IsNotFound e then ret tt else fail e
  | Ok httpRoute =>
      if negb (operatorEnabled httpRoute) then ret tt
      else
        match rtParentRefs httpRoute with
        | [] => logError "HTTPRoute has no parent references"
        | parentRef :: _ =>
            let '(gatewayNamespace, gatewayName) :=
              effectiveGateway httpRoute parentRef in
            if negb (timeIsZero (rtDeletionTimestamp httpRoute))
            then reconcileDeleting req httpRoute gatewayName gatewayNamespace
            else reconcileLive req httpRoute gatewayName gatewayNamespace
        end
  end.

(** ** The aggregation in the words of the specification

    Stated apart from the loop, to compare the two: which routes count for
    a gateway, read on the first parent reference only, and read on any of
    them. *)

Definition refersFirst (gatewayName gatewayNamespace : string) (rt : HTTPRoute) : bool :=
  match rtParentRefs rt with
  | parentRef :: _ =>
      bool_decide (effectiveGateway rt parentRef = (gatewayNamespace, gatewayName))
  | [] => false
  end.

Definition refersAnywhere (gatewayName gatewayNamespace : string) (rt : HTTPRoute) : bool :=
  existsb
    (λ parentRef,
       bool_decide (effectiveGateway rt parentRef = (gatewayNamespace, gatewayName)))
    (rtParentRefs rt).

Definition activeAndEnabled (rt : HTTPRoute) : bool :=
  timeIsZero (rtDeletionTimestamp rt) && operatorEnabled rt.

(** The deduplicated union of the hostnames of the routes that [refers]
    selects among the active and enabled ones. *)
Definition hostnameUnion (refers : HTTPRoute → bool) (items : list HTTPRoute)
    : gset string :=
  list_to_set
    (mjoin (rtHostnames <$> filter (λ rt, activeAndEnabled rt && refers rt) items)).

(** What the loop tests: a route contributes when some parent reference
    passes [parentRefMatches]. *)
Definition contributes (gatewayName gatewayNamespace : string) (rt : HTTPRoute) : bool :=
  activeAndEnabled rt
  && existsb (parentRefMatches gatewayName gatewayNamespace) (rtParentRefs rt).

(** No route that is active and enabled names the gateway by a parent
    reference without namespace from outside the gateway's namespace. *)
Definition bareRefsAreLocal (gatewayName gatewayNamespace : string)
    (items : list HTTPRoute) : Prop :=
  ∀ rt parentRef,
    rt ∈ items →
    timeIsZero (rtDeletionTimestamp rt) = true →
    annot (rtAnnotations rt) AnnotationUseHttprouteOperator = "true" →
    parentRef ∈ rtParentRefs rt →
    prName parentRef = gatewayName → prNamespace parentRef = None →
    rtNamespace rt = gatewayNamespace.

(** ** Settled routes and the events of a deletion

    A route is settled in a store when a reconciliation has nothing left
    to do for it but to synchronise its gateway: it is stored, enabled, not
    being deleted, holds the finalizer and both bookkeeping annotations,
    and its gateway exists, records the route's issuer and zone, and has at
    least one listener to carry. *)
Record Settled (st : Store) (req : string * string) (httpRoute : HTTPRoute)
    (parentRef : ParentReference) (gateway : Gateway) : Prop := {
  settled_route : findObj routeKey req (stRoutes st) = Some httpRoute;
  settled_enabled : operatorEnabled httpRoute = true;
  settled_parent : head (rtParentRefs httpRoute) = Some parentRef;
  settled_live : timeIsZero (rtDeletionTimestamp httpRoute) = true;
  settled_finalizer : ContainsFinalizer httpRoute httprouteFinalizerName = true;
  settled_marker : is_Some (rtAnnotations httpRoute !! reconcileAnnotationKey);
  settled_previous :
    annot (rtAnnotations httpRoute) previousGatewayAnnotationKey
    = (effectiveGateway httpRoute parentRef).1 +:+ "/"
        +:+ (effectiveGateway httpRoute parentRef).2;
  settled_gateway :
    findObj gatewayKey (effectiveGateway httpRoute parentRef) (stGateways st)
    = Some gateway;
  settled_issuer :
    annot (gwAnnotations gateway) clusterIssuerAnnotation
    = effectiveIssuer (rtAnnotations httpRoute);
  settled_zone :
    ∀ existingZone, recordedZone gateway = Some existingZone →
      existingZone = effectiveZone (rtAnnotations httpRoute);
  settled_listeners :
    collectListeners (effectiveGateway httpRoute parentRef).2
      (effectiveGateway httpRoute parentRef).1 (stRoutes st) ≠ []
}.

(** The store after the listener patch of a synchronisation. *)
Definition afterApply (patch : Gateway) (st : Store) : Store :=
  {| stRoutes := stRoutes st; stGateways := applyGatewayTo patch (stGateways st) |}.

(** The events a deletion run may issue for request [req] and gateway key
    [k]: a delete or a non-empty listener patch of that gateway, an update
    of that route without the finalizer, error log lines; never a gateway
    creation or a route annotation patch. *)
Definition deletionEvent (req k : string * string) (e : Event) : Prop :=
  match e with
  | EvDeleteGateway g => gatewayKey g = k
  | EvApplyGateway patch => gatewayKey patch = k ∧ gwListeners patch ≠ []
  | EvUpdateRoute rt =>
      routeKey rt = req ∧ ContainsFinalizer rt httprouteFinalizerName = false
  | EvLogError _ => True
  | EvCreateGateway _ | EvApplyRoute _ => False
  end.

Definition isUpdateRoute (e : Event) : bool :=
  match e with EvUpdateRoute _ => true | _ => false end.

(** ** Example objects

    The objects of the scenario of the specification, used to run the
    controller on concrete stores. *)

Module Ex.
Definition enabled : gmap string string :=
  {[ AnnotationUseHttprouteOperator := "true" ]}.

Definition route (ns name : string) (annotations : gmap string string)
    (deleted : option Z) (finalizers : list string)
    (parentRefs : list ParentReference) (hostnames : list string) : HTTPRoute :=
  {| rtName := name; rtNamespace := ns; rtAnnotations := annotations;
     rtDeletionTimestamp := deleted; rtFinalizers := finalizers;
     rtParentRefs := parentRefs; rtHostnames := hostnames |}.

Definition ref (name : string) : ParentReference :=
  {| prName := name; prNamespace := None |}.

Definition refIn (ns name : string) : ParentReference :=
  {| prName := name; prNamespace := Some ns |}.

(** The annotations of a route that went through one full reconciliation
    towards gateway [gw] of namespace [ns]. *)
Definition settled (ns gw : string) : gmap string string :=
  <[previousGatewayAnnotationKey := ns +:+ "/" +:+ gw]>
    (<[reconcileAnnotationKey := "true"]> enabled).

(** A gateway as [createGateway] makes it, with the default issuer and zone. *)
Definition gateway (ns name : string) (hostnames : list string) : Gateway :=
  newGatewayObject name ns defaultIPAMZone defaultClusterIssuer
    ((λ h, createHTTPSListener h ns) <$> hostnames).

(** A gateway without Infrastructure block and without issuer annotation. *)
Definition bareGateway (ns name : string) (hostnames : list string) : Gateway :=
  {| gwName := name; gwNamespace := ns; gwAnnotations := ∅;
     gwClassName := gatewayClassName;
     gwListeners := (λ h, createHTTPSListener h ns) <$> hostnames;
     gwInfrastructure := None |}.

Definition store (routes : list HTTPRoute) (gateways : list Gateway) : Store :=
  {| stRoutes := routes; stGateways := gateways |}.

(** A disabled route that is being deleted and still holds the finalizer. *)
Definition disabledDeleting : HTTPRoute :=
  route "ns" "r1" ∅ (Some 1700000000%Z) [httprouteFinalizerName]
    [ref "g1"] ["a.example.com"].

(** An enabled route without parent reference. *)
Definition orphan : HTTPRoute :=
  route "ns" "r1" enabled None [] [] ["a.example.com"].

(** A settled route that asks for another issuer than [gateway] records. *)
Definition otherIssuer : HTTPRoute :=
  route "ns" "r2"
    (<[AnnotationClusterIssuer := "letsencrypt"]> (settled "ns" "g1"))
    None [httprouteFinalizerName] [ref "g1"] ["b.example.com"].

(** A settled route that asks for another zone than [gateway] records. *)
Definition otherZone : HTTPRoute :=
  route "ns" "r2"
    (<[AnnotationIPAMZone := "hnet-public"]> (settled "ns" "g1"))
    None [httprouteFinalizerName] [ref "g1"] ["b.example.com"].

(** A route that moved from gateway [g1] to gateway [g2]. *)
Definition moved : HTTPRoute :=
  route "ns" "r1" (settled "ns" "g1") None [httprouteFinalizerName]
    [ref "g2"] ["a.example.com"].

(** A settled route whose second parent reference is [g1]. *)
Definition secondParent : HTTPRoute :=
  route "ns" "r3" (settled "ns" "g0") None [httprouteFinalizerName]
    [ref "g0"; ref "g1"] ["c.example.com"].

(** A settled route of gateway [g1]. *)
Definition first : HTTPRoute :=
  route "ns" "r1" (settled "ns" "g1") None [httprouteFinalizerName]
    [ref "g1"] ["a.example.com"; "b.example.com"].

(** A route of namespace [team-a] that names [g1] without a namespace. *)
Definition teamA : HTTPRoute :=
  route "team-a" "r1" (settled "team-a" "g1") None [httprouteFinalizerName]
    [ref "g1"] ["a.example.com"].

(** A route of gateway [g1] that is being deleted. *)
Definition leaving : HTTPRoute :=
  route "ns" "r2" (settled "ns" "g1") (Some 1700000000%Z) [httprouteFinalizerName]
    [ref "g1"] ["b.example.com"].


(** A route of namespace [apps] that names gateway [g1] of namespace [ns]. *)
Definition crossNamespace : HTTPRoute :=
  route "apps" "r4" (settled "ns" "g1") None [httprouteFinalizerName]
    [refIn "ns" "g1"] ["d.example.com"].

(** A route of namespace [team-a] that names another gateway, [g9], without
    a namespace. *)
Definition elsewhere : HTTPRoute :=
  route "team-a" "r6" (settled "team-a" "g9") None [httprouteFinalizerName]
    [ref "g9"] ["e.example.com"].

(** Between the second and the third call of a run another writer stores
    [rt], respectively removes the route of key [k]. *)
Definition thenStored (rt : HTTPRoute) : list EnvStep :=
  [ {| esInterference := []; esFault := None |};
    {| esInterference := []; esFault := None |};
    {| esInterference := [EnvPutRoute rt]; esFault := None |} ].

Definition thenRemoved (k : string * string) : list EnvStep :=
  [ {| esInterference := []; esFault := None |};
    {| esInterference := []; esFault := None |};
    {| esInterference := [EnvRemoveRoute k]; esFault := None |} ].

(** Every call succeeds but each update of the route, which is answered
    with a conflict: calls 4, 6, 8, 10 and 12 of a deletion run whose
    gateway is absent. *)
Definition pass : EnvStep := {| esInterference := []; esFault := None |}.
Definition conflict : EnvStep := {| esInterference := []; esFault := Some ErrConflict |}.
Definition updatesConflict : list EnvStep :=
  [pass; pass; pass; conflict; pass; conflict; pass; conflict; pass; conflict;
   pass; conflict].

(** The API server answers the second call of a run with an internal error. *)
Definition failSecondCall : list EnvStep :=
  [ {| esInterference := []; esFault := None |};
    {| esInterference := []; esFault := Some (ErrInternal "etcd unavailable") |} ].
End Ex.

(** ** Observations for the further properties *)

(** The names of the certificate secrets a listener refers to. *)
Definition certSecretNames (l : Listener) : list string :=
  match lsTLS l with
  | Some tls => sorName <$> tlsCertificateRefs tls
  | None => []
  end.

(** What [parentRefMatches] accepts, written out: the name is the
    gateway's, and the namespace is absent or the gateway's. *)
Definition namedBy (gatewayName gatewayNamespace : string)
    (parentRef : ParentReference) : Prop :=
  prName parentRef = gatewayName
  ∧ (prNamespace parentRef = None ∨ prNamespace parentRef = Some gatewayNamespace).

(** A string without a slash. *)
Definition slashFree (s : string) : Prop := ∀ a b, s ≠ a +:+ "/" +:+ b.


(** The number of write calls among the events of a run. *)
Definition writeCount (evs : list Event) : nat := length (writes evs).

(** More example objects. *)
Module ExMore.
(** A disabled route of gateway [g1]. *)
Definition disabled : HTTPRoute :=
  Ex.route "ns" "r5" ∅ None [] [Ex.ref "g1"] ["e.example.com"].

(** An enabled route of gateway [g1] that was never reconciled. *)
Definition fresh : HTTPRoute :=
  Ex.route "ns" "r1" Ex.enabled None [] [Ex.ref "g1"] ["a.example.com"].

(** The same route once it holds the finalizer. *)
Definition finalized : HTTPRoute :=
  Ex.route "ns" "r1" Ex.enabled None [httprouteFinalizerName] [Ex.ref "g1"]
    ["a.example.com"].

(** A route that holds the finalizer but no bookkeeping annotation yet, and
    asks for another issuer than [Ex.gateway] records. *)
Definition conflicting : HTTPRoute :=
  Ex.route "ns" "r2" (<[AnnotationClusterIssuer := "letsencrypt"]> Ex.enabled)
    None [httprouteFinalizerName] [Ex.ref "g1"] ["b.example.com"].

(** A route that holds the finalizer and declares an issuer and a zone of
    its own. *)
Definition declaring : HTTPRoute :=
  Ex.route "ns" "r1"
    (<[AnnotationClusterIssuer := "letsencrypt"]>
       (<[AnnotationIPAMZone := "hnet-public"]> Ex.enabled))
    None [httprouteFinalizerName] [Ex.ref "g1"] ["a.example.com"].

(** A route that is being deleted and does not hold the finalizer. *)
Definition released : HTTPRoute :=
  Ex.route "ns" "r2" (Ex.settled "ns" "g1") (Some 1700000000%Z) ["other/finalizer"]
    [Ex.ref "g1"] ["b.example.com"].

(** The API server answers the fourth call of a run with an internal error. *)
Definition fourthFails : list EnvStep :=
  [ Ex.pass; Ex.pass; Ex.pass;
    {| esInterference := []; esFault := Some (ErrInternal "timeout") |} ].

(** Before the fourth call of a run another writer stores gateway [g]. *)
Definition raceOnCreate (g : Gateway) : list EnvStep :=
  [ Ex.pass; Ex.pass; Ex.pass;
    {| esInterference := [EnvPutGateway g]; esFault := None |} ].

(** The API server answers the second call of a run with not-found. *)
Definition secondNotFound : list EnvStep :=
  [ {| esInterference := []; esFault := None |};
    {| esInterference := []; esFault := Some ErrNotFound |} ].

(** The API server answers the first call of a run with an internal error. *)
Definition firstFails : list EnvStep :=
  [ {| esInterference := []; esFault := Some (ErrInternal "timeout") |} ].
End ExMore.

(** * Properties *)

(** ** Running computations *)

Lemma bind_ok {A B : Type} (m : M A) (f : A → M B) w a w1 ev1 :
  m w = (Ok a, w1, ev1) →
  bind m f w = (let '(r, w2, ev2) := f a w1 in (r, w2, ev1 ++ ev2)).
Proof. intros H. unfold bind. rewrite H. by destruct (f a w1) as [[? ?] ?]. Qed.

Lemma bind_err {A B : Type} (m : M A) (f : A → M B) w e w1 ev1 :
  m w = (Err e, w1, ev1) → bind m f w = (Err e, w1, ev1).
Proof. intros H. unfold bind. by rewrite H. Qed.

Lemma attempt_run {A : Type} (m : M A) w r w1 ev1 :
  m w = (r, w1, ev1) → attempt m w = (Ok r, w1, ev1).
Proof. intros H. unfold attempt. by rewrite H. Qed.

Lemma call_quiet {A : Type} evs (op : Store → Result A * Store) st :
  call evs op (quiet st) = (let '(r, st') := op st in (r, quiet st', evs)).
Proof. reflexivity. Qed.

Lemma call_events {A : Type} evs (op : Store → Result A * Store) w r w1 ev :
  call evs op w = (r, w1, ev) → ev = evs.
Proof.
  unfold call. destruct (wScript w) as [|step rest].
  - destruct (op (wStore w)) as [r0 st0]. by intros [= _ _ <-].
  - destruct (esFault step).
    + by intros [= _ _ <-].
    + destruct (op _) as [r0 st0]. by intros [= _ _ <-].
Qed.

Lemma call_no_script {A : Type} evs (op : Store → Result A * Store) w r w1 ev :
  call evs op w = (r, w1, ev) → wScript w = [] →
  (r, wStore w1) = op (wStore w) ∧ wScript w1 = [].
Proof.
  unfold call. intros H Hs. rewrite Hs in H.
  destruct (op (wStore w)) as [r0 st0]. by injection H as <- <- _.
Qed.

Lemma call_map_order {A : Type} evs (op : Store → Result A * Store) w r w1 ev :
  call evs op w = (r, w1, ev) → wMapOrder w1 = wMapOrder w.
Proof.
  unfold call. destruct (wScript w) as [|step rest].
  - destruct (op (wStore w)) as [r0 st0]. by intros [= _ <- _].
  - destruct (esFault step).
    + by intros [= _ <- _].
    + destruct (op _) as [r0 st0]. by intros [= _ <- _].
Qed.

Lemma call_calm {A : Type} evs (op : Store → Result A * Store) st orders :
  call evs op (calm st orders) = (let '(r, st') := op st in (r, calm st' orders, evs)).
Proof. reflexivity. Qed.

(** ** The order of a map iteration *)

Lemma insertAt_Permutation {A : Type} (n : nat) (x : A) (l : list A) :
  insertAt n x l ≡ₚ x :: l.
Proof.
  revert n. induction l as [|y l IH]; intros [|n]; simpl; try done.
  rewrite IH. apply Permutation_swap.
Qed.

Lemma insertAt_length_app {A : Type} (x : A) (l1 l2 : list A) :
  insertAt (length l1) x (l1 ++ l2) = l1 ++ x :: l2.
Proof.
  induction l1 as [|y l1 IH]; simpl; [by destruct l2|]. by rewrite IH.
Qed.

(** An iteration visits every element once. *)
Lemma rangeOver_Permutation {A : Type} (order : list nat) (l : list A) :
  rangeOver order l ≡ₚ l.
Proof.
  revert l. induction order as [|p order IH]; intros [|x l]; simpl; try done.
  by rewrite insertAt_Permutation, IH.
Qed.

(** Every order of the elements is the iteration for some positions. *)
Lemma rangeOver_complete {A : Type} (l l' : list A) :
  l' ≡ₚ l → ∃ order, rangeOver order l = l'.
Proof.
  revert l'. induction l as [|x l IH]; intros l' Hp.
  - apply Permutation_nil_r in Hp as ->. by exists [].
  - assert (x ∈ l') as Hx by (rewrite Hp; by left).
    apply list_elem_of_split in Hx as (l1 & l2 & ->).
    symmetry in Hp. apply Permutation_cons_app_inv in Hp.
    destruct (IH (l1 ++ l2)) as [order Ho]; [done|].
    exists (length l1 :: order). simpl. rewrite Ho. apply insertAt_length_app.
Qed.

Lemma rangeOver_nil {A : Type} (order : list nat) (l : list A) :
  rangeOver order l = [] ↔ l = [].
Proof.
  split.
  - intros H. apply Permutation_nil_r. rewrite <- H. symmetry. apply rangeOver_Permutation.
  - intros ->. by destruct order.
Qed.

Lemma elem_of_rangeOver {A : Type} (order : list nat) (l : list A) x :
  x ∈ rangeOver order l ↔ x ∈ l.
Proof. by rewrite rangeOver_Permutation. Qed.

Lemma rangeOver_length {A : Type} (order : list nat) (l : list A) :
  length (rangeOver order l) = length l.
Proof. by rewrite rangeOver_Permutation. Qed.

Section ObjectFacts.
Context {A : Type} (key : A → string * string).

Lemma findObj_key k (l : list A) x : findObj key k l = Some x → key x = k.
Proof.
  unfold findObj. intros H. apply find_some in H as [_ H].
  unfold hasKey in H. by apply bool_decide_eq_true in H.
Qed.

Lemma findObj_putObj x (l : list A) : findObj key (key x) (putObj key x l) = Some x.
Proof.
  unfold findObj. induction l as [|y l IH]; simpl.
  - unfold hasKey. by rewrite bool_decide_eq_true_2.
  - destruct (hasKey key (key x) y) eqn:E; simpl.
    + unfold hasKey at 1. by rewrite bool_decide_eq_true_2.
    + by rewrite E.
Qed.

Lemma hasKey_false k (x : A) : key x ≠ k → hasKey key k x = false.
Proof. intros H. unfold hasKey. by rewrite bool_decide_eq_false_2. Qed.

Lemma hasKey_true k (x : A) : hasKey key k x = true → key x = k.
Proof. unfold hasKey. apply bool_decide_eq_true. Qed.

Lemma findObj_putObj_ne k x (l : list A) :
  key x ≠ k → findObj key k (putObj key x l) = findObj key k l.
Proof.
  intros Hne. unfold findObj. induction l as [|y l IH]; simpl.
  - by rewrite hasKey_false.
  - destruct (hasKey key (key x) y) eqn:E; simpl.
    + apply hasKey_true in E.
      rewrite (hasKey_false k x Hne), (hasKey_false k y); [done | congruence].
    + destruct (hasKey key k y); [done | apply IH].
Qed.

Lemma findObj_removeObj k (l : list A) : findObj key k (removeObj key k l) = None.
Proof.
  unfold findObj, removeObj. induction l as [|y l IH]; simpl; [done|].
  destruct (hasKey key k y) eqn:E; simpl; [done|]. by rewrite E.
Qed.

Lemma findObj_removeObj_ne k k' (l : list A) :
  k' ≠ k → findObj key k (removeObj key k' l) = findObj key k l.
Proof.
  intros Hne. unfold findObj, removeObj. induction l as [|y l IH]; simpl; [done|].
  destruct (hasKey key k' y) eqn:E; simpl.
  - apply hasKey_true in E.
    rewrite (hasKey_false k y); [done | congruence].
  - destruct (hasKey key k y); [done | apply IH].
Qed.

Lemma putObj_found x y (l : list A) :
  findObj key (key x) l = Some y → y = x → putObj key x l = l.
Proof.
  intros H ->. unfold findObj in H. induction l as [|z l IH]; simpl in *; [done|].
  destruct (hasKey key (key x) z) eqn:E.
  - by injection H as ->.
  - f_equal. by apply IH.
Qed.

Lemma putObj_putObj x y (l : list A) :
  key x = key y → putObj key y (putObj key x l) = putObj key y l.
Proof.
  intros Hk. induction l as [|z l IH]; simpl.
  - unfold hasKey. by rewrite bool_decide_eq_true_2.
  - destruct (hasKey key (key x) z) eqn:E; simpl.
    + rewrite <- Hk, E. unfold hasKey. by rewrite bool_decide_eq_true_2.
    + rewrite <- Hk, E. f_equal. exact IH.
Qed.
End ObjectFacts.

Lemma clientGetGateway_ok k w g w1 ev :
  clientGetGateway k w = (Ok g, w1, ev) →
  findObj gatewayKey k (stGateways (wStore w1)) = Some g ∧ ev = []
  ∧ (wScript w = [] → w1 = w).
Proof.
  unfold clientGetGateway, call. destruct w as [st sc orders]; simpl.
  destruct sc as [|step rest]; simpl.
  - destruct (findObj gatewayKey k (stGateways st)) eqn:E; simpl; [|done].
    by intros [= <- <- <-].
  - destruct (esFault step); [done|].
    destruct (findObj gatewayKey k _) eqn:E; simpl; [|done].
    intros [= <- <- <-]. simpl. by rewrite E.
Qed.

Lemma clientGetRoute_ok k w rt w1 ev :
  clientGetRoute k w = (Ok rt, w1, ev) →
  findObj routeKey k (stRoutes (wStore w1)) = Some rt ∧ ev = []
  ∧ (wScript w = [] → w1 = w).
Proof.
  unfold clientGetRoute, call. destruct w as [st sc orders]; simpl.
  destruct sc as [|step rest]; simpl.
  - destruct (findObj routeKey k (stRoutes st)) eqn:E; simpl; [|done].
    by intros [= <- <- <-].
  - destruct (esFault step); [done|].
    destruct (findObj routeKey k _) eqn:E; simpl; [|done].
    intros [= <- <- <-]. simpl. by rewrite E.
Qed.

Lemma clientGetRoute_quiet k st rt :
  findObj routeKey k (stRoutes st) = Some rt →
  clientGetRoute k (quiet st) = (Ok rt, quiet st, []).
Proof. intros H. unfold clientGetRoute. rewrite call_quiet, H. by destruct st. Qed.

Lemma clientGetGateway_quiet k st :
  clientGetGateway k (quiet st)
  = (orNotFound (findObj gatewayKey k (stGateways st)), quiet st, []).
Proof. unfold clientGetGateway. rewrite call_quiet. by destruct st. Qed.

Lemma clientGetRoute_calm k st orders rt :
  findObj routeKey k (stRoutes st) = Some rt →
  clientGetRoute k (calm st orders) = (Ok rt, calm st orders, []).
Proof. intros H. unfold clientGetRoute. rewrite call_calm, H. by destruct st. Qed.

Lemma clientGetGateway_calm k st orders :
  clientGetGateway k (calm st orders)
  = (orNotFound (findObj gatewayKey k (stGateways st)), calm st orders, []).
Proof. unfold clientGetGateway. rewrite call_calm. by destruct st. Qed.

Lemma clientListRoutes_quiet st :
  clientListRoutes (quiet st) = (Ok (stRoutes st), quiet st, []).
Proof. unfold clientListRoutes. rewrite call_quiet. by destruct st. Qed.

(** Running the controller's own control flow once the result of a call is
    known. *)
Ltac step_with H :=
  first
    [ erewrite (bind_ok _ _ _ _ _ _ (attempt_run _ _ _ _ _ H))
    | erewrite (bind_ok _ _ _ _ _ _ H)
    | erewrite (bind_err _ _ _ _ _ _ H) ].

Ltac run_pure := unfold bind, attempt, ret, fail, logError, emit; simpl.

(** ** The disabled check *)

(** C10. The enabled check comes before the deletion branch: when the route
    that [Reconcile] loads does not carry the enabled annotation with the
    exact value "true", the run returns success at once and issues no event
    at all, whatever the deletion timestamp and the finalizers of the route
    are.  The route stays stored as it was read, finalizer included, and in
    a quiet world the whole world is unchanged, so no gateway is
    synchronised. *)
Theorem C10_disabled_precedes_deletion req w httpRoute w1 ev :
  clientGetRoute req w = (Ok httpRoute, w1, ev) →
  annot (rtAnnotations httpRoute) AnnotationUseHttprouteOperator ≠ "true" →
  Reconcile req w = (Ok tt, w1, [])
  ∧ findObj routeKey req (stRoutes (wStore w1)) = Some httpRoute
  ∧ (wScript w = [] → w1 = w).
Proof.
  intros Hget Hdis.
  destruct (clientGetRoute_ok _ _ _ _ _ Hget) as (Hfind & -> & Hquiet).
  split; [|done].
  unfold Reconcile. step_with Hget.
  unfold operatorEnabled. rewrite bool_decide_eq_false_2 by done. reflexivity.
Qed.

Lemma C10_witness :
  let st := Ex.store [Ex.disabledDeleting] [Ex.gateway "ns" "g1" ["a.example.com"]] in
  timeIsZero (rtDeletionTimestamp Ex.disabledDeleting) = false
  ∧ ContainsFinalizer Ex.disabledDeleting httprouteFinalizerName = true
  ∧ Reconcile ("ns", "r1") (quiet st) = (Ok tt, quiet st, []).
Proof.
  split; [reflexivity|]. split; [reflexivity|].
  apply (C10_disabled_precedes_deletion ("ns", "r1") _ Ex.disabledDeleting _ []).
  - reflexivity.
  - vm_compute. discriminate.
Defined.

(** ** The conflict validator *)

(** C2. When the gateway exists and the issuer under its cluster-issuer
    annotation differs from the route's, [ensureGateway] logs and returns
    the bad-request error whose message names the cluster issuer and
    carries the gateway's value and the route's; when the issuers agree
    and the zone recorded in the infrastructure annotations of the gateway
    differs from the route's, it logs and returns the bad-request error
    whose message names the IPAM zone and carries both zones.  In either
    case the log line is the only event, so nothing is written: the world
    is the one the read left, with the gateway stored as it was read. *)
Theorem C2_conflict_rejected_without_write
    gatewayName gatewayNamespace ipamZone clusterIssuer w gateway w1 ev :
  clientGetGateway (gatewayNamespace, gatewayName) w = (Ok gateway, w1, ev) →
  let existingIssuer := default "" (gwAnnotations gateway !! "cert-manager.io/cluster-issuer") in
  (existingIssuer ≠ clusterIssuer →
   ensureGateway gatewayName gatewayNamespace ipamZone clusterIssuer w
   = (Err (ErrBadRequest
             ("HTTPRoute cluster issuer mismatch: Gateway has issuer '"
                +:+ existingIssuer +:+ "' but HTTPRoute requires '"
                +:+ clusterIssuer +:+ "'")),
      w1, [EvLogError "Cluster issuer mismatch"]))
  ∧ (existingIssuer = clusterIssuer →
     ∀ infra annotations existingZone,
       gwInfrastructure gateway = Some infra →
       giAnnotations infra = Some annotations →
       annotations !! "ipam.vitistack.io/zone" = Some existingZone →
       existingZone ≠ ipamZone →
       ensureGateway gatewayName gatewayNamespace ipamZone clusterIssuer w
       = (Err (ErrBadRequest
                 ("HTTPRoute IPAM zone mismatch: Gateway has zone '"
                    +:+ existingZone +:+ "' but HTTPRoute requires '"
                    +:+ ipamZone +:+ "'")),
          w1, [EvLogError "IPAM zone mismatch"]))
  ∧ findObj gatewayKey (gatewayNamespace, gatewayName) (stGateways (wStore w1))
    = Some gateway
  ∧ (wScript w = [] → w1 = w).
Proof.
  intros Hget existingIssuer.
  destruct (clientGetGateway_ok _ _ _ _ _ Hget) as (Hfind & -> & Hquiet).
  split; [|split; [|done]].
  - intros Hne. unfold ensureGateway. step_with Hget.
    change (annot (gwAnnotations gateway) clusterIssuerAnnotation) with existingIssuer.
    by rewrite bool_decide_eq_true_2 by done.
  - intros Heq infra annotations existingZone Hinfra Hannot Hzone Hne.
    unfold ensureGateway. step_with Hget.
    change (annot (gwAnnotations gateway) clusterIssuerAnnotation) with existingIssuer.
    rewrite bool_decide_eq_false_2 by (by intros ?).
    unfold recordedZone. rewrite Hinfra, Hannot, Hzone.
    by rewrite bool_decide_eq_true_2 by done.
Qed.

Lemma C2_witness :
  let g := Ex.gateway "ns" "g1" ["a.example.com"] in
  (let st := Ex.store [Ex.otherIssuer] [g] in
   ensureGateway "g1" "ns" "hnet-private" "letsencrypt" (quiet st)
   = (Err (ErrBadRequest
             "HTTPRoute cluster issuer mismatch: Gateway has issuer 'internpki' but HTTPRoute requires 'letsencrypt'"),
      quiet st, [EvLogError "Cluster issuer mismatch"]))
  ∧ (let st := Ex.store [Ex.otherZone] [g] in
     ensureGateway "g1" "ns" "hnet-public" "internpki" (quiet st)
     = (Err (ErrBadRequest
               "HTTPRoute IPAM zone mismatch: Gateway has zone 'hnet-private' but HTTPRoute requires 'hnet-public'"),
        quiet st, [EvLogError "IPAM zone mismatch"])).
Proof.
  intros g. split.
  - intros st.
    apply (C2_conflict_rejected_without_write "g1" "ns" "hnet-private" "letsencrypt"
             (quiet st) g (quiet st) []).
    + reflexivity.
    + vm_compute. discriminate.
  - intros st.
    refine (proj1 (proj2 (C2_conflict_rejected_without_write "g1" "ns" "hnet-public"
                            "internpki" (quiet st) g (quiet st) [] _)) _
              {| giAnnotations := Some {[ "ipam.vitistack.io/zone" := "hnet-private" ]} |}
              {[ "ipam.vitistack.io/zone" := "hnet-private" ]} "hnet-private" _ _ _ _).
    + reflexivity.
    + reflexivity.
    + reflexivity.
    + reflexivity.
    + reflexivity.
    + discriminate.
Defined.

(** C9. The zone check is one-sided and the issuer check is not.  A gateway
    without Infrastructure block, without annotation map in it, or without
    the zone key in that map, whose issuer matches, is handed to
    [updateGatewayListeners] for every zone the route asks for.  A gateway
    without the cluster-issuer annotation reads as issuer "" and is
    rejected, with no write, for every non-empty issuer. *)
Theorem C9_zone_one_sided_issuer_always
    gatewayName gatewayNamespace ipamZone clusterIssuer w gateway w1 ev :
  clientGetGateway (gatewayNamespace, gatewayName) w = (Ok gateway, w1, ev) →
  (gwInfrastructure gateway = None
   ∨ (∃ infra, gwInfrastructure gateway = Some infra ∧ giAnnotations infra = None)
   ∨ (∃ infra annotations, gwInfrastructure gateway = Some infra
        ∧ giAnnotations infra = Some annotations
        ∧ annotations !! "ipam.vitistack.io/zone" = None) →
   annot (gwAnnotations gateway) clusterIssuerAnnotation = clusterIssuer →
   ensureGateway gatewayName gatewayNamespace ipamZone clusterIssuer w
   = updateGatewayListeners gateway gatewayNamespace w1)
  ∧ (gwAnnotations gateway !! clusterIssuerAnnotation = None →
     clusterIssuer ≠ "" →
     ∃ evs,
       ensureGateway gatewayName gatewayNamespace ipamZone clusterIssuer w
       = (Err (issuerMismatch "" clusterIssuer), w1, evs)
       ∧ writes evs = []).
Proof.
  intros Hget.
  destruct (clientGetGateway_ok _ _ _ _ _ Hget) as (Hfind & -> & Hquiet).
  split.
  - intros Hzone Hissuer.
    assert (recordedZone gateway = None) as Hnone.
    { unfold recordedZone.
      destruct Hzone as [->|[(infra & -> & ->)|(infra & a & -> & -> & Ha)]]; done. }
    unfold ensureGateway. step_with Hget.
    rewrite bool_decide_eq_false_2 by (by intros ?). rewrite Hnone.
    by destruct (updateGatewayListeners gateway gatewayNamespace w1) as [[? ?] ?].
  - intros Hmissing Hne.
    unfold ensureGateway. step_with Hget.
    unfold annot. rewrite Hmissing. simpl.
    rewrite bool_decide_eq_true_2 by (by intros ?).
    eexists. split; reflexivity.
Qed.

Lemma C9_witness :
  let g := Ex.bareGateway "ns" "g1" ["a.example.com"] in
  let st := Ex.store [] [g] in
  ensureGateway "g1" "ns" "any-zone" "" (quiet st)
  = updateGatewayListeners g "ns" (quiet st)
  ∧ ∃ evs,
      ensureGateway "g1" "ns" defaultIPAMZone defaultClusterIssuer (quiet st)
      = (Err (issuerMismatch "" defaultClusterIssuer), quiet st, evs)
      ∧ writes evs = [].
Proof.
  intros g st. split.
  - apply (C9_zone_one_sided_issuer_always "g1" "ns" "any-zone" "" (quiet st) g (quiet st) []);
      [reflexivity | by left | reflexivity].
  - apply (C9_zone_one_sided_issuer_always "g1" "ns" defaultIPAMZone defaultClusterIssuer
             (quiet st) g (quiet st) []);
      [reflexivity | reflexivity | vm_compute; discriminate].
Defined.

(** ** Malformed input *)

Lemma cutAtSlash_none (s : string) :
  cutAtSlash s = None ↔ ∀ ns name, s ≠ ns +:+ "/" +:+ name.
Proof.
  induction s as [|ch s IH]; simpl.
  - split; [|done]. intros _ [|? ?] name; simpl; discriminate.
  - case_bool_decide as Hch.
    + subst ch. split; [done|]. intros H. by destruct (H "" s).
    + destruct (cutAtSlash s) as [[ns name]|] eqn:E.
      * split; [done|]. intros H. exfalso.
        destruct IH as [_ IH].
        assert (Some (ns, name) = None) as Habs; [|done].
        apply IH. intros ns' name' ->. by apply (H (String ch ns') name').
      * split; [|done]. intros _ [|c ns] name; simpl.
        -- intros [= -> _]. done.
        -- intros [= _ ->]. destruct IH as [IH _]. by apply (IH eq_refl ns name).
Qed.

Lemma cutAtSlash_append (ns name : string) :
  (∀ a b, ns ≠ a +:+ "/" +:+ b) → cutAtSlash (ns +:+ "/" +:+ name) = Some (ns, name).
Proof.
  induction ns as [|ch ns IH]; simpl; intros Hns.
  - done.
  - case_bool_decide as Hch.
    + subst ch. by destruct (Hns "" ns).
    + rewrite IH; [done|]. intros a b ->. by apply (Hns (String ch a) b).
Qed.

(** C8. Malformed input ends the event with success and without a write.
    (1) When the loaded route has no parent reference, [Reconcile] returns
    success; an enabled route leaves exactly the error log line.
    (2) A previous-gateway reference without a slash, with nothing before
    its first slash, or with nothing after it, makes [updateOldGateway]
    log and return success without calling the store at all.
    (3) When the update of a well-formed old gateway fails, [Reconcile]
    logs the failure and goes on: its result is the result of the rest of
    the reconciliation (finalizer, annotations, new gateway), and the
    error of the old gateway is not returned. *)
Theorem C8_malformed_input_is_logged_not_failed :
  (∀ req w httpRoute w1 ev,
     clientGetRoute req w = (Ok httpRoute, w1, ev) →
     rtParentRefs httpRoute = [] →
     ∃ evs,
       Reconcile req w = (Ok tt, w1, evs) ∧ writes evs = []
       ∧ (operatorEnabled httpRoute = true →
          evs = [EvLogError "HTTPRoute has no parent references"]))
  ∧ (∀ gatewayRef w,
       (∀ ns name, gatewayRef ≠ ns +:+ "/" +:+ name)
       ∨ (∃ name, gatewayRef = "/" +:+ name)
       ∨ (∃ ns, gatewayRef = ns +:+ "/" ∧ ∀ a b, ns ≠ a +:+ "/" +:+ b) →
       updateOldGateway gatewayRef w
       = (Ok tt, w, [EvLogError "Invalid gateway reference format"]))
  ∧ (∀ req w httpRoute parentRef rest w1 ev e w2 ev2,
       clientGetRoute req w = (Ok httpRoute, w1, ev) →
       operatorEnabled httpRoute = true →
       rtParentRefs httpRoute = parentRef :: rest →
       timeIsZero (rtDeletionTimestamp httpRoute) = true →
       let gatewayName := prName parentRef in
       let gatewayNamespace := default (rtNamespace httpRoute) (prNamespace parentRef) in
       let currentGatewayRef := gatewayNamespace +:+ "/" +:+ gatewayName in
       let previousGatewayRef :=
         annot (rtAnnotations httpRoute) previousGatewayAnnotationKey in
       previousGatewayRef ≠ "" →
       previousGatewayRef ≠ currentGatewayRef →
       updateOldGateway previousGatewayRef w1 = (Err e, w2, ev2) →
       Reconcile req w
       = (let '(r, w3, ev3) :=
            reconcileFinalized req httpRoute gatewayName gatewayNamespace
              currentGatewayRef w2 in
          (r, w3, ev2 ++ EvLogError "Failed to update old gateway listeners" :: ev3))).
Proof.
  split; [|split].
  - intros req w httpRoute w1 ev Hget Hrefs.
    destruct (clientGetRoute_ok _ _ _ _ _ Hget) as (_ & -> & _).
    unfold Reconcile. step_with Hget. rewrite Hrefs.
    destruct (operatorEnabled httpRoute); simpl.
    + eexists. split; [reflexivity|]. by split.
    + eexists. split; [reflexivity|]. by split.
  - intros gatewayRef w Hbad. unfold updateOldGateway, parseGatewayRef.
    destruct Hbad as [Hnone|[(name & ->)|(ns & -> & Hns)]].
    + apply cutAtSlash_none in Hnone. by rewrite Hnone.
    + reflexivity.
    + assert (cutAtSlash (ns +:+ "/") = Some (ns, "")) as Hcut
        by apply (cutAtSlash_append ns "" Hns).
      rewrite Hcut. simpl. by rewrite orb_true_r.
  - intros req w httpRoute parentRef rest w1 ev e w2 ev2 Hget Hen Hrefs Hlive
      gatewayName gatewayNamespace currentGatewayRef previousGatewayRef Hprev Hmoved Hold.
    destruct (clientGetRoute_ok _ _ _ _ _ Hget) as (_ & -> & _).
    unfold Reconcile. step_with Hget. rewrite Hen, Hrefs. simpl.
    rewrite Hlive. simpl. unfold reconcileLive.
    fold gatewayName gatewayNamespace currentGatewayRef previousGatewayRef.
    rewrite !bool_decide_eq_true_2 by done. simpl.
    unfold bind at 1. unfold bind at 1. unfold attempt at 1. rewrite Hold.
    run_pure.
    destruct (reconcileFinalized _ _ _ _ _ w2) as [[r w3] ev3].
    by rewrite <- app_assoc.
Qed.

Lemma C8_witness :
  Reconcile ("ns", "r1") (quiet (Ex.store [Ex.orphan] []))
  = (Ok tt, quiet (Ex.store [Ex.orphan] []),
     [EvLogError "HTTPRoute has no parent references"])
  ∧ updateOldGateway "g1" (quiet (Ex.store [] []))
    = (Ok tt, quiet (Ex.store [] []), [EvLogError "Invalid gateway reference format"])
  ∧ updateOldGateway "ns/g1"
      {| wStore := Ex.store [Ex.moved] [Ex.gateway "ns" "g1" ["a.example.com"]];
         wScript := tail Ex.failSecondCall; wMapOrder := [] |}
    = (Err (ErrInternal "etcd unavailable"),
       quiet (Ex.store [Ex.moved] [Ex.gateway "ns" "g1" ["a.example.com"]]), [])
  ∧ Reconcile ("ns", "r1")
      {| wStore := Ex.store [Ex.moved] [Ex.gateway "ns" "g1" ["a.example.com"]];
         wScript := Ex.failSecondCall; wMapOrder := [] |}
    = (let '(r, w3, ev3) :=
         reconcileFinalized ("ns", "r1") Ex.moved "g2" "ns" "ns/g2"
           (quiet (Ex.store [Ex.moved] [Ex.gateway "ns" "g1" ["a.example.com"]])) in
       (r, w3, EvLogError "Failed to update old gateway listeners" :: ev3)).
Proof.
  destruct C8_malformed_input_is_logged_not_failed as (Hparent & Hformat & Hold).
  split; [|split; [|split]].
  - destruct (Hparent ("ns", "r1") (quiet (Ex.store [Ex.orphan] [])) Ex.orphan
                (quiet (Ex.store [Ex.orphan] [])) [] eq_refl eq_refl)
      as (evs & Hrun & _ & Hlog).
    rewrite Hrun. f_equal. by apply Hlog.
  - apply Hformat. left. by apply cutAtSlash_none.
  - reflexivity.
  - set (st := Ex.store [Ex.moved] [Ex.gateway "ns" "g1" ["a.example.com"]]).
    apply (Hold ("ns", "r1") {| wStore := st; wScript := Ex.failSecondCall; wMapOrder := [] |}
               Ex.moved (Ex.ref "g2") []
               {| wStore := st; wScript := tail Ex.failSecondCall; wMapOrder := [] |} []
               (ErrInternal "etcd unavailable") (quiet st) []);
      [ reflexivity | reflexivity | reflexivity | reflexivity
      | vm_compute; discriminate | vm_compute; discriminate | reflexivity ].
Defined.

(** A run in which the read of the old gateway fails ends well: the failure
    is logged, and the new gateway is created. *)
Example old_gateway_failure_is_survived :
  let run :=
    Reconcile ("ns", "r1")
      {| wStore := Ex.store [Ex.moved] [Ex.gateway "ns" "g1" ["a.example.com"]];
         wScript := Ex.failSecondCall; wMapOrder := [] |} in
  run.1.1 = Ok tt
  ∧ head run.2 = Some (EvLogError "Failed to update old gateway listeners")
  ∧ findObj gatewayKey ("ns", "g2") (stGateways (wStore run.1.2))
    = Some (Ex.gateway "ns" "g2" ["a.example.com"]).
Proof. vm_compute. repeat split. Qed.

(** ** The route aggregator *)

Lemma elem_of_addHostnames (h : string) (hs : list string) (s : gset string) :
  h ∈ addHostnames hs s ↔ h ∈ hs ∨ h ∈ s.
Proof.
  unfold addHostnames. revert s. induction hs as [|a hs IH]; intros s; simpl.
  - set_solver.
  - rewrite IH. set_solver.
Qed.

Lemma scanParentRefs_hostnames gatewayName gatewayNamespace rt refs acc :
  hostnameSet (scanParentRefs gatewayName gatewayNamespace rt refs acc)
  = if existsb (parentRefMatches gatewayName gatewayNamespace) refs
    then addHostnames (rtHostnames rt) (hostnameSet acc)
    else hostnameSet acc.
Proof.
  induction refs as [|parentRef refs IH]; simpl; [done|].
  by destruct (parentRefMatches gatewayName gatewayNamespace parentRef).
Qed.

Lemma collectRoute_hostnames gatewayName gatewayNamespace acc rt :
  hostnameSet (collectRoute gatewayName gatewayNamespace acc rt)
  = if contributes gatewayName gatewayNamespace rt
    then addHostnames (rtHostnames rt) (hostnameSet acc)
    else hostnameSet acc.
Proof.
  unfold collectRoute, contributes, activeAndEnabled.
  destruct (timeIsZero (rtDeletionTimestamp rt)); simpl; [|done].
  destruct (operatorEnabled rt); simpl; [|done].
  apply scanParentRefs_hostnames.
Qed.

Lemma elem_of_collected gatewayName gatewayNamespace (items : list HTTPRoute) acc h :
  h ∈ hostnameSet (foldl (collectRoute gatewayName gatewayNamespace) acc items)
  ↔ h ∈ hostnameSet acc
    ∨ ∃ rt, rt ∈ items ∧ contributes gatewayName gatewayNamespace rt = true
            ∧ h ∈ rtHostnames rt.
Proof.
  revert acc. induction items as [|rt items IH]; intros acc; simpl.
  - split; [by left|]. intros [?|(rt & Hin & _)]; [done|]. by apply elem_of_nil in Hin.
  - rewrite IH, collectRoute_hostnames. split.
    + intros [Hacc|(rt' & Hin & Hc & Hh)].
      * destruct (contributes gatewayName gatewayNamespace rt) eqn:E; [|by left].
        apply elem_of_addHostnames in Hacc as [Hh|Hacc]; [|by left].
        right. exists rt. split; [by left|done].
      * right. exists rt'. split; [by right|done].
    + intros [Hacc|(rt' & Hin & Hc & Hh)].
      * left. destruct (contributes gatewayName gatewayNamespace rt); [|done].
        apply elem_of_addHostnames. by right.
      * apply elem_of_cons in Hin as [->|Hin].
        -- left. rewrite Hc. apply elem_of_addHostnames. by left.
        -- right. by exists rt'.
Qed.

(** The hostnames the loop collects, for any list of routes. *)
Lemma elem_of_collectHostnames gatewayName gatewayNamespace (items : list HTTPRoute) h :
  h ∈ hostnameSet (collectHostnames gatewayName gatewayNamespace items)
  ↔ ∃ rt, rt ∈ items ∧ contributes gatewayName gatewayNamespace rt = true
          ∧ h ∈ rtHostnames rt.
Proof.
  unfold collectHostnames. rewrite elem_of_collected. simpl. set_solver.
Qed.

Lemma elem_of_listenersOf gatewayNamespace (s : gset string) l :
  l ∈ listenersOf gatewayNamespace s
  ↔ ∃ h, h ∈ s ∧ l = createHTTPSListener h gatewayNamespace.
Proof.
  unfold listenersOf. rewrite list_elem_of_fmap. split.
  - intros (h & -> & Hh). exists h. by rewrite <- elem_of_elements.
  - intros (h & Hh & ->). exists h. by rewrite elem_of_elements.
Qed.

Lemma listenersOf_names gatewayNamespace (s : gset string) :
  lsName <$> listenersOf gatewayNamespace s = elements s.
Proof.
  unfold listenersOf. rewrite <- list_fmap_compose.
  induction (elements s) as [|h hs IH]; simpl; [done|]. by f_equal.
Qed.

Lemma listenersOf_nil gatewayNamespace (s : gset string) :
  listenersOf gatewayNamespace s = [] ↔ s = ∅.
Proof.
  unfold listenersOf. split.
  - intros H. apply fmap_nil_inv in H. by apply elements_empty_inv, leibniz_equiv in H.
  - intros ->. by rewrite elements_empty.
Qed.

(** The test of the loop on one parent reference, against the effective
    reference of [Reconcile]: they agree but for a reference without
    namespace of a route outside the gateway's namespace. *)
Lemma parentRefMatches_effective gatewayName gatewayNamespace rt parentRef :
  parentRefMatches gatewayName gatewayNamespace parentRef = true
  ↔ effectiveGateway rt parentRef = (gatewayNamespace, gatewayName)
    ∨ (prName parentRef = gatewayName ∧ prNamespace parentRef = None
       ∧ rtNamespace rt ≠ gatewayNamespace).
Proof.
  unfold parentRefMatches, effectiveGateway.
  destruct (prNamespace parentRef) as [ns|]; simpl;
    rewrite andb_true_iff, !bool_decide_eq_true; split.
  - intros [-> ->]. by left.
  - intros [[= -> ->]|(_ & ? & _)]; done.
  - intros [-> _].
    destruct (decide (rtNamespace rt = gatewayNamespace)) as [->|Hne]; [by left|by right].
  - intros [[= _ ->]|(-> & _ & _)]; done.
Qed.

Lemma contributes_true gatewayName gatewayNamespace rt :
  contributes gatewayName gatewayNamespace rt = true
  ↔ timeIsZero (rtDeletionTimestamp rt) = true
    ∧ annot (rtAnnotations rt) AnnotationUseHttprouteOperator = "true"
    ∧ ∃ parentRef, parentRef ∈ rtParentRefs rt
        ∧ parentRefMatches gatewayName gatewayNamespace parentRef = true.
Proof.
  unfold contributes, activeAndEnabled, operatorEnabled.
  rewrite !andb_true_iff, bool_decide_eq_true, existsb_exists.
  split.
  - intros [[Hz He] (p & Hp & Hm)]. split; [done|]. split; [done|].
    exists p. split; [by apply list_elem_of_In|done].
  - intros (Hz & He & p & Hp & Hm). split; [done|].
    exists p. split; [by apply list_elem_of_In|done].
Qed.

Lemma elem_of_hostnameUnion (refers : HTTPRoute → bool) (items : list HTTPRoute) h :
  h ∈ hostnameUnion refers items
  ↔ ∃ rt, rt ∈ items ∧ activeAndEnabled rt = true ∧ refers rt = true
          ∧ h ∈ rtHostnames rt.
Proof.
  unfold hostnameUnion. rewrite elem_of_list_to_set, list_elem_of_join. split.
  - intros (hs & Hh & Hhs). apply list_elem_of_fmap in Hhs as (rt & -> & Hrt).
    apply list_elem_of_filter in Hrt as [Hq Hrt].
    apply andb_True in Hq as [Ha Hr]. apply Is_true_true in Ha, Hr.
    by exists rt.
  - intros (rt & Hrt & Ha & Hr & Hh). exists (rtHostnames rt). split; [done|].
    apply list_elem_of_fmap. exists rt. split; [done|].
    apply list_elem_of_filter. split; [|done]. by rewrite Ha, Hr.
Qed.

Lemma refersAnywhere_true gatewayName gatewayNamespace rt :
  refersAnywhere gatewayName gatewayNamespace rt = true
  ↔ ∃ parentRef, parentRef ∈ rtParentRefs rt
      ∧ effectiveGateway rt parentRef = (gatewayNamespace, gatewayName).
Proof.
  unfold refersAnywhere. rewrite existsb_exists. split.
  - intros (p & Hp & Hb). exists p. split; [by apply list_elem_of_In|].
    by apply bool_decide_eq_true in Hb.
  - intros (p & Hp & Hb). exists p. split; [by apply list_elem_of_In|].
    by apply bool_decide_eq_true.
Qed.

(** The listeners of the aggregation, for any list of routes: one per
    hostname the loop collected, with distinct names. *)
Lemma collectListeners_exact gatewayName gatewayNamespace (items : list HTTPRoute) :
  NoDup (lsName <$> collectListeners gatewayName gatewayNamespace items)
  ∧ ∀ l, l ∈ collectListeners gatewayName gatewayNamespace items
         ↔ ∃ rt h, rt ∈ items ∧ contributes gatewayName gatewayNamespace rt = true
                   ∧ h ∈ rtHostnames rt
                   ∧ l = createHTTPSListener h gatewayNamespace.
Proof.
  unfold collectListeners. split.
  - rewrite listenersOf_names. apply NoDup_elements.
  - intros l. rewrite elem_of_listenersOf. split.
    + intros (h & Hh & ->). apply elem_of_collectHostnames in Hh as (rt & ? & ? & ?).
      by exists rt, h.
    + intros (rt & h & ? & ? & ? & ->). exists h. split; [|done].
      apply elem_of_collectHostnames. by exists rt.
Qed.

(** What the aggregation returns once the routes are listed: the listeners
    in the order of this iteration. *)
Lemma collectListenersForGateway_listed gatewayName gatewayNamespace w items w1 ev :
  clientListRoutes w = (Ok items, w1, ev) →
  collectListenersForGateway gatewayName gatewayNamespace w
  = (Ok (rangeOver (hd [] (wMapOrder w))
           (collectListeners gatewayName gatewayNamespace items)),
     {| wStore := wStore w1; wScript := wScript w1; wMapOrder := tl (wMapOrder w) |},
     ev).
Proof.
  intros Hl. pose proof (call_events _ _ _ _ _ _ Hl) as ->.
  pose proof (call_map_order _ _ _ _ _ _ Hl) as Ho.
  unfold collectListenersForGateway. step_with Hl.
  unfold bind, nextMapOrder, ret. by rewrite Ho.
Qed.

(** C1, as the code has it.  When the list of routes is read, the
    aggregation for gateway G returns listeners with pairwise distinct
    names, all HTTPS on port 443, in the order of a map iteration.  For
    every list: (a) each hostname of a route that is not being deleted,
    carries the enabled annotation "true" and names G in some parent
    reference, at any position (the effective namespace of a reference
    being the route's own when it gives none), has its listener returned;
    (b) every listener returned is the listener of a hostname of such a
    route, or of one that names G's name by a reference without namespace
    from outside G's namespace, the case left open here.  (c) For lists
    without a route of that last kind, a listener is returned exactly when
    (a) applies. *)
Theorem C1_listeners_are_union_over_all_parent_refs
    gatewayName gatewayNamespace w items w1 ev :
  clientListRoutes w = (Ok items, w1, ev) →
  ∃ listeners w2,
    collectListenersForGateway gatewayName gatewayNamespace w = (Ok listeners, w2, ev)
    ∧ wStore w2 = wStore w1 ∧ wScript w2 = wScript w1
    ∧ NoDup (lsName <$> listeners)
    ∧ (∀ l, l ∈ listeners → lsProtocol l = HTTPSProtocolType ∧ lsPort l = 443%Z)
    ∧ (∀ rt h parentRef,
         rt ∈ items →
         timeIsZero (rtDeletionTimestamp rt) = true →
         annot (rtAnnotations rt) AnnotationUseHttprouteOperator = "true" →
         parentRef ∈ rtParentRefs rt →
         effectiveGateway rt parentRef = (gatewayNamespace, gatewayName) →
         h ∈ rtHostnames rt →
         createHTTPSListener h gatewayNamespace ∈ listeners)
    ∧ (∀ l, l ∈ listeners →
         ∃ rt h parentRef,
           rt ∈ items
           ∧ timeIsZero (rtDeletionTimestamp rt) = true
           ∧ annot (rtAnnotations rt) AnnotationUseHttprouteOperator = "true"
           ∧ parentRef ∈ rtParentRefs rt
           ∧ (effectiveGateway rt parentRef = (gatewayNamespace, gatewayName)
              ∨ (prName parentRef = gatewayName ∧ prNamespace parentRef = None
                 ∧ rtNamespace rt ≠ gatewayNamespace))
           ∧ h ∈ rtHostnames rt
           ∧ l = createHTTPSListener h gatewayNamespace)
    ∧ (bareRefsAreLocal gatewayName gatewayNamespace items →
       ∀ l, l ∈ listeners
          ↔ ∃ rt h,
              rt ∈ items
              ∧ timeIsZero (rtDeletionTimestamp rt) = true
              ∧ annot (rtAnnotations rt) AnnotationUseHttprouteOperator = "true"
              ∧ (∃ parentRef, parentRef ∈ rtParentRefs rt
                   ∧ effectiveGateway rt parentRef = (gatewayNamespace, gatewayName))
              ∧ h ∈ rtHostnames rt
              ∧ l = createHTTPSListener h gatewayNamespace).
Proof.
  intros Hlist.
  set (aggregated := collectListeners gatewayName gatewayNamespace items).
  destruct (collectListeners_exact gatewayName gatewayNamespace items) as [Hnodup Hiff].
  fold aggregated in Hnodup, Hiff.
  assert (∀ rt h parentRef,
            rt ∈ items →
            timeIsZero (rtDeletionTimestamp rt) = true →
            annot (rtAnnotations rt) AnnotationUseHttprouteOperator = "true" →
            parentRef ∈ rtParentRefs rt →
            effectiveGateway rt parentRef = (gatewayNamespace, gatewayName) →
            h ∈ rtHostnames rt →
            createHTTPSListener h gatewayNamespace ∈ aggregated) as Hin.
  { intros rt h parentRef Hrt Hz He Hp Heff Hh. apply Hiff. exists rt, h.
    split; [done|]. split; [|done].
    apply contributes_true. split; [done|]. split; [done|].
    exists parentRef. split; [done|].
    apply (parentRefMatches_effective _ _ rt). by left. }
  assert (∀ l, l ∈ aggregated →
            ∃ rt h parentRef,
              rt ∈ items
              ∧ timeIsZero (rtDeletionTimestamp rt) = true
              ∧ annot (rtAnnotations rt) AnnotationUseHttprouteOperator = "true"
              ∧ parentRef ∈ rtParentRefs rt
              ∧ (effectiveGateway rt parentRef = (gatewayNamespace, gatewayName)
                 ∨ (prName parentRef = gatewayName ∧ prNamespace parentRef = None
                    ∧ rtNamespace rt ≠ gatewayNamespace))
              ∧ h ∈ rtHostnames rt
              ∧ l = createHTTPSListener h gatewayNamespace) as Hout.
  { intros l Hl. apply Hiff in Hl as (rt & h & Hrt & Hc & Hh & ->).
    apply contributes_true in Hc as (Hz & He & parentRef & Hp & Hm).
    apply (parentRefMatches_effective _ _ rt) in Hm.
    by exists rt, h, parentRef. }
  eexists _, _. split; [exact (collectListenersForGateway_listed _ _ _ _ _ _ Hlist)|].
  fold aggregated. cbn [wStore wScript].
  split; [reflexivity|]. split; [reflexivity|]. split; [|split; [|split; [|split]]].
  - by rewrite rangeOver_Permutation.
  - intros l Hl. apply elem_of_rangeOver, Hout in Hl as (rt & h & p & _ & _ & _ & _ & _ & _ & ->).
    done.
  - intros rt h parentRef Hrt Hz He Hp Heff Hh.
    apply elem_of_rangeOver. by apply (Hin rt h parentRef).
  - intros l Hl. by apply elem_of_rangeOver, Hout in Hl.
  - intros Hloc l. rewrite elem_of_rangeOver. split.
    + intros Hl. apply Hout in Hl as (rt & h & p & Hrt & Hz & He & Hp & Heff & Hh & ->).
      exists rt, h. split; [done|]. split; [done|]. split; [done|].
      split; [|done]. exists p. split; [done|].
      destruct Heff as [Heff|(Hname & Hnone & Hne)]; [done|].
      by destruct (Hne (Hloc rt p Hrt Hz He Hp Hname Hnone)).
    + intros (rt & h & Hrt & Hz & He & (p & Hp & Heff) & Hh & ->).
      by apply (Hin rt h p).
Qed.

Lemma C1_witness :
  let items := [Ex.first; Ex.secondParent; Ex.crossNamespace; Ex.elsewhere] in
  let w := calm (Ex.store items []) [[2; 1]] in
  ∃ listeners w2,
    collectListenersForGateway "g1" "ns" w = (Ok listeners, w2, [])
    ∧ NoDup (lsName <$> listeners)
    ∧ createHTTPSListener "c.example.com" "ns" ∈ listeners
    ∧ createHTTPSListener "d.example.com" "ns" ∈ listeners
    ∧ ∀ l, l ∈ listeners →
        ∃ rt h,
          rt ∈ items
          ∧ (∃ parentRef, parentRef ∈ rtParentRefs rt
               ∧ effectiveGateway rt parentRef = ("ns", "g1"))
          ∧ l = createHTTPSListener h "ns".
Proof.
  intros items w.
  assert (bareRefsAreLocal "g1" "ns" items) as Hloc.
  { intros rt parentRef Hrt _ _ Hp Hname Hnone.
    apply elem_of_cons in Hrt as [->|Hrt]; [reflexivity|].
    apply elem_of_cons in Hrt as [->|Hrt]; [reflexivity|].
    apply elem_of_cons in Hrt as [->|Hrt].
    { apply list_elem_of_singleton in Hp as ->. discriminate Hnone. }
    apply elem_of_cons in Hrt as [->|Hrt].
    - apply list_elem_of_singleton in Hp as ->. discriminate Hname.
    - exfalso. exact (proj1 (elem_of_nil _) Hrt). }
  destruct (C1_listeners_are_union_over_all_parent_refs "g1" "ns" w items w [])
    as (listeners & w2 & Hrun & _ & _ & Hnodup & _ & Hin & _ & Hexact);
    [reflexivity|].
  exists listeners, w2. split; [exact Hrun|].
  split; [exact Hnodup|]. split; [|split].
  - apply (Hin Ex.secondParent "c.example.com" (Ex.ref "g1")).
    + by right; left.
    + reflexivity.
    + reflexivity.
    + by right; left.
    + reflexivity.
    + by left.
  - apply (Hin Ex.crossNamespace "d.example.com" (Ex.refIn "ns" "g1")).
    + by right; right; left.
    + reflexivity.
    + reflexivity.
    + by left.
    + reflexivity.
    + by left.
  - intros l Hl.
    apply (Hexact Hloc) in Hl as (rt & h & Hrt & _ & _ & Href & _ & ->).
    exists rt, h. split; [exact Hrt|]. split; [exact Href|reflexivity].
Defined.

(** C1 as the specification words it fails: a route whose second
    parent reference names the gateway contributes its hostname, while the
    union over the routes whose first reference names it is empty. *)
Lemma C1_counterexample :
  collectListenersForGateway "g1" "ns" (quiet (Ex.store [Ex.secondParent] []))
  = (Ok [createHTTPSListener "c.example.com" "ns"],
     quiet (Ex.store [Ex.secondParent] []), [])
  ∧ refersFirst "g1" "ns" Ex.secondParent = false
  ∧ hostnameUnion (refersFirst "g1" "ns") [Ex.secondParent] = ∅.
Proof. vm_compute. repeat split. Qed.

(** C6 at its failing input.  [Reconcile] reads the parent reference of a
    route of namespace team-a that gives no namespace as gateway
    team-a/g1, but the aggregation for gateway team-b/g1 counts the same
    route: inside the loop the missing namespace is filled with the
    namespace of the gateway collected for, not with the route's own. *)
Lemma C6_aggregation_defaults_to_gateway_namespace :
  effectiveGateway Ex.teamA (Ex.ref "g1") = ("team-a", "g1")
  ∧ refersAnywhere "g1" "team-b" Ex.teamA = false
  ∧ collectListenersForGateway "g1" "team-b" (quiet (Ex.store [Ex.teamA] []))
    = (Ok [createHTTPSListener "a.example.com" "team-b"],
       quiet (Ex.store [Ex.teamA] []), []).
Proof. vm_compute. repeat split. Qed.

(** ** Deleting instead of patching to empty *)

Lemma bind_inv {A B : Type} (m : M A) (f : A → M B) w r w2 evs :
  bind m f w = (r, w2, evs) →
  (∃ a w1 ev1 ev2, m w = (Ok a, w1, ev1) ∧ f a w1 = (r, w2, ev2) ∧ evs = ev1 ++ ev2)
  ∨ (∃ e, m w = (Err e, w2, evs) ∧ r = Err e).
Proof.
  unfold bind. destruct (m w) as [[[a|e] w1] ev1].
  - destruct (f a w1) as [[r' w2'] ev2] eqn:E. intros [= <- <- <-].
    left. by exists a, w1, ev1, ev2.
  - intros [= <- <- <-]. right. by exists e.
Qed.

Lemma clientListRoutes_inv w r w1 ev :
  clientListRoutes w = (r, w1, ev) →
  ev = [] ∧ (wScript w = [] → w1 = w ∧ r = Ok (stRoutes (wStore w))).
Proof.
  intros H. split; [by apply call_events in H|].
  intros Hs. unfold clientListRoutes in H.
  pose proof (call_map_order _ _ _ _ _ _ H) as Ho.
  apply call_no_script in H as [[= -> Hst] Hsc]; [|done].
  split; [|done]. destruct w, w1; simpl in *. by subst.
Qed.

Lemma collectListenersForGateway_inv gatewayName gatewayNamespace w r w1 ev :
  collectListenersForGateway gatewayName gatewayNamespace w = (r, w1, ev) →
  ev = []
  ∧ (wScript w = [] →
     wScript w1 = [] ∧ wStore w1 = wStore w
     ∧ r = Ok (rangeOver (hd [] (wMapOrder w))
                 (collectListeners gatewayName gatewayNamespace (stRoutes (wStore w))))).
Proof.
  intros H.
  destruct (clientListRoutes w) as [[[items|e] w'] ev'] eqn:Hl.
  - rewrite (collectListenersForGateway_listed _ _ _ _ _ _ Hl) in H.
    injection H as <- <- <-.
    apply clientListRoutes_inv in Hl as [-> Hq]. split; [done|].
    intros Hs. destruct (Hq Hs) as [-> [= ->]]. done.
  - unfold collectListenersForGateway in H. rewrite (bind_err _ _ _ _ _ _ Hl) in H.
    injection H as <- <- <-.
    apply clientListRoutes_inv in Hl as [-> Hq]. split; [done|].
    intros Hs. by destruct (Hq Hs) as [_ ?].
Qed.

Lemma collectListenersForGateway_calm gatewayName gatewayNamespace st orders :
  collectListenersForGateway gatewayName gatewayNamespace (calm st orders)
  = (Ok (rangeOver (hd [] orders)
           (collectListeners gatewayName gatewayNamespace (stRoutes st))),
     calm st (tl orders), []).
Proof.
  rewrite (collectListenersForGateway_listed _ _ _ (stRoutes st) (calm st orders) []).
  - by destruct st.
  - unfold clientListRoutes. rewrite call_calm. by destruct st.
Qed.

Lemma collectListenersForGateway_quiet gatewayName gatewayNamespace st :
  collectListenersForGateway gatewayName gatewayNamespace (quiet st)
  = (Ok (collectListeners gatewayName gatewayNamespace (stRoutes st)), quiet st, []).
Proof. apply (collectListenersForGateway_calm _ _ st []). Qed.

Lemma clientDeleteGateway_gone gateway w :
  ∃ r w1,
    clientDeleteGateway gateway w = (r, w1, [EvDeleteGateway gateway])
    ∧ (wScript w = [] →
       findObj gatewayKey (gatewayKey gateway) (stGateways (wStore w1)) = None).
Proof.
  destruct (clientDeleteGateway gateway w) as [[r w1] ev] eqn:E.
  exists r, w1. pose proof (call_events _ _ _ _ _ _ E) as ->. split; [done|].
  intros Hs. unfold clientDeleteGateway in E.
  apply call_no_script in E as [E _]; [|done].
  destruct (findObj gatewayKey (gatewayKey gateway) (stGateways (wStore w))) eqn:F.
  - injection E as _ ->. simpl. apply findObj_removeObj.
  - injection E as _ ->. done.
Qed.

(** The two places that write listeners to an existing gateway never apply
    an empty list. *)
Lemma syncListeners_events gateway gatewayName gatewayNamespace listeners w r w1 evs :
  (if Nat.eqb (length listeners) 0 then clientDeleteGateway gateway
   else clientApplyGateway
          (listenersPatch gatewayName gatewayNamespace (gwClassName gateway) listeners)) w
  = (r, w1, evs) →
  (listeners = [] ∧ evs = [EvDeleteGateway gateway])
  ∨ (listeners ≠ []
     ∧ evs = [EvApplyGateway
                (listenersPatch gatewayName gatewayNamespace (gwClassName gateway)
                   listeners)]).
Proof.
  destruct listeners as [|l ls]; simpl; intros H.
  - left. split; [done|]. by apply call_events in H.
  - right. split; [done|]. by apply call_events in H.
Qed.

Lemma updateGatewayListeners_events gateway gatewayNamespace w r w2 evs :
  updateGatewayListeners gateway gatewayNamespace w = (r, w2, evs) →
  evs = [] ∨ evs = [EvDeleteGateway gateway]
  ∨ ∃ listeners,
      listeners ≠ []
      ∧ evs = [EvApplyGateway
                 (listenersPatch (gwName gateway) gatewayNamespace (gwClassName gateway)
                    listeners)].
Proof.
  unfold updateGatewayListeners. intros H.
  apply bind_inv in H as [(ls & w1 & ev1 & ev2 & Hc & Hs & ->)|(e & Hc & ->)].
  - apply collectListenersForGateway_inv in Hc as [-> _]. simpl.
    apply syncListeners_events in Hs as [[_ ->]|[Hne ->]]; [by right; left|].
    right; right. by exists ls.
  - apply collectListenersForGateway_inv in Hc as [-> _]. by left.
Qed.

Lemma updateOldGateway_events gatewayRef w r w2 evs :
  updateOldGateway gatewayRef w = (r, w2, evs) →
  evs = [EvLogError "Invalid gateway reference format"]
  ∨ evs = []
  ∨ (∃ gateway, evs = [EvDeleteGateway gateway])
  ∨ ∃ patch, gwListeners patch ≠ []
             ∧ gatewayKey patch = parseGatewayRef gatewayRef
             ∧ evs = [EvApplyGateway patch].
Proof.
  unfold updateOldGateway.
  destruct (parseGatewayRef gatewayRef) as [gatewayNamespace gatewayName].
  destruct (_ || _).
  - intros [= _ _ <-]. by left.
  - intros H. right.
    apply bind_inv in H as [(rg & w1 & ev1 & ev2 & Hg & Hk & ->)|(e & Hg & ->)].
    2: { unfold attempt in Hg. by destruct (clientGetGateway _ w) as [[? ?] ?]. }
    assert (ev1 = []) as ->.
    { unfold attempt in Hg. destruct (clientGetGateway _ w) as [[? ?] ?] eqn:E.
      injection Hg as _ _ <-. by apply call_events in E. }
    simpl. destruct rg as [gateway|e].
    + apply bind_inv in Hk as [(ls & w1' & ev1 & ev3 & Hc & Hs & ->)|(e & Hc & ->)].
      * apply collectListenersForGateway_inv in Hc as [-> _]. simpl.
        apply syncListeners_events in Hs as [[_ ->]|[Hne ->]].
        -- right; left. by exists gateway.
        -- right; right.
           by exists (listenersPatch gatewayName gatewayNamespace (gwClassName gateway) ls).
      * apply collectListenersForGateway_inv in Hc as [-> _]. by left.
    + destruct (IsNotFound e); injection Hk as _ _ <-; by left.
Qed.

(** C3. Both places that synchronise an existing gateway delete it when
    the aggregation is empty, and neither ever applies an empty listener
    list.  (1) and (3): when the aggregation returns no listener,
    [updateGatewayListeners] and [updateOldGateway] issue exactly one
    write, the delete of the gateway that was read; in a quiet world no
    gateway is stored under its key afterwards.  (2) and (4): in every
    world, every listener patch either of them applies carries at least
    one listener. *)
Theorem C3_empty_aggregation_deletes_gateway :
  (∀ gateway gatewayNamespace w w1 ev,
     collectListenersForGateway (gwName gateway) gatewayNamespace w = (Ok [], w1, ev) →
     ∃ r w2,
       updateGatewayListeners gateway gatewayNamespace w
       = (r, w2, [EvDeleteGateway gateway])
       ∧ (wScript w = [] →
          findObj gatewayKey (gatewayKey gateway) (stGateways (wStore w2)) = None))
  ∧ (∀ gateway gatewayNamespace w r w2 evs patch,
       updateGatewayListeners gateway gatewayNamespace w = (r, w2, evs) →
       EvApplyGateway patch ∈ evs → gwListeners patch ≠ [])
  ∧ (∀ gatewayRef gatewayNamespace gatewayName w gateway w1 ev1 w2 ev2,
       parseGatewayRef gatewayRef = (gatewayNamespace, gatewayName) →
       gatewayNamespace ≠ "" → gatewayName ≠ "" →
       clientGetGateway (gatewayNamespace, gatewayName) w = (Ok gateway, w1, ev1) →
       collectListenersForGateway gatewayName gatewayNamespace w1 = (Ok [], w2, ev2) →
       ∃ r w3,
         updateOldGateway gatewayRef w = (r, w3, [EvDeleteGateway gateway])
         ∧ (wScript w = [] →
            findObj gatewayKey (gatewayNamespace, gatewayName) (stGateways (wStore w3))
            = None))
  ∧ (∀ gatewayRef w r w2 evs patch,
       updateOldGateway gatewayRef w = (r, w2, evs) →
       EvApplyGateway patch ∈ evs → gwListeners patch ≠ []).
Proof.
  split; [|split; [|split]].
  - intros gateway gatewayNamespace w w1 ev Hc.
    destruct (collectListenersForGateway_inv _ _ _ _ _ _ Hc) as [-> Hq].
    destruct (clientDeleteGateway_gone gateway w1) as (r & w2 & Hd & Hgone).
    exists r, w2. split.
    + unfold updateGatewayListeners. step_with Hc. simpl. by rewrite Hd.
    + intros Hs. destruct (Hq Hs) as (Hs1 & _ & _). by apply Hgone.
  - intros gateway gatewayNamespace w r w2 evs patch Hrun Hin.
    apply updateGatewayListeners_events in Hrun as [->|[->|(ls & Hne & ->)]].
    + by apply elem_of_nil in Hin.
    + apply list_elem_of_singleton in Hin. discriminate.
    + apply list_elem_of_singleton in Hin. by injection Hin as ->.
  - intros gatewayRef gatewayNamespace gatewayName w gateway w1 ev1 w2 ev2
      Hparse Hns Hname Hget Hc.
    destruct (clientGetGateway_ok _ _ _ _ _ Hget) as (Hfind & -> & Hq1).
    destruct (collectListenersForGateway_inv _ _ _ _ _ _ Hc) as [-> Hq2].
    destruct (clientDeleteGateway_gone gateway w2) as (r & w3 & Hd & Hgone).
    exists r, w3. split.
    + unfold updateOldGateway. rewrite Hparse.
      rewrite !bool_decide_eq_false_2 by done. simpl.
      step_with Hget. step_with Hc. simpl. by rewrite Hd.
    + intros Hs. specialize (Hq1 Hs). subst w1. destruct (Hq2 Hs) as (Hs2 & _ & _).
      apply findObj_key in Hfind. rewrite <- Hfind. by apply Hgone.
  - intros gatewayRef w r w2 evs patch Hrun Hin.
    apply updateOldGateway_events in Hrun
      as [->|[->|[(g & ->)|(p & Hne & _ & ->)]]].
    + apply list_elem_of_singleton in Hin. discriminate.
    + by apply elem_of_nil in Hin.
    + apply list_elem_of_singleton in Hin. discriminate.
    + apply list_elem_of_singleton in Hin. by injection Hin as ->.
Qed.

Lemma C3_witness :
  let g1 := Ex.gateway "ns" "g1" ["b.example.com"] in
  (∃ r w2,
     updateGatewayListeners g1 "ns" (quiet (Ex.store [Ex.leaving] [g1]))
     = (r, w2, [EvDeleteGateway g1])
     ∧ findObj gatewayKey ("ns", "g1") (stGateways (wStore w2)) = None)
  ∧ (∃ r w3,
       updateOldGateway "ns/g1" (quiet (Ex.store [Ex.moved] [g1]))
       = (r, w3, [EvDeleteGateway g1])
       ∧ findObj gatewayKey ("ns", "g1") (stGateways (wStore w3)) = None)
  ∧ gwListeners (listenersPatch "g1" "ns" gatewayClassName
                   (collectListeners "g1" "ns" [Ex.first])) ≠ [].
Proof.
  intros g1.
  destruct C3_empty_aggregation_deletes_gateway as (Hsync & Hpatch & Hold & _).
  split; [|split].
  - destruct (Hsync g1 "ns" (quiet (Ex.store [Ex.leaving] [g1]))
                (quiet (Ex.store [Ex.leaving] [g1])) [] eq_refl)
      as (r & w2 & Hrun & Hgone).
    exists r, w2. split; [exact Hrun|]. by apply Hgone.
  - destruct (Hold "ns/g1" "ns" "g1" (quiet (Ex.store [Ex.moved] [g1])) g1
                (quiet (Ex.store [Ex.moved] [g1])) []
                (quiet (Ex.store [Ex.moved] [g1])) [])
      as (r & w3 & Hrun & Hgone);
      [reflexivity | discriminate | discriminate | reflexivity | reflexivity |].
    exists r, w3. split; [exact Hrun|]. by apply Hgone.
  - apply (Hpatch g1 "ns" (quiet (Ex.store [Ex.first] [g1])) (Ok tt)
             (quiet (Ex.store [Ex.first]
                       [Ex.gateway "ns" "g1" ["a.example.com"; "b.example.com"]]))
             [EvApplyGateway (listenersPatch "g1" "ns" gatewayClassName
                                (collectListeners "g1" "ns" [Ex.first]))]);
      [vm_compute; reflexivity | by left].
Defined.

(** ** Runs in a quiet world *)

Lemma clientApplyGateway_quiet patch st :
  clientApplyGateway patch (quiet st)
  = (Ok tt, quiet (afterApply patch st), [EvApplyGateway patch]).
Proof. reflexivity. Qed.

Lemma clientDeleteGateway_quiet gateway st g :
  findObj gatewayKey (gatewayKey gateway) (stGateways st) = Some g →
  clientDeleteGateway gateway (quiet st)
  = (Ok tt,
     quiet {| stRoutes := stRoutes st;
              stGateways := removeObj gatewayKey (gatewayKey gateway) (stGateways st) |},
     [EvDeleteGateway gateway]).
Proof. intros H. unfold clientDeleteGateway. rewrite call_quiet. by rewrite H. Qed.

Lemma clientCreateGateway_quiet gateway st :
  findObj gatewayKey (gatewayKey gateway) (stGateways st) = None →
  clientCreateGateway gateway (quiet st)
  = (Ok tt,
     quiet {| stRoutes := stRoutes st;
              stGateways := putObj gatewayKey gateway (stGateways st) |},
     [EvCreateGateway gateway]).
Proof. intros H. unfold clientCreateGateway. rewrite call_quiet. by rewrite H. Qed.

Lemma clientApplyRoute_quiet patch st :
  clientApplyRoute patch (quiet st)
  = (Ok tt,
     quiet {| stRoutes := applyRouteTo patch (stRoutes st); stGateways := stGateways st |},
     [EvApplyRoute patch]).
Proof. reflexivity. Qed.

Lemma clientApplyGateway_calm patch st orders :
  clientApplyGateway patch (calm st orders)
  = (Ok tt, calm (afterApply patch st) orders, [EvApplyGateway patch]).
Proof. reflexivity. Qed.

Lemma clientDeleteGateway_calm gateway st orders g :
  findObj gatewayKey (gatewayKey gateway) (stGateways st) = Some g →
  clientDeleteGateway gateway (calm st orders)
  = (Ok tt,
     calm {| stRoutes := stRoutes st;
             stGateways := removeObj gatewayKey (gatewayKey gateway) (stGateways st) |}
       orders,
     [EvDeleteGateway gateway]).
Proof. intros H. unfold clientDeleteGateway. rewrite call_calm. by rewrite H. Qed.

Lemma clientCreateGateway_calm gateway st orders :
  findObj gatewayKey (gatewayKey gateway) (stGateways st) = None →
  clientCreateGateway gateway (calm st orders)
  = (Ok tt,
     calm {| stRoutes := stRoutes st;
             stGateways := putObj gatewayKey gateway (stGateways st) |} orders,
     [EvCreateGateway gateway]).
Proof. intros H. unfold clientCreateGateway. rewrite call_calm. by rewrite H. Qed.

Lemma clientApplyRoute_calm patch st orders :
  clientApplyRoute patch (calm st orders)
  = (Ok tt,
     calm {| stRoutes := applyRouteTo patch (stRoutes st); stGateways := stGateways st |}
       orders,
     [EvApplyRoute patch]).
Proof. reflexivity. Qed.

(** A synchronisation in a calm world: the listeners are applied in the
    order of this iteration. *)
Lemma updateGatewayListeners_calm gateway gatewayNamespace st orders :
  collectListeners (gwName gateway) gatewayNamespace (stRoutes st) ≠ [] →
  updateGatewayListeners gateway gatewayNamespace (calm st orders)
  = (let patch :=
       listenersPatch (gwName gateway) gatewayNamespace (gwClassName gateway)
         (rangeOver (hd [] orders)
            (collectListeners (gwName gateway) gatewayNamespace (stRoutes st))) in
     (Ok tt, calm (afterApply patch st) (tl orders), [EvApplyGateway patch])).
Proof.
  intros Hne. unfold updateGatewayListeners.
  erewrite bind_ok by apply collectListenersForGateway_calm.
  destruct (rangeOver _ _) as [|l ls] eqn:E; [by apply rangeOver_nil in E|].
  reflexivity.
Qed.


Lemma syncedAnnotations_settled (annotations : gmap string string) currentGatewayRef :
  is_Some (annotations !! reconcileAnnotationKey) →
  annot annotations previousGatewayAnnotationKey = currentGatewayRef →
  syncedAnnotations annotations currentGatewayRef = (annotations, false).
Proof.
  intros [v Hv] Hprev. unfold syncedAnnotations. rewrite Hv.
  by rewrite bool_decide_eq_false_2 by (by intros ?).
Qed.

Lemma findObj_applyGatewayTo patch (gs : list Gateway) g :
  findObj gatewayKey (gatewayKey patch) gs = Some g →
  findObj gatewayKey (gatewayKey patch) (applyGatewayTo patch gs)
  = Some (applied patch g).
Proof.
  intros E. unfold applyGatewayTo. rewrite E.
  rewrite <- (findObj_key _ _ _ _ E).
  change (gatewayKey g) with (gatewayKey (applied patch g)). apply findObj_putObj.
Qed.

Lemma findObj_applyGatewayTo_ne patch (gs : list Gateway) k :
  gatewayKey patch ≠ k →
  findObj gatewayKey k (applyGatewayTo patch gs) = findObj gatewayKey k gs.
Proof.
  intros Hne. unfold applyGatewayTo.
  destruct (findObj gatewayKey (gatewayKey patch) gs) as [g|] eqn:E.
  - apply findObj_putObj_ne.
    change (gatewayKey (applied patch g)) with (gatewayKey g).
    by rewrite (findObj_key _ _ _ _ E).
  - by apply findObj_putObj_ne.
Qed.

Lemma applyGatewayTo_idem patch (gs : list Gateway) :
  applyGatewayTo patch (applyGatewayTo patch gs) = applyGatewayTo patch gs.
Proof.
  destruct (findObj gatewayKey (gatewayKey patch) gs) as [g|] eqn:E.
  - pose proof (findObj_applyGatewayTo _ _ _ E) as Hfm.
    unfold applyGatewayTo at 1. rewrite Hfm.
    change (applied patch (applied patch g)) with (applied patch g).
    apply (putObj_found gatewayKey _ (applied patch g)); [|done].
    change (gatewayKey (applied patch g)) with (gatewayKey g).
    by rewrite (findObj_key _ _ _ _ E).
  - unfold applyGatewayTo. rewrite E, findObj_putObj.
    assert (applied patch patch = patch) as -> by (by destruct patch).
    apply (putObj_found gatewayKey patch patch); [apply findObj_putObj|done].
Qed.

(** A listener patch keeps a settled route settled, whatever listeners and
    class name it carries. *)
Lemma settled_after_apply st req httpRoute parentRef gateway className listeners :
  Settled st req httpRoute parentRef gateway →
  let gatewayNamespace := (effectiveGateway httpRoute parentRef).1 in
  let gatewayName := (effectiveGateway httpRoute parentRef).2 in
  let patch := listenersPatch gatewayName gatewayNamespace className listeners in
  Settled (afterApply patch st) req httpRoute parentRef (applied patch gateway).
Proof.
  intros [Hr He Hp Hl Hf Hm Hprev Hg Hi Hz Hls]. simpl.
  split; try done.
  apply (findObj_applyGatewayTo
           (listenersPatch (prName parentRef)
              (default (rtNamespace httpRoute) (prNamespace parentRef))
              className listeners)).
  exact Hg.
Qed.

Lemma ensureGateway_accepts gatewayName gatewayNamespace ipamZone clusterIssuer w gateway w1 ev :
  clientGetGateway (gatewayNamespace, gatewayName) w = (Ok gateway, w1, ev) →
  annot (gwAnnotations gateway) clusterIssuerAnnotation = clusterIssuer →
  (∀ existingZone, recordedZone gateway = Some existingZone → existingZone = ipamZone) →
  ensureGateway gatewayName gatewayNamespace ipamZone clusterIssuer w
  = updateGatewayListeners gateway gatewayNamespace w1.
Proof.
  intros Hget Hi Hz.
  destruct (clientGetGateway_ok _ _ _ _ _ Hget) as (_ & -> & _).
  unfold ensureGateway. step_with Hget.
  rewrite bool_decide_eq_false_2 by (by intros ?).
  destruct (recordedZone gateway) as [z|] eqn:Ez.
  - rewrite (Hz z eq_refl). rewrite bool_decide_eq_false_2 by (by intros ?).
    by destruct (updateGatewayListeners _ _ _) as [[? ?] ?].
  - by destruct (updateGatewayListeners _ _ _) as [[? ?] ?].
Qed.

(** One run on a settled route when no call fails and nobody else writes:
    a single listener patch, in the order of this map iteration. *)
Lemma Reconcile_settled st orders req httpRoute parentRef gateway :
  Settled st req httpRoute parentRef gateway →
  let gatewayNamespace := (effectiveGateway httpRoute parentRef).1 in
  let gatewayName := (effectiveGateway httpRoute parentRef).2 in
  let patch :=
    listenersPatch gatewayName gatewayNamespace (gwClassName gateway)
      (rangeOver (hd [] orders)
         (collectListeners gatewayName gatewayNamespace (stRoutes st))) in
  Reconcile req (calm st orders)
  = (Ok tt, calm (afterApply patch st) (tl orders), [EvApplyGateway patch]).
Proof.
  intros [Hr He Hp Hl Hf Hm Hprev Hg Hi Hz Hls]. simpl.
  pose proof (findObj_key _ _ _ _ Hg) as Hk.
  unfold Reconcile. step_with (clientGetRoute_calm _ _ orders _ Hr).
  rewrite He. simpl.
  destruct (rtParentRefs httpRoute) as [|p rest] eqn:Hrefs; [done|].
  injection Hp as ->. unfold effectiveGateway in *. simpl in *.
  rewrite Hl. simpl. unfold reconcileLive.
  rewrite Hprev. rewrite (bool_decide_eq_false_2 (_ ≠ _ +:+ _)) by (by intros ?).
  rewrite andb_false_r.
  unfold reconcileFinalized. rewrite Hf. simpl.
  unfold reconcileGateway. rewrite (syncedAnnotations_settled _ _ Hm Hprev).
  assert (gwName gateway = prName parentRef) as Hname by (by injection Hk).
  assert (clientGetGateway
            (default (rtNamespace httpRoute) (prNamespace parentRef), prName parentRef)
            (calm st orders) = (Ok gateway, calm st orders, [])) as Hget
    by (by rewrite clientGetGateway_calm, Hg).
  unfold bind, attempt, ret. simpl.
  rewrite (ensureGateway_accepts _ _ _ _ _ _ _ _ Hget Hi Hz).
  rewrite updateGatewayListeners_calm by (by rewrite Hname).
  rewrite Hname. reflexivity.
Qed.

(** ** Re-running a reconciliation *)

Lemma applyGatewayTo_same patch (gs : list Gateway) g :
  findObj gatewayKey (gatewayKey patch) gs = Some g →
  applied patch g = g → applyGatewayTo patch gs = gs.
Proof.
  intros E Hsame. unfold applyGatewayTo. rewrite E, Hsame.
  apply (putObj_found gatewayKey g g); [|done].
  by rewrite (findObj_key _ _ _ _ E).
Qed.

(** Of two listener patches of the same stored gateway the second one
    decides. *)
Lemma applyGatewayTo_twice patch1 patch2 (gs : list Gateway) g :
  gatewayKey patch1 = gatewayKey patch2 →
  findObj gatewayKey (gatewayKey patch1) gs = Some g →
  applyGatewayTo patch2 (applyGatewayTo patch1 gs) = applyGatewayTo patch2 gs.
Proof.
  intros Hk E.
  pose proof (findObj_key _ _ _ _ E) as Hg.
  pose proof (findObj_applyGatewayTo _ _ _ E) as E1. rewrite Hk in E1.
  unfold applyGatewayTo at 1. rewrite E1.
  unfold applyGatewayTo. rewrite E. rewrite Hk in E. rewrite E.
  change (applied patch2 (applied patch1 g)) with (applied patch2 g).
  by apply putObj_putObj.
Qed.

(** C4, as the code has it.  On a settled route, a run in which no call
    fails and nobody else writes succeeds and issues exactly one write,
    the server-side apply of the gateway's listeners (class name carried
    over): no create, no update, no delete, and no write to the route.
    The listeners applied are those of the aggregation, in the order of
    this run's map iteration.  Running again on the store this leaves
    issues the same single kind of write, with the same listeners in the
    order of the second iteration.  After it the routes and every other
    gateway are as before, and the gateway is the one that was read with
    the listeners in that order: the second run leaves the store unchanged
    when the order repeats, and the first run does when the gateway
    already carries the listeners in its order.  Every order of the
    aggregated listeners is the order of some iteration. *)
Theorem C4_rerun_reapplies_same_listeners
    st req httpRoute parentRef gateway order1 order2 rest :
  Settled st req httpRoute parentRef gateway →
  let gatewayNamespace := (effectiveGateway httpRoute parentRef).1 in
  let gatewayName := (effectiveGateway httpRoute parentRef).2 in
  let aggregated := collectListeners gatewayName gatewayNamespace (stRoutes st) in
  let patch1 :=
    listenersPatch gatewayName gatewayNamespace (gwClassName gateway)
      (rangeOver order1 aggregated) in
  let patch2 :=
    listenersPatch gatewayName gatewayNamespace (gwClassName gateway)
      (rangeOver order2 aggregated) in
  Reconcile req (calm st (order1 :: order2 :: rest))
  = (Ok tt, calm (afterApply patch1 st) (order2 :: rest), [EvApplyGateway patch1])
  ∧ Reconcile req (calm (afterApply patch1 st) (order2 :: rest))
    = (Ok tt, calm (afterApply patch2 st) rest, [EvApplyGateway patch2])
  ∧ rangeOver order1 aggregated ≡ₚ aggregated
  ∧ rangeOver order2 aggregated ≡ₚ aggregated
  ∧ stRoutes (afterApply patch2 st) = stRoutes st
  ∧ (∀ k, k ≠ (gatewayNamespace, gatewayName) →
          findObj gatewayKey k (stGateways (afterApply patch2 st))
          = findObj gatewayKey k (stGateways st))
  ∧ findObj gatewayKey (gatewayNamespace, gatewayName) (stGateways (afterApply patch2 st))
    = Some {| gwName := gwName gateway; gwNamespace := gwNamespace gateway;
              gwAnnotations := gwAnnotations gateway;
              gwClassName := gwClassName gateway;
              gwListeners := rangeOver order2 aggregated;
              gwInfrastructure := gwInfrastructure gateway |}
  ∧ (rangeOver order2 aggregated = rangeOver order1 aggregated →
     afterApply patch2 st = afterApply patch1 st)
  ∧ (gwListeners gateway = rangeOver order1 aggregated → afterApply patch1 st = st)
  ∧ (∀ listeners, listeners ≡ₚ aggregated →
       ∃ order, rangeOver order aggregated = listeners).
Proof.
  intros Hs gatewayNamespace gatewayName aggregated patch1 patch2.
  pose proof (settled_gateway _ _ _ _ _ Hs) as Hg.
  assert (gatewayKey patch1 = (gatewayNamespace, gatewayName)) as Hk1 by reflexivity.
  assert (gatewayKey patch2 = (gatewayNamespace, gatewayName)) as Hk2 by reflexivity.
  assert ((effectiveGateway httpRoute parentRef) = (gatewayNamespace, gatewayName))
    as Heff by (by destruct (effectiveGateway httpRoute parentRef)).
  rewrite Heff in Hg.
  split; [exact (Reconcile_settled st (order1 :: order2 :: rest) _ _ _ _ Hs)|].
  split; [|split; [|split; [|split; [|split; [|split; [|split; [|split]]]]]]].
  - pose proof (Reconcile_settled (afterApply patch1 st) (order2 :: rest) _ _ _ _
                  (settled_after_apply _ _ _ _ _ (gwClassName gateway)
                     (rangeOver order1 aggregated) Hs)) as H.
    change (Reconcile req (calm (afterApply patch1 st) (order2 :: rest))
            = (Ok tt, calm (afterApply patch2 (afterApply patch1 st)) rest,
               [EvApplyGateway patch2])) in H.
    rewrite H. unfold afterApply. cbn [stRoutes stGateways].
    rewrite (applyGatewayTo_twice patch1 patch2 (stGateways st) gateway);
      [reflexivity | done | by rewrite Hk1].
  - apply rangeOver_Permutation.
  - apply rangeOver_Permutation.
  - reflexivity.
  - intros k Hne. cbn [afterApply stGateways].
    apply findObj_applyGatewayTo_ne. by rewrite Hk2.
  - cbn [afterApply stGateways]. rewrite <- Hk2.
    apply (findObj_applyGatewayTo patch2). by rewrite Hk2.
  - intros Hsame. unfold patch2, patch1. by rewrite Hsame.
  - intros Hsame. unfold afterApply.
    rewrite (applyGatewayTo_same patch1 (stGateways st) gateway).
    + by destruct st.
    + by rewrite Hk1.
    + unfold applied. cbn [patch1 listenersPatch gwClassName gwListeners].
      rewrite <- Hsame. by destruct gateway.
  - intros listeners Hp. by apply rangeOver_complete.
Qed.

Lemma C4_witness :
  let g := Ex.gateway "ns" "g1" ["a.example.com"; "b.example.com"] in
  let st := Ex.store [Ex.first] [g] in
  let aggregated := collectListeners "g1" "ns" [Ex.first] in
  let patch1 := listenersPatch "g1" "ns" "eg" (rangeOver [1%nat] aggregated) in
  let patch2 := listenersPatch "g1" "ns" "eg" (rangeOver [] aggregated) in
  Reconcile ("ns", "r1") (calm st [[1%nat]; []])
  = (Ok tt, calm (afterApply patch1 st) [[]], [EvApplyGateway patch1])
  ∧ Reconcile ("ns", "r1") (calm (afterApply patch1 st) [[]])
    = (Ok tt, calm (afterApply patch2 st) [], [EvApplyGateway patch2]).
Proof.
  intros g st aggregated patch1 patch2.
  assert (Settled st ("ns", "r1") Ex.first (Ex.ref "g1") g) as Hs.
  { split; try reflexivity.
    - by eexists.
    - intros z [= <-]. reflexivity.
    - vm_compute. discriminate. }
  destruct (C4_rerun_reapplies_same_listeners st ("ns", "r1") Ex.first (Ex.ref "g1") g
              [1%nat] [] [] Hs) as (Hrun1 & Hrun2 & _).
  split; [exact Hrun1 | exact Hrun2].
Defined.

(** C4 as the specification words it fails: after a successful run
    that left the store as it was, the second run issues a write, the
    listener patch. *)
Lemma C4_counterexample :
  let st := Ex.store [Ex.first] [Ex.gateway "ns" "g1" ["a.example.com"; "b.example.com"]] in
  let run1 := Reconcile ("ns", "r1") (quiet st) in
  let run2 := Reconcile ("ns", "r1") run1.1.2 in
  run1.1.1 = Ok tt
  ∧ run1.1.2 = quiet st
  ∧ run2.1.1 = Ok tt
  ∧ writes run2.2
    = [EvApplyGateway
         (listenersPatch "g1" "ns" gatewayClassName
            [createHTTPSListener "a.example.com" "ns";
             createHTTPSListener "b.example.com" "ns"])].
Proof. vm_compute. repeat split. Qed.

(** The order of the map iteration shows in the store: a second run whose
    iteration differs from the first leaves the same listeners on the
    gateway in another order. *)
Example rerun_may_reorder_listeners :
  let g := Ex.gateway "ns" "g1" ["a.example.com"; "b.example.com"] in
  let st := Ex.store [Ex.first] [g] in
  let run1 := Reconcile ("ns", "r1") (calm st [[]; [1%nat]]) in
  let run2 := Reconcile ("ns", "r1") run1.1.2 in
  (gwListeners <$> stGateways (wStore run1.1.2))
  = [[createHTTPSListener "a.example.com" "ns"; createHTTPSListener "b.example.com" "ns"]]
  ∧ (gwListeners <$> stGateways (wStore run2.1.2))
    = [[createHTTPSListener "b.example.com" "ns"; createHTTPSListener "a.example.com" "ns"]]
  ∧ length (writes run2.2) = 1%nat.
Proof. vm_compute. repeat split. Qed.

(** ** Creating the gateway *)

Lemma syncedAnnotations_keeps (annotations : gmap string string) currentGatewayRef k :
  k ≠ reconcileAnnotationKey → k ≠ previousGatewayAnnotationKey →
  annot (syncedAnnotations annotations currentGatewayRef).1 k = annot annotations k.
Proof.
  intros H1 H2. unfold syncedAnnotations, annot.
  destruct (annotations !! reconcileAnnotationKey); case_bool_decide; simpl;
    by rewrite ?lookup_insert_ne by done.
Qed.

Lemma effectiveZone_synced (annotations : gmap string string) currentGatewayRef :
  effectiveZone (syncedAnnotations annotations currentGatewayRef).1
  = effectiveZone annotations.
Proof. unfold effectiveZone. by rewrite syncedAnnotations_keeps. Qed.

Lemma effectiveIssuer_synced (annotations : gmap string string) currentGatewayRef :
  effectiveIssuer (syncedAnnotations annotations currentGatewayRef).1
  = effectiveIssuer annotations.
Proof. unfold effectiveIssuer. by rewrite syncedAnnotations_keeps. Qed.

Lemma ensureGateway_absent gatewayName gatewayNamespace ipamZone clusterIssuer w w1 ev :
  clientGetGateway (gatewayNamespace, gatewayName) w = (Err ErrNotFound, w1, ev) →
  ensureGateway gatewayName gatewayNamespace ipamZone clusterIssuer w
  = createGateway gatewayName gatewayNamespace ipamZone clusterIssuer w1.
Proof.
  intros Hget. pose proof (call_events _ _ _ _ _ _ Hget) as ->.
  unfold ensureGateway. step_with Hget. simpl.
  by destruct (createGateway _ _ _ _ w1) as [[? ?] ?].
Qed.

Lemma createGateway_calm gatewayName gatewayNamespace ipamZone clusterIssuer st orders :
  findObj gatewayKey (gatewayNamespace, gatewayName) (stGateways st) = None →
  let created :=
    newGatewayObject gatewayName gatewayNamespace ipamZone clusterIssuer
      (rangeOver (hd [] orders)
         (collectListeners gatewayName gatewayNamespace (stRoutes st))) in
  createGateway gatewayName gatewayNamespace ipamZone clusterIssuer (calm st orders)
  = (Ok tt,
     calm {| stRoutes := stRoutes st;
             stGateways := putObj gatewayKey created (stGateways st) |} (tl orders),
     [EvCreateGateway created]).
Proof.
  intros Habs created. unfold createGateway.
  erewrite bind_ok
    by (apply attempt_run, collectListenersForGateway_calm).
  cbv beta iota. fold created.
  erewrite bind_ok by (apply attempt_run, clientCreateGateway_calm; exact Habs).
  reflexivity.
Qed.

Lemma createGateway_quiet gatewayName gatewayNamespace ipamZone clusterIssuer st :
  findObj gatewayKey (gatewayNamespace, gatewayName) (stGateways st) = None →
  let created :=
    newGatewayObject gatewayName gatewayNamespace ipamZone clusterIssuer
      (collectListeners gatewayName gatewayNamespace (stRoutes st)) in
  createGateway gatewayName gatewayNamespace ipamZone clusterIssuer (quiet st)
  = (Ok tt,
     quiet {| stRoutes := stRoutes st;
              stGateways := putObj gatewayKey created (stGateways st) |},
     [EvCreateGateway created]).
Proof. intros Habs. exact (createGateway_calm _ _ _ _ st [] Habs). Qed.

Lemma ensureGateway_creates_calm
    gatewayName gatewayNamespace ipamZone clusterIssuer st orders :
  findObj gatewayKey (gatewayNamespace, gatewayName) (stGateways st) = None →
  let created :=
    newGatewayObject gatewayName gatewayNamespace ipamZone clusterIssuer
      (rangeOver (hd [] orders)
         (collectListeners gatewayName gatewayNamespace (stRoutes st))) in
  ensureGateway gatewayName gatewayNamespace ipamZone clusterIssuer (calm st orders)
  = (Ok tt,
     calm {| stRoutes := stRoutes st;
             stGateways := putObj gatewayKey created (stGateways st) |} (tl orders),
     [EvCreateGateway created]).
Proof.
  intros Habs created.
  rewrite (ensureGateway_absent _ _ _ _ (calm st orders) (calm st orders) []).
  - by apply createGateway_calm.
  - by rewrite clientGetGateway_calm, Habs.
Qed.

Lemma ensureGateway_creates gatewayName gatewayNamespace ipamZone clusterIssuer st :
  findObj gatewayKey (gatewayNamespace, gatewayName) (stGateways st) = None →
  let created :=
    newGatewayObject gatewayName gatewayNamespace ipamZone clusterIssuer
      (collectListeners gatewayName gatewayNamespace (stRoutes st)) in
  ensureGateway gatewayName gatewayNamespace ipamZone clusterIssuer (quiet st)
  = (Ok tt,
     quiet {| stRoutes := stRoutes st;
              stGateways := putObj gatewayKey created (stGateways st) |},
     [EvCreateGateway created]).
Proof. intros Habs. exact (ensureGateway_creates_calm _ _ _ _ st [] Habs). Qed.

Lemma reconcileGateway_creates_calm
    httpRoute gatewayName gatewayNamespace currentGatewayRef st orders :
  findObj gatewayKey (gatewayNamespace, gatewayName) (stGateways st) = None →
  ∃ st' before,
    let created :=
      newGatewayObject gatewayName gatewayNamespace
        (effectiveZone (rtAnnotations httpRoute))
        (effectiveIssuer (rtAnnotations httpRoute))
        (rangeOver (hd [] orders)
           (collectListeners gatewayName gatewayNamespace (stRoutes st'))) in
    reconcileGateway httpRoute gatewayName gatewayNamespace currentGatewayRef
      (calm st orders)
    = (Ok tt, calm st' (tl orders), before ++ [EvCreateGateway created])
    ∧ findObj gatewayKey (gatewayNamespace, gatewayName) (stGateways st') = Some created
    ∧ Forall (λ e, ∀ g, e ≠ EvCreateGateway g) before.
Proof.
  intros Habs. unfold reconcileGateway.
  pose proof (effectiveZone_synced (rtAnnotations httpRoute) currentGatewayRef) as Hz.
  pose proof (effectiveIssuer_synced (rtAnnotations httpRoute) currentGatewayRef) as Hi.
  destruct (syncedAnnotations (rtAnnotations httpRoute) currentGatewayRef)
    as [annotations needsUpdate]. simpl in Hz, Hi. rewrite Hz, Hi.
  destruct needsUpdate.
  - set (st1 := {| stRoutes := applyRouteTo (annotationsPatch httpRoute annotations)
                                 (stRoutes st);
                   stGateways := stGateways st |}).
    exists {| stRoutes := stRoutes st1;
              stGateways :=
                putObj gatewayKey
                  (newGatewayObject gatewayName gatewayNamespace
                     (effectiveZone (rtAnnotations httpRoute))
                     (effectiveIssuer (rtAnnotations httpRoute))
                     (rangeOver (hd [] orders)
                        (collectListeners gatewayName gatewayNamespace (stRoutes st1))))
                  (stGateways st1) |},
      [EvApplyRoute (annotationsPatch httpRoute annotations)].
    split; [|split].
    + erewrite bind_ok.
      2: { erewrite bind_ok by apply attempt_run, clientApplyRoute_calm.
           reflexivity. }
      fold st1.
      erewrite bind_ok
        by (apply attempt_run, (ensureGateway_creates_calm _ _ _ _ st1 orders Habs)).
      reflexivity.
    + simpl.
      apply (findObj_putObj gatewayKey
               (newGatewayObject gatewayName gatewayNamespace _ _ _)).
    + repeat constructor. done.
  - exists {| stRoutes := stRoutes st;
              stGateways :=
                putObj gatewayKey
                  (newGatewayObject gatewayName gatewayNamespace
                     (effectiveZone (rtAnnotations httpRoute))
                     (effectiveIssuer (rtAnnotations httpRoute))
                     (rangeOver (hd [] orders)
                        (collectListeners gatewayName gatewayNamespace (stRoutes st))))
                  (stGateways st) |}, [].
    split; [|split].
    + erewrite bind_ok by reflexivity.
      erewrite bind_ok
        by (apply attempt_run, (ensureGateway_creates_calm _ _ _ _ st orders Habs)).
      reflexivity.
    + simpl.
      apply (findObj_putObj gatewayKey
               (newGatewayObject gatewayName gatewayNamespace _ _ _)).
    + constructor.
Qed.

(** In every world, once the gateway is not found and the listeners are
    aggregated, the create call is issued, whatever zone and issuer are
    asked for. *)
Lemma ensureGateway_issues_create
    gatewayName gatewayNamespace ipamZone clusterIssuer w w1 ev listeners w2 ev2 :
  clientGetGateway (gatewayNamespace, gatewayName) w = (Err ErrNotFound, w1, ev) →
  collectListenersForGateway gatewayName gatewayNamespace w1 = (Ok listeners, w2, ev2) →
  ∃ r w3 logs,
    ensureGateway gatewayName gatewayNamespace ipamZone clusterIssuer w
    = (r, w3,
       EvCreateGateway
         (newGatewayObject gatewayName gatewayNamespace ipamZone clusterIssuer listeners)
       :: logs)
    ∧ writes logs = [].
Proof.
  intros Hget Hc.
  rewrite (ensureGateway_absent _ _ _ _ _ _ _ Hget).
  destruct (collectListenersForGateway_inv _ _ _ _ _ _ Hc) as [-> _].
  unfold createGateway. step_with Hc. cbn [app].
  set (created := newGatewayObject _ _ _ _ _).
  destruct (clientCreateGateway created w2) as [[rc w3] evc] eqn:Hcreate.
  pose proof (call_events _ _ _ _ _ _ Hcreate) as ->.
  step_with Hcreate.
  destruct rc as [[]|e].
  - by exists (Ok tt), w3, [].
  - by exists (Err e), w3, [EvLogError "Failed to create Gateway"].
Qed.

(** The old-gateway step in a calm world: the routes stay, no gateway is
    created, and at most one map iteration is used up. *)
Lemma updateOldGateway_calm gatewayRef st orders :
  ∃ r st1 orders1 evs,
    updateOldGateway gatewayRef (calm st orders) = (r, calm st1 orders1, evs)
    ∧ stRoutes st1 = stRoutes st
    ∧ (∀ k, findObj gatewayKey k (stGateways st) = None →
            findObj gatewayKey k (stGateways st1) = None)
    ∧ Forall (λ e, ∀ g, e ≠ EvCreateGateway g) evs
    ∧ (orders = [] → orders1 = []).
Proof.
  unfold updateOldGateway.
  destruct (parseGatewayRef gatewayRef) as [gatewayNamespace gatewayName].
  destruct (_ || _).
  { exists (Ok tt), st, orders, [EvLogError "Invalid gateway reference format"].
    repeat split; [done| |done]. repeat constructor. done. }
  erewrite bind_ok by (apply attempt_run, clientGetGateway_calm).
  destruct (findObj gatewayKey (gatewayNamespace, gatewayName) (stGateways st))
    as [gateway|] eqn:Hg; cbn [orNotFound]; cbv beta iota.
  2: { exists (Ok tt), st, orders, []. repeat split; [done|constructor|done]. }
  pose proof (findObj_key _ _ _ _ Hg) as Hk.
  erewrite bind_ok by apply collectListenersForGateway_calm.
  destruct (rangeOver (hd [] orders)
              (collectListeners gatewayName gatewayNamespace (stRoutes st))) as [|l ls];
    cbn [length Nat.eqb].
  - rewrite (clientDeleteGateway_calm gateway st (tl orders) gateway) by (by rewrite Hk).
    eexists _, _, _, _. split; [reflexivity|]. split; [done|]. split; [|split].
    + intros k Hnone. simpl. rewrite Hk.
      destruct (decide (k = (gatewayNamespace, gatewayName))) as [->|Hne].
      * apply findObj_removeObj.
      * by rewrite findObj_removeObj_ne.
    + repeat constructor. done.
    + by intros ->.
  - rewrite clientApplyGateway_calm.
    eexists _, _, _, _. split; [reflexivity|]. split; [done|]. split; [|split].
    + intros k Hnone. simpl.
      rewrite findObj_applyGatewayTo_ne; [done|].
      unfold gatewayKey. simpl. intros <-. by rewrite Hg in Hnone.
    + repeat constructor. done.
    + by intros ->.
Qed.

Lemma updateOldGateway_quiet gatewayRef st :
  ∃ r st1 evs,
    updateOldGateway gatewayRef (quiet st) = (r, quiet st1, evs)
    ∧ stRoutes st1 = stRoutes st
    ∧ (∀ k, findObj gatewayKey k (stGateways st) = None →
            findObj gatewayKey k (stGateways st1) = None)
    ∧ Forall (λ e, ∀ g, e ≠ EvCreateGateway g) evs.
Proof.
  destruct (updateOldGateway_calm gatewayRef st [])
    as (r & st1 & orders1 & evs & Hrun & Hroutes & Hkeep & Hevs & Ho).
  rewrite (Ho eq_refl) in Hrun. by exists r, st1, evs.
Qed.

(** Issuer and zone of a route, on its annotations: the declared value
    when there is one and it is not empty, the default otherwise. *)
Lemma effectiveIssuer_cases (annotations : gmap string string) :
  (∀ declared,
     annotations !! "gatewayapi-operator.vitistack.io/cluster-issuer" = Some declared →
     declared ≠ "" → effectiveIssuer annotations = declared)
  ∧ (annotations !! "gatewayapi-operator.vitistack.io/cluster-issuer" = None
     ∨ annotations !! "gatewayapi-operator.vitistack.io/cluster-issuer" = Some "" →
     effectiveIssuer annotations = "internpki").
Proof.
  unfold effectiveIssuer, annot, AnnotationClusterIssuer. split.
  - intros declared -> Hne. simpl. by rewrite bool_decide_eq_false_2.
  - by intros [->| ->].
Qed.

Lemma effectiveZone_cases (annotations : gmap string string) :
  (∀ declared,
     annotations !! "ipam.vitistack.io/zone" = Some declared →
     declared ≠ "" → effectiveZone annotations = declared)
  ∧ (annotations !! "ipam.vitistack.io/zone" = None
     ∨ annotations !! "ipam.vitistack.io/zone" = Some "" →
     effectiveZone annotations = "hnet-private").
Proof.
  unfold effectiveZone, annot, AnnotationIPAMZone. split.
  - intros declared -> Hne. simpl. by rewrite bool_decide_eq_false_2.
  - by intros [->| ->].
Qed.

(** C5, as the code has it.  (1) In a calm world, whatever the orders of
    its map iterations, for a stored route that is enabled, not being
    deleted, holds the finalizer and has a first parent reference whose
    gateway does not exist, [Reconcile] succeeds and its last write creates
    that gateway with the class name of the operator, one listener per
    aggregated hostname, the issuer under the cluster-issuer annotation and
    the zone in the infrastructure annotations; the gateway is stored
    afterwards and no other gateway is created.  The issuer is the value
    the route declares under its cluster-issuer annotation when that is
    present and not empty, and "internpki" otherwise; the zone is the value
    declared under the zone annotation when present and not empty, and
    "hnet-private" otherwise.  (2) In every world, when the gateway is not
    found and the listeners are aggregated, [ensureGateway] issues the
    create call for the gateway built from the zone, the issuer and those
    listeners, for every zone and issuer: no comparison takes place, and
    nothing else is written. *)
Theorem C5_absent_gateway_is_created st orders req httpRoute parentRef :
  findObj routeKey req (stRoutes st) = Some httpRoute →
  annot (rtAnnotations httpRoute) AnnotationUseHttprouteOperator = "true" →
  head (rtParentRefs httpRoute) = Some parentRef →
  timeIsZero (rtDeletionTimestamp httpRoute) = true →
  ContainsFinalizer httpRoute httprouteFinalizerName = true →
  let gatewayNamespace := (effectiveGateway httpRoute parentRef).1 in
  let gatewayName := (effectiveGateway httpRoute parentRef).2 in
  findObj gatewayKey (gatewayNamespace, gatewayName) (stGateways st) = None →
  (∃ st' orders' before listeners issuer zone,
     let created :=
       {| gwName := gatewayName; gwNamespace := gatewayNamespace;
          gwAnnotations := {[ "cert-manager.io/cluster-issuer" := issuer ]};
          gwClassName := "eg";
          gwListeners := listeners;
          gwInfrastructure :=
            Some {| giAnnotations := Some {[ "ipam.vitistack.io/zone" := zone ]} |} |} in
     Reconcile req (calm st orders)
     = (Ok tt, calm st' orders', before ++ [EvCreateGateway created])
     ∧ findObj gatewayKey (gatewayNamespace, gatewayName) (stGateways st') = Some created
     ∧ Forall (λ e, ∀ g, e ≠ EvCreateGateway g) before
     ∧ listeners ≡ₚ collectListeners gatewayName gatewayNamespace (stRoutes st')
     ∧ (∀ declared,
          rtAnnotations httpRoute !! "gatewayapi-operator.vitistack.io/cluster-issuer"
          = Some declared →
          declared ≠ "" → issuer = declared)
     ∧ (rtAnnotations httpRoute !! "gatewayapi-operator.vitistack.io/cluster-issuer" = None
        ∨ rtAnnotations httpRoute !! "gatewayapi-operator.vitistack.io/cluster-issuer"
          = Some "" →
        issuer = "internpki")
     ∧ (∀ declared,
          rtAnnotations httpRoute !! "ipam.vitistack.io/zone" = Some declared →
          declared ≠ "" → zone = declared)
     ∧ (rtAnnotations httpRoute !! "ipam.vitistack.io/zone" = None
        ∨ rtAnnotations httpRoute !! "ipam.vitistack.io/zone" = Some "" →
        zone = "hnet-private"))
  ∧ (∀ w w1 ev ipamZone clusterIssuer listeners w2 ev2,
       clientGetGateway (gatewayNamespace, gatewayName) w = (Err ErrNotFound, w1, ev) →
       collectListenersForGateway gatewayName gatewayNamespace w1
       = (Ok listeners, w2, ev2) →
       ∃ r w3 logs,
         ensureGateway gatewayName gatewayNamespace ipamZone clusterIssuer w
         = (r, w3,
            EvCreateGateway
              {| gwName := gatewayName; gwNamespace := gatewayNamespace;
                 gwAnnotations := {[ "cert-manager.io/cluster-issuer" := clusterIssuer ]};
                 gwClassName := "eg";
                 gwListeners := listeners;
                 gwInfrastructure :=
                   Some {| giAnnotations :=
                             Some {[ "ipam.vitistack.io/zone" := ipamZone ]} |} |}
            :: logs)
         ∧ writes logs = []).
Proof.
  intros Hr He Hp Hl Hf gatewayNamespace gatewayName Habs.
  split; [|intros; by eapply ensureGateway_issues_create].
  assert (operatorEnabled httpRoute = true) as Hen
    by (by apply bool_decide_eq_true_2).
  destruct (rtParentRefs httpRoute) as [|p rest] eqn:Hrefs; [done|].
  injection Hp as ->.
  set (currentGatewayRef := gatewayNamespace +:+ "/" +:+ gatewayName).
  set (previousGatewayRef := annot (rtAnnotations httpRoute) previousGatewayAnnotationKey).
  assert (∃ st1 orders1 ev1,
            (if bool_decide (previousGatewayRef ≠ "")
                && bool_decide (previousGatewayRef ≠ currentGatewayRef)
             then
               r <- attempt (updateOldGateway previousGatewayRef) ;;
               match r with
               | Err _ => logError "Failed to update old gateway listeners"
               | Ok _ => ret tt
               end
             else ret tt) (calm st orders) = (Ok tt, calm st1 orders1, ev1)
            ∧ findObj gatewayKey (gatewayNamespace, gatewayName) (stGateways st1) = None
            ∧ Forall (λ e, ∀ g, e ≠ EvCreateGateway g) ev1)
    as (st1 & orders1 & ev1 & Hmig & Habs1 & Hev1).
  { destruct (_ && _).
    - destruct (updateOldGateway_calm previousGatewayRef st orders)
        as (r & st1 & orders1 & evs & Hrun & _ & Hkeep & Hevs & _).
      erewrite bind_ok by (apply attempt_run, Hrun).
      destruct r as [[]|e].
      + exists st1, orders1, (evs ++ []). split; [done|]. split; [by apply Hkeep|].
        by rewrite app_nil_r.
      + exists st1, orders1, (evs ++ [EvLogError "Failed to update old gateway listeners"]).
        split; [done|]. split; [by apply Hkeep|].
        apply Forall_app. split; [done|]. repeat constructor. done.
    - exists st, orders, []. by repeat split. }
  destruct (reconcileGateway_creates_calm httpRoute gatewayName gatewayNamespace
              currentGatewayRef st1 orders1 Habs1)
    as (st' & before & Hrun & Hfind & Hbefore).
  exists st', (tl orders1), (ev1 ++ before),
    (rangeOver (hd [] orders1)
       (collectListeners gatewayName gatewayNamespace (stRoutes st'))),
    (effectiveIssuer (rtAnnotations httpRoute)),
    (effectiveZone (rtAnnotations httpRoute)).
  split; [|split; [|split; [|split]]].
  - unfold Reconcile. step_with (clientGetRoute_calm _ _ orders _ Hr).
    rewrite Hen, Hrefs. cbn [negb]. unfold effectiveGateway. cbv beta iota.
    rewrite Hl. cbn [negb]. unfold reconcileLive.
    fold gatewayNamespace gatewayName currentGatewayRef previousGatewayRef.
    erewrite bind_ok by exact Hmig.
    unfold reconcileFinalized. rewrite Hf. cbn [negb].
    change (reconcileGateway _ _ _ _ (calm st1 orders1))
      with (reconcileGateway httpRoute gatewayName gatewayNamespace currentGatewayRef
              (calm st1 orders1)).
    rewrite Hrun. cbn [app]. by rewrite <- app_assoc.
  - exact Hfind.
  - by apply Forall_app.
  - apply rangeOver_Permutation.
  - destruct (effectiveIssuer_cases (rtAnnotations httpRoute)) as [Hi1 Hi2].
    destruct (effectiveZone_cases (rtAnnotations httpRoute)) as [Hz1 Hz2].
    done.
Qed.

Lemma C5_witness :
  ∃ st' orders' before listeners,
    let created :=
      newGatewayObject "g1" "ns" "hnet-public" "letsencrypt" listeners in
    Reconcile ("ns", "r1") (calm (Ex.store [ExMore.declaring] []) [[1]])
    = (Ok tt, calm st' orders', before ++ [EvCreateGateway created])
    ∧ findObj gatewayKey ("ns", "g1") (stGateways st') = Some created.
Proof.
  destruct (C5_absent_gateway_is_created (Ex.store [ExMore.declaring] []) [[1]]
              ("ns", "r1") ExMore.declaring (Ex.ref "g1"))
    as [(st' & orders' & before & listeners & issuer & zone
         & Hrun & Hfind & _ & _ & Hissuer & _ & Hzone & _) _];
    [reflexivity..|].
  rewrite (Hissuer "letsencrypt" eq_refl) in Hrun, Hfind by discriminate.
  rewrite (Hzone "hnet-public" eq_refl) in Hrun, Hfind by discriminate.
  exists st', orders', before, listeners. split; [exact Hrun | exact Hfind].
Defined.

(** C5 as the specification words it fails: the gateway of an enabled
    route does not exist, and the run on that route adds the finalizer and
    ends; no gateway is created by it. *)
Lemma C5_counterexample :
  let st := Ex.store [ExMore.fresh] [] in
  let run := Reconcile ("ns", "r1") (quiet st) in
  findObj gatewayKey ("ns", "g1") (stGateways st) = None
  ∧ run = (Ok tt, quiet (Ex.store [ExMore.finalized] []), [EvUpdateRoute ExMore.finalized])
  ∧ findObj gatewayKey ("ns", "g1") (stGateways (wStore run.1.2)) = None.
Proof. vm_compute. repeat split. Qed.

(** ** The deletion path *)

Lemma attempt_inv {A : Type} (m : M A) w r w1 ev :
  attempt m w = (r, w1, ev) → ∃ r0, m w = (r0, w1, ev) ∧ r = Ok r0.
Proof.
  unfold attempt. destruct (m w) as [[r0 w0] ev0]. intros [= <- <- <-]. by exists r0.
Qed.

Lemma RemoveFinalizer_gone rt f : ContainsFinalizer (RemoveFinalizer rt f) f = false.
Proof.
  unfold ContainsFinalizer, RemoveFinalizer. simpl.
  apply bool_decide_eq_false_2. intros H. apply list_elem_of_filter in H as [H _]. done.
Qed.

Lemma handleHTTPRouteDeletion_events req gatewayName gatewayNamespace w r w1 evs :
  handleHTTPRouteDeletion gatewayName gatewayNamespace w = (r, w1, evs) →
  Forall (deletionEvent req (gatewayNamespace, gatewayName)) evs
  ∧ List.filter isUpdateRoute evs = [].
Proof.
  unfold handleHTTPRouteDeletion. intros H.
  apply bind_inv in H as [(rg & w2 & ev1 & ev2 & Hg & Hk & ->)|(e & Hg & ->)].
  2: { apply attempt_inv in Hg as (? & _ & ?). done. }
  apply attempt_inv in Hg as (rg0 & Hg & [= ->]).
  pose proof (call_events _ _ _ _ _ _ Hg) as ->. cbn [app].
  destruct rg0 as [gateway|e].
  - destruct (clientGetGateway_ok _ _ _ _ _ Hg) as (Hfind & _ & _).
    apply findObj_key in Hfind.
    assert (gwName gateway = gatewayName) as Hname by (by injection Hfind).
    apply bind_inv in Hk as [(ru & w3 & ev3 & ev4 & Hu & Hk & ->)|(e & Hu & ->)].
    2: { apply attempt_inv in Hu as (? & _ & ?). done. }
    apply attempt_inv in Hu as (ru0 & Hu & [= ->]).
    assert (Forall (deletionEvent req (gatewayNamespace, gatewayName)) ev4
            ∧ List.filter isUpdateRoute ev4 = []) as [Hev4 Hf4].
    { destruct ru0 as [[]|e].
      - injection Hk as _ _ <-. by split.
      - apply bind_inv in Hk as [(? & ? & ? & ? & Hlog & Hfail & ->)|(? & Hlog & ->)].
        + injection Hlog as _ _ <-. injection Hfail as _ _ <-.
          cbn [app]. split; [|reflexivity]. constructor; [exact I|constructor].
        + discriminate. }
    apply updateGatewayListeners_events in Hu as [->|[->|(ls & Hne & ->)]]; cbn [app].
    + by split.
    + split; [|by rewrite <- Hf4]. by constructor.
    + split; [|by rewrite <- Hf4]. constructor; [|done]. simpl. split; [|done].
      unfold gatewayKey. simpl. by rewrite Hname.
  - destruct (IsNotFound e).
    + injection Hk as _ _ <-. by split.
    + apply bind_inv in Hk as [(? & ? & ? & ? & Hlog & Hfail & ->)|(? & Hlog & ->)].
      * injection Hlog as _ _ <-. injection Hfail as _ _ <-.
        cbn [app]. split; [|reflexivity]. constructor; [exact I|constructor].
      * discriminate.
Qed.

Lemma removeFinalizerOnce_events req k w r w1 evs :
  removeFinalizerOnce req w = (r, w1, evs) →
  Forall (deletionEvent req k) evs
  ∧ List.filter isUpdateRoute evs = evs ∧ (length evs ≤ 1)%nat.
Proof.
  unfold removeFinalizerOnce. intros H.
  apply bind_inv in H as [(rg & w2 & ev1 & ev2 & Hg & Hk & ->)|(e & Hg & ->)].
  2: { apply attempt_inv in Hg as (? & _ & ?). done. }
  apply attempt_inv in Hg as (rg0 & Hg & [= ->]).
  pose proof (call_events _ _ _ _ _ _ Hg) as ->. cbn [app].
  destruct rg0 as [latest|e].
  - destruct (clientGetRoute_ok _ _ _ _ _ Hg) as (Hfind & _ & _).
    apply findObj_key in Hfind.
    destruct (ContainsFinalizer latest httprouteFinalizerName); cbn [negb] in Hk.
    + apply call_events in Hk as ->. split; [|split; [done|simpl; lia]].
      constructor; [|done]. simpl. split; [done|]. apply RemoveFinalizer_gone.
    + injection Hk as _ _ <-. split; [done|]. split; [done|simpl; lia].
  - destruct (IsNotFound e); injection Hk as _ _ <-;
      (split; [done|]; split; [done|simpl; lia]).
Qed.

(** The retry loop runs its closure at most [steps] times. *)
Lemma onConflict_events (Q : Event → Prop) (fn : M unit) :
  (∀ w r w1 evs, fn w = (r, w1, evs) →
     Forall Q evs ∧ List.filter isUpdateRoute evs = evs ∧ (length evs ≤ 1)%nat) →
  ∀ steps lastErr w r w1 evs,
    onConflict steps fn lastErr w = (r, w1, evs) →
    Forall Q evs ∧ List.filter isUpdateRoute evs = evs ∧ (length evs ≤ steps)%nat.
Proof.
  intros Hfn steps. induction steps as [|n IH]; intros lastErr w r w1 evs H; simpl in H.
  - injection H as _ _ <-. by repeat split.
  - apply bind_inv in H as [(ra & w2 & ev1 & ev2 & Ha & Hk & ->)|(e & Ha & ->)].
    2: { apply attempt_inv in Ha as (? & _ & ?). done. }
    apply attempt_inv in Ha as (r0 & Ha & [= ->]).
    destruct (Hfn _ _ _ _ Ha) as (HQ1 & Hf1 & Hl1).
    assert (Forall Q ev2 ∧ List.filter isUpdateRoute ev2 = ev2 ∧ (length ev2 ≤ n)%nat)
      as (HQ2 & Hf2 & Hl2).
    { destruct r0 as [[]|e].
      - injection Hk as _ _ <-. repeat split; [done|simpl; lia].
      - destruct (IsConflict e).
        + by apply IH in Hk.
        + injection Hk as _ _ <-. repeat split; [done|simpl; lia]. }
    split; [by apply Forall_app|]. split.
    + by rewrite List.filter_app, Hf1, Hf2.
    + rewrite length_app. lia.
Qed.


Lemma onConflict_settles n (fn : M unit) lastErr w r w1 ev :
  fn w = (r, w1, ev) →
  match r with Ok _ => True | Err e => IsConflict e = false end →
  onConflict (S n) fn lastErr w = (r, w1, ev).
Proof.
  intros Hfn Hr. cbn [onConflict].
  erewrite bind_ok by (apply attempt_run, Hfn).
  destruct r as [[]|e].
  - unfold ret. by rewrite app_nil_r.
  - rewrite Hr. unfold fail. by rewrite app_nil_r.
Qed.

Lemma RetryOnConflict_settles (fn : M unit) w r w1 ev :
  fn w = (r, w1, ev) →
  match r with Ok _ => True | Err e => IsConflict e = false end →
  RetryOnConflict fn w = (r, w1, ev).
Proof. apply onConflict_settles. Qed.





Lemma Reconcile_deleting req w httpRoute parentRef rest w1 ev :
  clientGetRoute req w = (Ok httpRoute, w1, ev) →
  operatorEnabled httpRoute = true →
  rtParentRefs httpRoute = parentRef :: rest →
  timeIsZero (rtDeletionTimestamp httpRoute) = false →
  Reconcile req w
  = reconcileDeleting req httpRoute (prName parentRef)
      (default (rtNamespace httpRoute) (prNamespace parentRef)) w1.
Proof.
  intros Hget He Hrefs Hdel. pose proof (call_events _ _ _ _ _ _ Hget) as ->.
  unfold Reconcile. step_with Hget. rewrite He, Hrefs. cbn [negb].
  unfold effectiveGateway. cbv beta iota. rewrite Hdel. cbn [negb].
  by destruct (reconcileDeleting _ _ _ _ w1) as [[? ?] ?].
Qed.



Lemma clientUpdateRoute_quiet rt st found :
  findObj routeKey (routeKey rt) (stRoutes st) = Some found →
  clientUpdateRoute rt (quiet st)
  = (Ok tt,
     quiet {| stRoutes :=
                if negb (timeIsZero (rtDeletionTimestamp rt))
                   && bool_decide (rtFinalizers rt = [])
                then removeObj routeKey (routeKey rt) (stRoutes st)
                else putObj routeKey rt (stRoutes st);
              stGateways := stGateways st |},
     [EvUpdateRoute rt]).
Proof. intros H. unfold clientUpdateRoute. rewrite call_quiet. by rewrite H. Qed.







(** The bound is reached: when every update is answered with a conflict,
    the run gives up after five updates and returns the conflict. *)
Example five_conflicts_exhaust_the_retries :
  let run :=
    Reconcile ("ns", "r2")
      {| wStore := Ex.store [Ex.leaving] []; wScript := Ex.updatesConflict; wMapOrder := [] |} in
  run.1.1 = Err ErrConflict
  ∧ length (List.filter isUpdateRoute run.2) = 5%nat
  ∧ stRoutes (wStore run.1.2) = [Ex.leaving].
Proof. vm_compute. repeat split. Qed.

(** Another writer's release of the finalizer, or removal of the route,
    between the synchronisation of the gateway and the read of the retry
    loop ends the run with success and without an update. *)
Example released_or_removed_route_is_success :
  let st := Ex.store [Ex.leaving] [] in
  let released := RemoveFinalizer Ex.leaving httprouteFinalizerName in
  let run1 :=
    Reconcile ("ns", "r2") {| wStore := st; wScript := Ex.thenStored released; wMapOrder := [] |} in
  let run2 :=
    Reconcile ("ns", "r2") {| wStore := st; wScript := Ex.thenRemoved ("ns", "r2"); wMapOrder := [] |} in
  run1 = (Ok tt, quiet (Ex.store [released] []), [])
  ∧ run2 = (Ok tt, quiet (Ex.store [] []), []).
Proof. vm_compute. repeat split. Qed.

(** * Further properties of the embedded code *)

(** ** The listener builder and the aggregation *)

Lemma string_length_app (s t : string) :
  String.length (s +:+ t) = (String.length s + String.length t)%nat.
Proof. induction s as [|c s IH]; simpl; [done|]. by rewrite IH. Qed.

Lemma string_app_inj_suffix (t s1 s2 : string) : s1 +:+ t = s2 +:+ t → s1 = s2.
Proof.
  revert s2. induction s1 as [|c s1 IH]; intros [|c2 s2] H; simpl in H.
  - done.
  - apply (f_equal String.length) in H.
    rewrite ?string_length_app in H. simpl in H. rewrite ?string_length_app in H. lia.
  - apply (f_equal String.length) in H.
    rewrite ?string_length_app in H. simpl in H. rewrite ?string_length_app in H. lia.
  - injection H as -> H. f_equal. by apply IH.
Qed.

Lemma certSecretNames_listenersOf gatewayNamespace (s : gset string) :
  mjoin (certSecretNames <$> listenersOf gatewayNamespace s)
  = (λ h, h +:+ tlsCertSuffix) <$> elements s.
Proof.
  unfold listenersOf. induction (elements s) as [|h hs IH]; [done|].
  rewrite !fmap_cons.
  change (mjoin (certSecretNames (createHTTPSListener h gatewayNamespace)
                   :: (certSecretNames
                         <$> ((λ hostname, createHTTPSListener hostname gatewayNamespace)
                                <$> hs))))
    with ((h +:+ tlsCertSuffix)
            :: mjoin (certSecretNames
                        <$> ((λ hostname, createHTTPSListener hostname gatewayNamespace)
                               <$> hs))).
  by rewrite IH.
Qed.

(** X1. The listeners of an aggregation never share a certificate secret:
    each refers to the one secret named after its hostname with the suffix
    "-tls", in the gateway's namespace, and these names are pairwise
    distinct. *)
Theorem aggregated_certificates_are_distinct gatewayName gatewayNamespace
    (items : list HTTPRoute) :
  NoDup (mjoin (certSecretNames
                  <$> collectListeners gatewayName gatewayNamespace items))
  ∧ Forall (λ l, certSecretNames l = [lsName l +:+ "-tls"]
                 ∧ (∀ tls, lsTLS l = Some tls →
                      Forall (λ r, sorNamespace r = Some gatewayNamespace)
                        (tlsCertificateRefs tls)))
      (collectListeners gatewayName gatewayNamespace items).
Proof.
  unfold collectListeners. split.
  - rewrite certSecretNames_listenersOf. apply NoDup_fmap_2; [|apply NoDup_elements].
    intros h1 h2. apply string_app_inj_suffix.
  - apply Forall_forall. intros l Hl.
    apply elem_of_listenersOf in Hl as (h & _ & ->). split; [done|].
    intros tls [= <-]. by repeat constructor.
Qed.

Lemma aggregated_certificates_are_distinct_witness :
  mjoin (certSecretNames <$> collectListeners "g1" "ns" [Ex.first; Ex.leaving])
  = ["a.example.com-tls"; "b.example.com-tls"]
  ∧ NoDup (mjoin (certSecretNames
                    <$> collectListeners "g1" "ns" [Ex.first; Ex.leaving])).
Proof.
  split; [by vm_compute|].
  apply (aggregated_certificates_are_distinct "g1" "ns" [Ex.first; Ex.leaving]).
Defined.

(** X2. The gateway reference round-trips.  The string "namespace/name"
    that [Reconcile] records is cut back by [updateOldGateway] into the same
    namespace and name whenever the namespace holds no slash; and whenever
    the cut succeeds, the reference is the namespace, a slash and the name,
    with a slash-free namespace (the name keeps any further slash). *)
Theorem gateway_reference_round_trip :
  (∀ gatewayNamespace gatewayName,
     slashFree gatewayNamespace →
     parseGatewayRef (gatewayNamespace +:+ "/" +:+ gatewayName)
     = (gatewayNamespace, gatewayName))
  ∧ (∀ gatewayRef gatewayNamespace gatewayName,
       cutAtSlash gatewayRef = Some (gatewayNamespace, gatewayName) →
       gatewayRef = gatewayNamespace +:+ "/" +:+ gatewayName
       ∧ slashFree gatewayNamespace).
Proof.
  split.
  - intros ns name Hns. unfold parseGatewayRef. by rewrite cutAtSlash_append.
  - intros s. induction s as [|ch s IH]; intros ns name; simpl; [done|].
    case_bool_decide as Hch.
    + intros [= <- <-]. subst ch. split; [done|].
      intros [|? ?] b; simpl; discriminate.
    + destruct (cutAtSlash s) as [[ns' name']|]; [|done].
      intros [= <- <-]. destruct (IH ns' name' eq_refl) as [-> Hfree].
      split; [done|]. intros [|c a] b; simpl.
      * intros [= -> _]. done.
      * intros [= _ Heq]. by apply (Hfree a b).
Qed.

Lemma gateway_reference_round_trip_witness :
  parseGatewayRef "team-a/g1" = ("team-a", "g1")
  ∧ ("a/b/c" = "a" +:+ "/" +:+ "b/c" ∧ slashFree "a").
Proof.
  destruct gateway_reference_round_trip as [Hparse Hcut]. split.
  - apply (Hparse "team-a" "g1"). unfold slashFree. by apply cutAtSlash_none.
  - apply (Hcut "a/b/c" "a" "b/c"). reflexivity.
Defined.

(** X3. The aggregation does not depend on the order in which the routes
    are listed. *)
Theorem aggregation_ignores_listing_order gatewayName gatewayNamespace
    (items items' : list HTTPRoute) :
  items ≡ₚ items' →
  collectListeners gatewayName gatewayNamespace items
  = collectListeners gatewayName gatewayNamespace items'.
Proof.
  intros Hperm. unfold collectListeners. f_equal.
  apply set_eq. intros h. rewrite !elem_of_collectHostnames.
  split; intros (rt & Hin & ?); exists rt; (split; [|done]).
  - by rewrite <- Hperm.
  - by rewrite Hperm.
Qed.

Lemma aggregation_ignores_listing_order_witness :
  collectListeners "g1" "ns" [Ex.first; Ex.secondParent; Ex.leaving]
  = collectListeners "g1" "ns" [Ex.leaving; Ex.secondParent; Ex.first].
Proof.
  apply aggregation_ignores_listing_order.
  symmetry. apply (reverse_Permutation [Ex.first; Ex.secondParent; Ex.leaving]).
Defined.

Lemma contributes_namedBy gatewayName gatewayNamespace rt :
  contributes gatewayName gatewayNamespace rt = true
  ↔ timeIsZero (rtDeletionTimestamp rt) = true
    ∧ annot (rtAnnotations rt) AnnotationUseHttprouteOperator = "true"
    ∧ ∃ parentRef, parentRef ∈ rtParentRefs rt
                   ∧ namedBy gatewayName gatewayNamespace parentRef.
Proof.
  unfold contributes, activeAndEnabled, operatorEnabled.
  rewrite !andb_true_iff, bool_decide_eq_true, existsb_exists.
  assert (∀ p, parentRefMatches gatewayName gatewayNamespace p = true
               ↔ namedBy gatewayName gatewayNamespace p) as Hp.
  { intros p. unfold parentRefMatches, namedBy.
    rewrite andb_true_iff, !bool_decide_eq_true.
    destruct (prNamespace p) as [ns|]; simpl; naive_solver. }
  split.
  - intros [[? ?] (p & Hin & Hm)]. repeat split; [done..|].
    exists p. split; [by apply list_elem_of_In|by apply Hp].
  - intros (? & ? & p & Hin & Hm). repeat split; [done..|].
    exists p. split; [by apply list_elem_of_In|by apply Hp].
Qed.

(** X4. The aggregation, exactly, for every list of routes: a listener is
    returned if and only if it is the listener of a hostname of a listed
    route that is not being deleted, carries the enabled annotation "true",
    and has a parent reference, at any position, whose name is the
    gateway's and whose namespace is the gateway's or is absent, whatever
    the namespace of the route. *)
Theorem aggregation_exact gatewayName gatewayNamespace (items : list HTTPRoute) l :
  l ∈ collectListeners gatewayName gatewayNamespace items
  ↔ ∃ rt h,
      rt ∈ items
      ∧ timeIsZero (rtDeletionTimestamp rt) = true
      ∧ annot (rtAnnotations rt) AnnotationUseHttprouteOperator = "true"
      ∧ (∃ parentRef, parentRef ∈ rtParentRefs rt
                      ∧ namedBy gatewayName gatewayNamespace parentRef)
      ∧ h ∈ rtHostnames rt
      ∧ l = createHTTPSListener h gatewayNamespace.
Proof.
  destruct (collectListeners_exact gatewayName gatewayNamespace items) as [_ Hiff].
  rewrite Hiff. split.
  - intros (rt & h & Hin & Hc & Hh & ->). apply contributes_namedBy in Hc.
    exists rt, h. naive_solver.
  - intros (rt & h & Hin & Hz & He & Hp & Hh & ->). exists rt, h.
    split; [done|]. split; [|done]. by apply contributes_namedBy.
Qed.

Lemma aggregation_exact_witness :
  createHTTPSListener "a.example.com" "team-b"
  ∈ collectListeners "g1" "team-b" [Ex.teamA].
Proof.
  apply (aggregation_exact "g1" "team-b" [Ex.teamA]).
  exists Ex.teamA, "a.example.com".
  split; [by left|]. split; [reflexivity|]. split; [reflexivity|].
  split; [|split; [by left|reflexivity]].
  exists (Ex.ref "g1"). split; [by left|]. split; [reflexivity|by left].
Defined.

Lemma scanParentRefs_counts gatewayName gatewayNamespace rt refs acc :
  routeCount (scanParentRefs gatewayName gatewayNamespace rt refs acc)
  = (routeCount acc
     + if existsb (parentRefMatches gatewayName gatewayNamespace) refs then 1 else 0)%nat
  ∧ skippedCount (scanParentRefs gatewayName gatewayNamespace rt refs acc)
    = skippedCount acc.
Proof.
  induction refs as [|parentRef refs IH]; simpl; [split; [lia|done]|].
  destruct (parentRefMatches gatewayName gatewayNamespace parentRef); simpl; [|done].
  split; [lia|done].
Qed.

Lemma collectRoute_counts gatewayName gatewayNamespace acc rt :
  routeCount (collectRoute gatewayName gatewayNamespace acc rt)
  = (routeCount acc + if contributes gatewayName gatewayNamespace rt then 1 else 0)%nat
  ∧ skippedCount (collectRoute gatewayName gatewayNamespace acc rt)
    = (skippedCount acc + if activeAndEnabled rt then 0 else 1)%nat.
Proof.
  unfold collectRoute, contributes, activeAndEnabled.
  destruct (timeIsZero (rtDeletionTimestamp rt)); simpl; [|split; lia].
  destruct (operatorEnabled rt); simpl; [|split; lia].
  destruct (scanParentRefs_counts gatewayName gatewayNamespace rt (rtParentRefs rt) acc)
    as [-> ->].
  split; lia.
Qed.

Lemma collected_counts gatewayName gatewayNamespace (items : list HTTPRoute) acc :
  routeCount (foldl (collectRoute gatewayName gatewayNamespace) acc items)
  = (routeCount acc
     + length (List.filter (contributes gatewayName gatewayNamespace) items))%nat
  ∧ skippedCount (foldl (collectRoute gatewayName gatewayNamespace) acc items)
    = (skippedCount acc
       + length (List.filter (λ rt, negb (activeAndEnabled rt)) items))%nat.
Proof.
  revert acc. induction items as [|rt items IH]; intros acc; simpl; [split; lia|].
  destruct (IH (collectRoute gatewayName gatewayNamespace acc rt)) as [-> ->].
  destruct (collectRoute_counts gatewayName gatewayNamespace acc rt) as [-> ->].
  destruct (contributes gatewayName gatewayNamespace rt), (activeAndEnabled rt);
    simpl; split; lia.
Qed.

(** X5. The counters the aggregation logs: the active count is the number
    of routes that contribute, the skipped count is the number of routes
    that are being deleted or are not enabled, and a route that is active
    and enabled but names another gateway is counted in neither; so the
    two never add up to more than the number of listed routes. *)
Theorem aggregation_counters gatewayName gatewayNamespace (items : list HTTPRoute) :
  let collected := collectHostnames gatewayName gatewayNamespace items in
  routeCount collected
  = length (List.filter (contributes gatewayName gatewayNamespace) items)
  ∧ skippedCount collected
    = length (List.filter (λ rt, negb (activeAndEnabled rt)) items)
  ∧ (routeCount collected + skippedCount collected ≤ length items)%nat.
Proof.
  unfold collectHostnames.
  destruct (collected_counts gatewayName gatewayNamespace items emptyCollected)
    as [Hr Hs].
  simpl in Hr, Hs. cbv zeta. rewrite Hr, Hs. split; [done|]. split; [done|].
  clear Hr Hs. induction items as [|rt items IH]; simpl; [lia|].
  unfold contributes at 1.
  destruct (activeAndEnabled rt); simpl.
  - destruct (existsb _ _); simpl; lia.
  - lia.
Qed.

(** X6. A route that is being deleted, or that does not carry the enabled
    annotation "true", contributes nothing: the aggregation over a list
    with it is the aggregation over the list without it.  The deletion path
    relies on this to drop the hostnames of the route it handles. *)
Theorem inactive_route_contributes_nothing gatewayName gatewayNamespace
    (before after : list HTTPRoute) rt :
  timeIsZero (rtDeletionTimestamp rt) = false
  ∨ annot (rtAnnotations rt) AnnotationUseHttprouteOperator ≠ "true" →
  collectListeners gatewayName gatewayNamespace (before ++ rt :: after)
  = collectListeners gatewayName gatewayNamespace (before ++ after).
Proof.
  intros Hinactive.
  assert (contributes gatewayName gatewayNamespace rt = false) as Hc.
  { apply not_true_is_false. intros Hc.
    apply contributes_namedBy in Hc as (Hz & He & _).
    destruct Hinactive as [Hd|Hd]; [by rewrite Hz in Hd|done]. }
  unfold collectListeners. f_equal. apply set_eq. intros h.
  rewrite !elem_of_collectHostnames. split.
  - intros (rt' & Hin & Hc' & Hh). exists rt'. split; [|done].
    apply elem_of_app in Hin as [Hin|Hin]; [apply elem_of_app; by left|].
    apply elem_of_cons in Hin as [->|Hin]; [by rewrite Hc in Hc'|].
    apply elem_of_app. by right.
  - intros (rt' & Hin & Hc' & Hh). exists rt'. split; [|done].
    apply elem_of_app in Hin as [Hin|Hin]; apply elem_of_app; [by left|].
    right. by right.
Qed.

Lemma inactive_route_contributes_nothing_witness :
  collectListeners "g1" "ns" ([Ex.first] ++ Ex.leaving :: [ExMore.disabled])
  = collectListeners "g1" "ns" ([Ex.first] ++ [ExMore.disabled])
  ∧ collectListeners "g1" "ns" ([Ex.first] ++ ExMore.disabled :: [])
    = collectListeners "g1" "ns" ([Ex.first] ++ []).
Proof.
  split.
  - apply inactive_route_contributes_nothing. by left.
  - apply inactive_route_contributes_nothing. right. vm_compute. discriminate.
Defined.

(** ** The annotation bookkeeping *)

(** X7. The bookkeeping of [Reconcile] on the annotations is idempotent.
    After it the reconciled marker is present and the previous-gateway
    annotation is the current reference, every other key is as before, a
    second pass over its result needs no update, and an update is needed
    exactly when the map changes. *)
Theorem annotation_sync_is_idempotent (annotations : gmap string string)
    currentGatewayRef :
  let synced := (syncedAnnotations annotations currentGatewayRef).1 in
  let needsUpdate := (syncedAnnotations annotations currentGatewayRef).2 in
  is_Some (synced !! reconcileAnnotationKey)
  ∧ annot synced previousGatewayAnnotationKey = currentGatewayRef
  ∧ (∀ k, k ≠ reconcileAnnotationKey → k ≠ previousGatewayAnnotationKey →
          synced !! k = annotations !! k)
  ∧ syncedAnnotations synced currentGatewayRef = (synced, false)
  ∧ (needsUpdate = false ↔ synced = annotations).
Proof.
  cbv zeta.
  assert (reconcileAnnotationKey ≠ previousGatewayAnnotationKey) as Hne by done.
  assert (is_Some ((syncedAnnotations annotations currentGatewayRef).1
                     !! reconcileAnnotationKey)
          ∧ annot (syncedAnnotations annotations currentGatewayRef).1
              previousGatewayAnnotationKey = currentGatewayRef
          ∧ (∀ k, k ≠ reconcileAnnotationKey → k ≠ previousGatewayAnnotationKey →
                  (syncedAnnotations annotations currentGatewayRef).1 !! k
                  = annotations !! k)
          ∧ ((syncedAnnotations annotations currentGatewayRef).2 = false
             ↔ (syncedAnnotations annotations currentGatewayRef).1 = annotations))
    as (Hmarker & Hprev & Hkeep & Hneeds).
  { unfold syncedAnnotations.
    destruct (annotations !! reconcileAnnotationKey) as [v|] eqn:Hm.
    - destruct (bool_decide (annot annotations previousGatewayAnnotationKey
                             ≠ currentGatewayRef)) eqn:Hp; simpl.
      + apply bool_decide_eq_true in Hp.
        split; [rewrite lookup_insert_ne by done; by eexists|].
        split; [unfold annot; by rewrite lookup_insert_eq|].
        split; [intros k ? ?; by rewrite lookup_insert_ne|].
        split; [done|]. intros Heq. exfalso. apply Hp.
        rewrite <- Heq. unfold annot. by rewrite lookup_insert_eq.
      + apply bool_decide_eq_false in Hp. apply dec_stable in Hp.
        split; [by eexists|]. by repeat split.
    - destruct (bool_decide
                  (annot (<[reconcileAnnotationKey:="true"]> annotations)
                     previousGatewayAnnotationKey ≠ currentGatewayRef)) eqn:Hp; simpl.
      + split; [rewrite lookup_insert_ne by done; rewrite lookup_insert_eq; by eexists|].
        split; [unfold annot; by rewrite lookup_insert_eq|].
        split; [intros k ? ?; by rewrite !lookup_insert_ne|].
        split; [done|]. intros Heq. rewrite <- Heq in Hm.
        rewrite lookup_insert_ne in Hm by done. by rewrite lookup_insert_eq in Hm.
      + apply bool_decide_eq_false in Hp. apply dec_stable in Hp.
        split; [rewrite lookup_insert_eq; by eexists|].
        split; [done|].
        split; [intros k ? ?; by rewrite lookup_insert_ne|].
        split; [done|]. intros Heq. rewrite <- Heq in Hm.
        by rewrite lookup_insert_eq in Hm. }
  split; [done|]. split; [done|]. split; [done|]. split; [|done].
  by apply syncedAnnotations_settled.
Qed.

Lemma annotation_sync_is_idempotent_witness :
  syncedAnnotations (syncedAnnotations Ex.enabled "ns/g1").1 "ns/g1"
  = ((syncedAnnotations Ex.enabled "ns/g1").1, false)
  ∧ (syncedAnnotations Ex.enabled "ns/g1").1 !! AnnotationUseHttprouteOperator
    = Ex.enabled !! AnnotationUseHttprouteOperator.
Proof.
  destruct (annotation_sync_is_idempotent Ex.enabled "ns/g1")
    as (_ & _ & Hkeep & Hidem & _).
  split; [exact Hidem|]. apply Hkeep; vm_compute; discriminate.
Defined.

(** ** Loading the route *)

(** X8. A route that cannot be loaded ends the run before anything else
    happens: not-found is success, any other error of the read is
    returned as it is, and in both cases no event is issued; in a quiet
    world a request for a route that is not stored leaves the world as it
    is. *)
Theorem load_failure_ends_the_run req :
  (∀ w w1 ev,
     clientGetRoute req w = (Err ErrNotFound, w1, ev) →
     Reconcile req w = (Ok tt, w1, []))
  ∧ (∀ w e w1 ev,
       clientGetRoute req w = (Err e, w1, ev) → e ≠ ErrNotFound →
       Reconcile req w = (Err e, w1, []))
  ∧ (∀ st,
       findObj routeKey req (stRoutes st) = None →
       Reconcile req (quiet st) = (Ok tt, quiet st, [])).
Proof.
  split; [|split].
  - intros w w1 ev Hget. pose proof (call_events _ _ _ _ _ _ Hget) as ->.
    unfold Reconcile. by step_with Hget.
  - intros w e w1 ev Hget Hne. pose proof (call_events _ _ _ _ _ _ Hget) as ->.
    unfold Reconcile. step_with Hget. by destruct e.
  - intros st Habs. unfold Reconcile.
    assert (clientGetRoute req (quiet st) = (Err ErrNotFound, quiet st, [])) as Hget.
    { unfold clientGetRoute. rewrite call_quiet, Habs. by destruct st. }
    by step_with Hget.
Qed.

Lemma load_failure_ends_the_run_witness :
  Reconcile ("ns", "gone") (quiet (Ex.store [Ex.first] []))
  = (Ok tt, quiet (Ex.store [Ex.first] []), [])
  ∧ Reconcile ("ns", "r1")
      {| wStore := Ex.store [Ex.first] []; wScript := ExMore.firstFails; wMapOrder := [] |}
    = (Err (ErrInternal "timeout"), quiet (Ex.store [Ex.first] []), []).
Proof.
  destruct (load_failure_ends_the_run ("ns", "gone")) as (_ & _ & Hquiet).
  destruct (load_failure_ends_the_run ("ns", "r1")) as (_ & Hfail & _).
  split.
  - by apply Hquiet.
  - apply (Hfail _ _ _ []); [reflexivity|discriminate].
Defined.

(** ** Adding the finalizer *)

Lemma Reconcile_live req w httpRoute parentRef rest w1 ev :
  clientGetRoute req w = (Ok httpRoute, w1, ev) →
  operatorEnabled httpRoute = true →
  rtParentRefs httpRoute = parentRef :: rest →
  timeIsZero (rtDeletionTimestamp httpRoute) = true →
  Reconcile req w
  = reconcileLive req httpRoute (prName parentRef)
      (default (rtNamespace httpRoute) (prNamespace parentRef)) w1.
Proof.
  intros Hget He Hrefs Hlive. pose proof (call_events _ _ _ _ _ _ Hget) as ->.
  unfold Reconcile. step_with Hget. rewrite He, Hrefs. cbn [negb].
  unfold effectiveGateway. cbv beta iota. rewrite Hlive. cbn [negb].
  by destruct (reconcileLive _ _ _ _ w1) as [[? ?] ?].
Qed.

Lemma reconcileLive_unmoved req httpRoute gatewayName gatewayNamespace w :
  annot (rtAnnotations httpRoute) previousGatewayAnnotationKey = ""
  ∨ annot (rtAnnotations httpRoute) previousGatewayAnnotationKey
    = gatewayNamespace +:+ "/" +:+ gatewayName →
  reconcileLive req httpRoute gatewayName gatewayNamespace w
  = reconcileFinalized req httpRoute gatewayName gatewayNamespace
      (gatewayNamespace +:+ "/" +:+ gatewayName) w.
Proof.
  intros Hprev. unfold reconcileLive.
  assert (bool_decide
            (annot (rtAnnotations httpRoute) previousGatewayAnnotationKey ≠ "")
          && bool_decide
               (annot (rtAnnotations httpRoute) previousGatewayAnnotationKey
                ≠ gatewayNamespace +:+ "/" +:+ gatewayName) = false) as ->.
  { destruct Hprev as [->| ->].
    - by rewrite (bool_decide_eq_false_2 ("" ≠ "")) by (by intros ?).
    - rewrite (bool_decide_eq_false_2 (_ +:+ _ ≠ _ +:+ _)) by (by intros ?).
      apply andb_false_r. }
  erewrite bind_ok by reflexivity.
  by destruct (reconcileFinalized _ _ _ _ _ w) as [[? ?] ?].
Qed.

(** The old-gateway step of [Reconcile] in a quiet world. *)
Lemma oldGatewayStep_quiet (previousGatewayRef currentGatewayRef : string) st :
  ∃ st1 ev1,
    (if bool_decide (previousGatewayRef ≠ "")
        && bool_decide (previousGatewayRef ≠ currentGatewayRef)
     then
       r <- attempt (updateOldGateway previousGatewayRef) ;;
       match r with
       | Err _ => logError "Failed to update old gateway listeners"
       | Ok _ => ret tt
       end
     else ret tt) (quiet st) = (Ok tt, quiet st1, ev1)
    ∧ stRoutes st1 = stRoutes st
    ∧ (∀ k, findObj gatewayKey k (stGateways st) = None →
            findObj gatewayKey k (stGateways st1) = None)
    ∧ Forall (λ e, ∀ g, e ≠ EvCreateGateway g) ev1
    ∧ (previousGatewayRef = "" ∨ previousGatewayRef = currentGatewayRef →
       st1 = st ∧ ev1 = []).
Proof.
  destruct (bool_decide (previousGatewayRef ≠ "")
            && bool_decide (previousGatewayRef ≠ currentGatewayRef)) eqn:Hmoved.
  - destruct (updateOldGateway_quiet previousGatewayRef st)
      as (r & st1 & evs & Hrun & Hroutes & Hkeep & Hevs).
    apply andb_true_iff in Hmoved as [H1 H2].
    apply bool_decide_eq_true in H1, H2.
    erewrite bind_ok by (apply attempt_run, Hrun).
    destruct r as [[]|e].
    + exists st1, (evs ++ []). split; [done|]. split; [done|]. split; [done|].
      split; [by rewrite app_nil_r|]. by intros [?|?].
    + exists st1, (evs ++ [EvLogError "Failed to update old gateway listeners"]).
      split; [done|]. split; [done|]. split; [done|].
      split; [|by intros [?|?]].
      apply Forall_app_2; [done|]. by repeat constructor.
  - exists st, []. by repeat split.
Qed.

Lemma AddFinalizer_fresh rt f :
  ContainsFinalizer rt f = false →
  AddFinalizer rt f = setFinalizers rt (rtFinalizers rt ++ [f])
  ∧ ContainsFinalizer (AddFinalizer rt f) f = true.
Proof.
  intros H. unfold AddFinalizer. rewrite H. split; [done|].
  unfold ContainsFinalizer. simpl. apply bool_decide_eq_true, elem_of_app.
  right. by left.
Qed.

(** X9. The first run on a route without the finalizer adds the finalizer
    and stops.  In a quiet world, for a stored route that is enabled, not
    being deleted and has a parent reference, the run succeeds and its
    last and only route write is the update that appends the finalizer
    (the other finalizers stay); before it only the old gateway of a moved
    route may be synchronised.  No annotation is patched and no gateway
    is created: a target gateway that did not exist still does not exist
    after the run. *)
Theorem first_run_adds_the_finalizer_and_stops st req httpRoute parentRef :
  findObj routeKey req (stRoutes st) = Some httpRoute →
  operatorEnabled httpRoute = true →
  head (rtParentRefs httpRoute) = Some parentRef →
  timeIsZero (rtDeletionTimestamp httpRoute) = true →
  ContainsFinalizer httpRoute httprouteFinalizerName = false →
  ∃ st' before,
    Reconcile req (quiet st)
    = (Ok tt, quiet st',
       before ++ [EvUpdateRoute
                    (setFinalizers httpRoute
                       (rtFinalizers httpRoute ++ [httprouteFinalizerName]))])
    ∧ findObj routeKey req (stRoutes st')
      = Some (setFinalizers httpRoute
                (rtFinalizers httpRoute ++ [httprouteFinalizerName]))
    ∧ Forall (λ e, ∀ g, e ≠ EvCreateGateway g) before
    ∧ (∀ k, findObj gatewayKey k (stGateways st) = None →
            findObj gatewayKey k (stGateways st') = None)
    ∧ (annot (rtAnnotations httpRoute) previousGatewayAnnotationKey = ""
       ∨ annot (rtAnnotations httpRoute) previousGatewayAnnotationKey
         = (effectiveGateway httpRoute parentRef).1 +:+ "/"
             +:+ (effectiveGateway httpRoute parentRef).2 →
       before = [] ∧ stGateways st' = stGateways st).
Proof.
  intros Hr He Hp Hl Hf.
  destruct (rtParentRefs httpRoute) as [|p rest] eqn:Hrefs; [done|].
  injection Hp as ->.
  set (gatewayNamespace := default (rtNamespace httpRoute) (prNamespace parentRef)).
  set (gatewayName := prName parentRef).
  set (currentGatewayRef := gatewayNamespace +:+ "/" +:+ gatewayName).
  set (previousGatewayRef := annot (rtAnnotations httpRoute) previousGatewayAnnotationKey).
  destruct (oldGatewayStep_quiet previousGatewayRef currentGatewayRef st)
    as (st1 & ev1 & Hold & Hroutes & Hkeep & Hev1 & Hunmoved).
  destruct (AddFinalizer_fresh _ _ Hf) as [Hadd _].
  set (added := setFinalizers httpRoute
                  (rtFinalizers httpRoute ++ [httprouteFinalizerName])) in *.
  assert (routeKey added = req) as Hkey by exact (findObj_key _ _ _ _ Hr).
  exists {| stRoutes := putObj routeKey added (stRoutes st1);
            stGateways := stGateways st1 |}, ev1.
  split; [|split; [|split; [done|split; [done|]]]].
  - rewrite (Reconcile_live _ _ _ _ _ _ _ (clientGetRoute_quiet _ _ _ Hr) He Hrefs Hl).
    unfold reconcileLive.
    fold gatewayNamespace gatewayName currentGatewayRef previousGatewayRef.
    erewrite bind_ok by exact Hold.
    unfold reconcileFinalized. rewrite Hf. cbn [negb].
    assert (RetryOnConflict (addFinalizerOnce req) (quiet st1)
            = (Ok tt,
               quiet {| stRoutes := putObj routeKey added (stRoutes st1);
                        stGateways := stGateways st1 |},
               [EvUpdateRoute added])) as Hloop.
    { apply RetryOnConflict_settles; [|done].
      unfold addFinalizerOnce.
      erewrite bind_ok by (apply clientGetRoute_quiet; rewrite Hroutes; exact Hr).
      rewrite Hf, Hadd. fold added.
      rewrite (clientUpdateRoute_quiet added st1 httpRoute).
      - unfold added at 1. cbn [rtDeletionTimestamp setFinalizers].
        rewrite Hl. reflexivity.
      - rewrite Hroutes. etrans; [|exact Hr]. by f_equal. }
    erewrite bind_ok by (apply attempt_run, Hloop).
    reflexivity.
  - cbn [stRoutes]. rewrite <- Hkey. apply findObj_putObj.
  - intros Hprev. destruct (Hunmoved Hprev) as [-> ->]. done.
Qed.

Lemma first_run_adds_the_finalizer_and_stops_witness :
  Reconcile ("ns", "r1") (quiet (Ex.store [ExMore.fresh] []))
  = (Ok tt, quiet (Ex.store [ExMore.finalized] []), [EvUpdateRoute ExMore.finalized]).
Proof.
  destruct (first_run_adds_the_finalizer_and_stops (Ex.store [ExMore.fresh] [])
              ("ns", "r1") ExMore.fresh (Ex.ref "g1"))
    as (st' & before & Hrun & Hstored & _ & _ & Hunmoved); [reflexivity..|].
  destruct Hunmoved as [-> Hg]; [by left|].
  rewrite Hrun. f_equal. f_equal.
  destruct st' as [routes gateways]. cbn [stGateways stRoutes] in *. subst gateways.
  revert Hrun. vm_compute. by intros [= <-].
Defined.

(** X10. Unlike the removal, the addition of the finalizer does not
    tolerate a route that is gone.  For a loaded route that is enabled,
    not being deleted, without the finalizer and not moved, when the read
    inside the retry closure fails with anything but a conflict, not-found
    included, [Reconcile] logs and returns that error, and issues no
    write. *)
Theorem finalizer_addition_fails_when_route_is_gone
    req w httpRoute parentRef rest w1 ev e w2 ev2 :
  clientGetRoute req w = (Ok httpRoute, w1, ev) →
  operatorEnabled httpRoute = true →
  rtParentRefs httpRoute = parentRef :: rest →
  timeIsZero (rtDeletionTimestamp httpRoute) = true →
  ContainsFinalizer httpRoute httprouteFinalizerName = false →
  annot (rtAnnotations httpRoute) previousGatewayAnnotationKey = ""
  ∨ annot (rtAnnotations httpRoute) previousGatewayAnnotationKey
    = default (rtNamespace httpRoute) (prNamespace parentRef) +:+ "/"
        +:+ prName parentRef →
  clientGetRoute req w1 = (Err e, w2, ev2) →
  IsConflict e = false →
  Reconcile req w = (Err e, w2, [EvLogError "Failed to add finalizer"]).
Proof.
  intros Hget He Hrefs Hl Hf Hprev Hget2 Hnc.
  rewrite (Reconcile_live _ _ _ _ _ _ _ Hget He Hrefs Hl).
  rewrite (reconcileLive_unmoved _ _ _ _ _ Hprev).
  unfold reconcileFinalized. rewrite Hf. cbn [negb].
  pose proof (call_events _ _ _ _ _ _ Hget2) as ->.
  assert (RetryOnConflict (addFinalizerOnce req) w1 = (Err e, w2, [])) as Hloop.
  { apply RetryOnConflict_settles; [|done].
    unfold addFinalizerOnce. by erewrite bind_err by exact Hget2. }
  erewrite bind_ok by (apply attempt_run, Hloop). reflexivity.
Qed.

Lemma finalizer_addition_fails_when_route_is_gone_witness :
  Reconcile ("ns", "r1")
    {| wStore := Ex.store [ExMore.fresh] []; wScript := ExMore.secondNotFound; wMapOrder := [] |}
  = (Err ErrNotFound, quiet (Ex.store [ExMore.fresh] []),
     [EvLogError "Failed to add finalizer"]).
Proof.
  apply (finalizer_addition_fails_when_route_is_gone ("ns", "r1") _ ExMore.fresh
           (Ex.ref "g1") []
           {| wStore := Ex.store [ExMore.fresh] [];
              wScript := tail ExMore.secondNotFound; wMapOrder := [] |} [] ErrNotFound _ []);
    try reflexivity.
  by left.
Defined.

(** ** The writes of a run *)

Lemma writeCount_app (a b : list Event) :
  writeCount (a ++ b) = (writeCount a + writeCount b)%nat.
Proof. unfold writeCount, writes. by rewrite List.filter_app, length_app. Qed.

Lemma writeCount_le_length (evs : list Event) : (writeCount evs ≤ length evs)%nat.
Proof.
  unfold writeCount, writes. induction evs as [|e evs IH]; simpl; [lia|].
  destruct (isWrite e); simpl; lia.
Qed.

Lemma call_writes {A : Type} e (op : Store → Result A * Store) w r w1 evs :
  call [e] op w = (r, w1, evs) → (writeCount evs ≤ 1)%nat.
Proof.
  intros H. apply call_events in H as ->. unfold writeCount, writes. simpl.
  destruct (isWrite e); simpl; lia.
Qed.

Lemma updateGatewayListeners_writes gateway gatewayNamespace w r w1 evs :
  updateGatewayListeners gateway gatewayNamespace w = (r, w1, evs) →
  (writeCount evs ≤ 1)%nat.
Proof.
  intros H. apply updateGatewayListeners_events in H as [->|[->|(ls & _ & ->)]];
    unfold writeCount; simpl; lia.
Qed.

Lemma updateOldGateway_writes gatewayRef w r w1 evs :
  updateOldGateway gatewayRef w = (r, w1, evs) → (writeCount evs ≤ 1)%nat.
Proof.
  intros H. apply updateOldGateway_events in H
    as [->|[->|[(g & ->)|(p & _ & _ & ->)]]]; unfold writeCount; simpl; lia.
Qed.

Lemma logged_failure_writes {A : Type} msg e w (r : Result A) w1 evs :
  (logError msg ;;; fail e) w = (r, w1, evs) → writeCount evs = 0%nat.
Proof. by intros [= _ _ <-]. Qed.

Lemma createGateway_writes gatewayName gatewayNamespace ipamZone clusterIssuer w r w1 evs :
  createGateway gatewayName gatewayNamespace ipamZone clusterIssuer w = (r, w1, evs) →
  (writeCount evs ≤ 1)%nat.
Proof.
  unfold createGateway. intros H.
  apply bind_inv in H as [(rc & w2 & ev1 & ev2 & Hc & Hk & ->)|(e & Hc & ->)].
  2: { apply attempt_inv in Hc as (? & _ & ?). done. }
  apply attempt_inv in Hc as (rc0 & Hc & [= ->]).
  apply collectListenersForGateway_inv in Hc as [-> _]. cbn [app].
  destruct rc0 as [listeners|e].
  - apply bind_inv in Hk as [(rk & w3 & ev3 & ev4 & Hcr & Hk & ->)|(e & Hcr & ->)].
    2: { apply attempt_inv in Hcr as (? & _ & ?). done. }
    apply attempt_inv in Hcr as (rk0 & Hcr & [= ->]).
    apply call_writes in Hcr. rewrite writeCount_app.
    destruct rk0 as [[]|e].
    + injection Hk as _ _ <-. unfold writeCount at 2. simpl. lia.
    + apply logged_failure_writes in Hk. lia.
  - apply logged_failure_writes in Hk. lia.
Qed.

Lemma ensureGateway_writes gatewayName gatewayNamespace ipamZone clusterIssuer w r w1 evs :
  ensureGateway gatewayName gatewayNamespace ipamZone clusterIssuer w = (r, w1, evs) →
  (writeCount evs ≤ 1)%nat.
Proof.
  unfold ensureGateway. intros H.
  apply bind_inv in H as [(rg & w2 & ev1 & ev2 & Hg & Hk & ->)|(e & Hg & ->)].
  2: { apply attempt_inv in Hg as (? & _ & ?). done. }
  apply attempt_inv in Hg as (rg0 & Hg & [= ->]).
  apply call_events in Hg as ->. cbn [app].
  destruct rg0 as [gateway|e].
  - destruct (bool_decide (_ ≠ clusterIssuer)).
    { apply logged_failure_writes in Hk. lia. }
    destruct (recordedZone gateway) as [z|].
    + destruct (bool_decide (z ≠ ipamZone)).
      * apply logged_failure_writes in Hk. lia.
      * by apply updateGatewayListeners_writes in Hk.
    + by apply updateGatewayListeners_writes in Hk.
  - destruct (IsNotFound e).
    + by apply createGateway_writes in Hk.
    + apply logged_failure_writes in Hk. lia.
Qed.

Lemma reconcileGateway_writes httpRoute gatewayName gatewayNamespace currentGatewayRef
    w r w1 evs :
  reconcileGateway httpRoute gatewayName gatewayNamespace currentGatewayRef w
  = (r, w1, evs) →
  (writeCount evs ≤ 2)%nat.
Proof.
  unfold reconcileGateway.
  destruct (syncedAnnotations (rtAnnotations httpRoute) currentGatewayRef)
    as [annotations needsUpdate].
  intros H.
  apply bind_inv in H as [(u & w2 & ev1 & ev2 & Hp & Hk & ->)|(e & Hp & ->)].
  - assert (writeCount ev1 ≤ 1)%nat as H1.
    { destruct needsUpdate.
      - apply bind_inv in Hp as [(rp & w3 & ev3 & ev4 & Ha & Hp & ->)|(e & Ha & ?)].
        2: { apply attempt_inv in Ha as (? & _ & ?). done. }
        apply attempt_inv in Ha as (rp0 & Ha & [= ->]).
        apply call_writes in Ha. rewrite writeCount_app.
        destruct rp0 as [[]|e].
        + injection Hp as _ _ <-. unfold writeCount at 2. simpl. lia.
        + apply logged_failure_writes in Hp. lia.
      - injection Hp as _ _ <-. unfold writeCount. simpl. lia. }
    clear Hp. rewrite writeCount_app.
    apply bind_inv in Hk as [(re & w3 & ev3 & ev4 & He & Hk & ->)|(e & He & ->)].
    2: { apply attempt_inv in He as (? & _ & ?). done. }
    apply attempt_inv in He as (re0 & He & [= ->]).
    apply ensureGateway_writes in He. rewrite writeCount_app.
    destruct re0 as [[]|e].
    + injection Hk as _ _ <-. unfold writeCount at 3. simpl. lia.
    + apply logged_failure_writes in Hk. lia.
  - destruct needsUpdate; [|done].
    apply bind_inv in Hp as [(rp & w3 & ev3 & ev4 & Ha & Hp & ->)|(e' & Ha & _)].
    2: { apply attempt_inv in Ha as (? & _ & ?). done. }
    apply attempt_inv in Ha as (rp0 & Ha & [= ->]).
    apply call_writes in Ha. rewrite writeCount_app.
    destruct rp0 as [[]|e'].
    + injection Hp as _ _ <-. unfold writeCount at 2. simpl. lia.
    + apply logged_failure_writes in Hp. lia.
Qed.

Lemma addFinalizerOnce_events req w r w1 evs :
  addFinalizerOnce req w = (r, w1, evs) →
  Forall (λ _, True) evs ∧ List.filter isUpdateRoute evs = evs ∧ (length evs ≤ 1)%nat.
Proof.
  unfold addFinalizerOnce. intros H.
  apply bind_inv in H as [(latest & w2 & ev1 & ev2 & Hg & Hk & ->)|(e & Hg & ->)].
  - apply call_events in Hg as ->. cbn [app].
    destruct (ContainsFinalizer latest httprouteFinalizerName).
    + injection Hk as _ _ <-. split; [done|]. split; [done|simpl; lia].
    + apply call_events in Hk as ->. split; [by repeat constructor|].
      split; [done|simpl; lia].
  - apply call_events in Hg as ->. split; [done|]. split; [done|simpl; lia].
Qed.

Lemma reconcileFinalized_writes req httpRoute gatewayName gatewayNamespace
    currentGatewayRef w r w1 evs :
  reconcileFinalized req httpRoute gatewayName gatewayNamespace currentGatewayRef w
  = (r, w1, evs) →
  (writeCount evs ≤ defaultRetrySteps)%nat.
Proof.
  unfold reconcileFinalized.
  destruct (ContainsFinalizer httpRoute httprouteFinalizerName); cbn [negb]; intros H.
  - apply reconcileGateway_writes in H. unfold defaultRetrySteps. lia.
  - apply bind_inv in H as [(rl & w2 & ev1 & ev2 & Hl & Hk & ->)|(e & Hl & ->)].
    2: { apply attempt_inv in Hl as (? & _ & ?). done. }
    apply attempt_inv in Hl as (rl0 & Hl & [= ->]).
    unfold RetryOnConflict in Hl.
    destruct (onConflict_events (λ _, True) (addFinalizerOnce req)
                (addFinalizerOnce_events req) defaultRetrySteps _ _ _ _ _ Hl)
      as (_ & _ & Hlen).
    clear Hl. pose proof (writeCount_le_length ev1) as Hle.
    rewrite writeCount_app.
    destruct rl0 as [[]|e].
    + injection Hk as _ _ <-. unfold writeCount at 2. simpl. lia.
    + apply logged_failure_writes in Hk. lia.
Qed.

Lemma reconcileLive_writes req httpRoute gatewayName gatewayNamespace w r w1 evs :
  reconcileLive req httpRoute gatewayName gatewayNamespace w = (r, w1, evs) →
  (writeCount evs ≤ 1 + defaultRetrySteps)%nat.
Proof.
  unfold reconcileLive. intros H.
  apply bind_inv in H as [(u & w2 & ev1 & ev2 & Hold & Hk & ->)|(e & Hold & ->)].
  - apply reconcileFinalized_writes in Hk. rewrite writeCount_app.
    assert (writeCount ev1 ≤ 1)%nat; [|lia].
    destruct (_ && _).
    + apply bind_inv in Hold as [(ro & w3 & ev3 & ev4 & Ho & Hold & ->)|(e & Ho & ?)].
      2: { apply attempt_inv in Ho as (? & _ & ?). done. }
      apply attempt_inv in Ho as (ro0 & Ho & [= ->]).
      apply updateOldGateway_writes in Ho. rewrite writeCount_app.
      destruct ro0 as [[]|e]; injection Hold as _ _ <-;
        unfold writeCount at 2; simpl; lia.
    + injection Hold as _ _ <-. unfold writeCount. simpl. lia.
  - destruct (_ && _); [|done].
    apply bind_inv in Hold as [(ro & w3 & ev3 & ev4 & Ho & Hold & ->)|(e' & Ho & _)].
    2: { apply attempt_inv in Ho as (? & _ & ?). done. }
    by destruct ro as [[]|?].
Qed.

Lemma handleHTTPRouteDeletion_writes gatewayName gatewayNamespace w r w1 evs :
  handleHTTPRouteDeletion gatewayName gatewayNamespace w = (r, w1, evs) →
  (writeCount evs ≤ 1)%nat.
Proof.
  unfold handleHTTPRouteDeletion. intros H.
  apply bind_inv in H as [(rg & w2 & ev1 & ev2 & Hg & Hk & ->)|(e & Hg & ->)].
  2: { apply attempt_inv in Hg as (? & _ & ?). done. }
  apply attempt_inv in Hg as (rg0 & Hg & [= ->]).
  apply call_events in Hg as ->. cbn [app].
  destruct rg0 as [gateway|e].
  - apply bind_inv in Hk as [(ru & w3 & ev3 & ev4 & Hu & Hk & ->)|(e & Hu & ->)].
    2: { apply attempt_inv in Hu as (? & _ & ?). done. }
    apply attempt_inv in Hu as (ru0 & Hu & [= ->]).
    apply updateGatewayListeners_writes in Hu. rewrite writeCount_app.
    destruct ru0 as [[]|e].
    + injection Hk as _ _ <-. unfold writeCount at 2. simpl. lia.
    + apply logged_failure_writes in Hk. lia.
  - destruct (IsNotFound e).
    + injection Hk as _ _ <-. unfold writeCount. simpl. lia.
    + apply logged_failure_writes in Hk. lia.
Qed.

Lemma reconcileDeleting_writes req httpRoute gatewayName gatewayNamespace w r w1 evs :
  reconcileDeleting req httpRoute gatewayName gatewayNamespace w = (r, w1, evs) →
  (writeCount evs ≤ 1 + defaultRetrySteps)%nat.
Proof.
  unfold reconcileDeleting.
  destruct (ContainsFinalizer httpRoute httprouteFinalizerName); intros H.
  2: { injection H as _ _ <-. unfold writeCount. simpl. lia. }
  apply bind_inv in H as [(rh & w2 & ev1 & ev2 & Hh & Hk & ->)|(e & Hh & ->)].
  2: { apply attempt_inv in Hh as (? & _ & ?). done. }
  apply attempt_inv in Hh as (rh0 & Hh & [= ->]).
  apply handleHTTPRouteDeletion_writes in Hh. rewrite writeCount_app.
  destruct rh0 as [[]|e].
  - apply bind_inv in Hk as [(rl & w3 & ev3 & ev4 & Hl & Hk & ->)|(e & Hl & ->)].
    2: { apply attempt_inv in Hl as (? & _ & ?). done. }
    apply attempt_inv in Hl as (rl0 & Hl & [= ->]).
    unfold RetryOnConflict in Hl.
    destruct (onConflict_events (deletionEvent req req) (removeFinalizerOnce req)
                (λ w0 r0 w0' evs0 H0, removeFinalizerOnce_events _ _ _ _ _ _ H0)
                defaultRetrySteps _ _ _ _ _ Hl) as (_ & _ & Hlen).
    clear Hl. pose proof (writeCount_le_length ev3) as Hle.
    rewrite writeCount_app.
    destruct rl0 as [[]|e].
    + injection Hk as _ _ <-. unfold writeCount at 3. simpl. lia.
    + destruct (IsNotFound e).
      * injection Hk as _ _ <-. unfold writeCount at 3. simpl. lia.
      * apply logged_failure_writes in Hk. lia.
  - apply logged_failure_writes in Hk. lia.
Qed.

(** X11. No run writes without bound.  In every world, whatever the API
    server answers and whatever other writers do, one run of [Reconcile]
    issues at most six write calls: at most one on a gateway before the
    finalizer loop and at most [defaultRetrySteps] updates in it, or at
    most three when the route already holds the finalizer and is not
    being deleted. *)
Theorem run_issues_at_most_six_writes req w r w1 evs :
  Reconcile req w = (r, w1, evs) → (writeCount evs ≤ 6)%nat.
Proof.
  unfold Reconcile. intros H.
  apply bind_inv in H as [(rg & w2 & ev1 & ev2 & Hg & Hk & ->)|(e & Hg & ->)].
  2: { apply attempt_inv in Hg as (? & _ & ?). done. }
  apply attempt_inv in Hg as (rg0 & Hg & [= ->]).
  apply call_events in Hg as ->. cbn [app].
  destruct rg0 as [httpRoute|e].
  - destruct (operatorEnabled httpRoute); cbn [negb] in Hk.
    2: { injection Hk as _ _ <-. unfold writeCount. simpl. lia. }
    destruct (rtParentRefs httpRoute) as [|parentRef rest].
    { injection Hk as _ _ <-. unfold writeCount. simpl. lia. }
    unfold effectiveGateway in Hk. cbv beta iota in Hk.
    destruct (timeIsZero (rtDeletionTimestamp httpRoute)); cbn [negb] in Hk.
    + apply reconcileLive_writes in Hk. unfold defaultRetrySteps in Hk. lia.
    + apply reconcileDeleting_writes in Hk. unfold defaultRetrySteps in Hk. lia.
  - destruct (IsNotFound e); injection Hk as _ _ <-; unfold writeCount; simpl; lia.
Qed.

Lemma run_issues_at_most_six_writes_witness :
  let run :=
    Reconcile ("ns", "r2")
      {| wStore := Ex.store [Ex.leaving] [Ex.gateway "ns" "g1" ["b.example.com"]];
         wScript := Ex.pass :: Ex.pass :: Ex.updatesConflict; wMapOrder := [] |} in
  (writeCount run.2 ≤ 6)%nat ∧ writeCount run.2 = 6%nat.
Proof.
  intros run. split; [|by vm_compute].
  pose proof (run_issues_at_most_six_writes ("ns", "r2")
                {| wStore := Ex.store [Ex.leaving]
                               [Ex.gateway "ns" "g1" ["b.example.com"]];
                   wScript := Ex.pass :: Ex.pass :: Ex.updatesConflict; wMapOrder := [] |}
                run.1.1 run.1.2 run.2) as Hbound.
  apply Hbound. unfold run. by destruct (Reconcile _ _) as [[? ?] ?].
Defined.

(** ** What a synchronisation leaves alone *)

Lemma updateGatewayListeners_quiet_frame gateway gatewayNamespace st found :
  findObj gatewayKey (gatewayKey gateway) (stGateways st) = Some found →
  gwNamespace gateway = gatewayNamespace →
  ∃ st' evs,
    updateGatewayListeners gateway gatewayNamespace (quiet st) = (Ok tt, quiet st', evs)
    ∧ stRoutes st' = stRoutes st
    ∧ ∀ k, k ≠ gatewayKey gateway →
           findObj gatewayKey k (stGateways st') = findObj gatewayKey k (stGateways st).
Proof.
  intros Hfound Hns. unfold updateGatewayListeners.
  erewrite bind_ok by apply collectListenersForGateway_quiet.
  destruct (collectListeners (gwName gateway) gatewayNamespace (stRoutes st))
    as [|l ls]; cbn [length Nat.eqb].
  - rewrite (clientDeleteGateway_quiet gateway st found Hfound).
    eexists _, _. split; [reflexivity|]. split; [done|].
    intros k Hk. cbn [stGateways]. by apply findObj_removeObj_ne.
  - rewrite clientApplyGateway_quiet.
    eexists _, _. split; [reflexivity|]. split; [done|].
    intros k Hk. cbn [afterApply stGateways]. apply findObj_applyGatewayTo_ne.
    unfold gatewayKey in *. simpl. rewrite <- Hns. done.
Qed.

Lemma ensureGateway_quiet_frame gatewayName gatewayNamespace ipamZone clusterIssuer st :
  ∃ r st' evs,
    ensureGateway gatewayName gatewayNamespace ipamZone clusterIssuer (quiet st)
    = (r, quiet st', evs)
    ∧ stRoutes st' = stRoutes st
    ∧ ∀ k, k ≠ (gatewayNamespace, gatewayName) →
           findObj gatewayKey k (stGateways st') = findObj gatewayKey k (stGateways st).
Proof.
  destruct (findObj gatewayKey (gatewayNamespace, gatewayName) (stGateways st))
    as [gateway|] eqn:Hg.
  - pose proof (findObj_key _ _ _ _ Hg) as Hk.
    unfold ensureGateway.
    erewrite bind_ok by (apply attempt_run; rewrite clientGetGateway_quiet, Hg;
                         reflexivity).
    cbn [orNotFound]. cbv beta iota zeta.
    assert (∃ st' evs,
              updateGatewayListeners gateway gatewayNamespace (quiet st)
              = (Ok tt, quiet st', evs)
              ∧ stRoutes st' = stRoutes st
              ∧ ∀ k, k ≠ (gatewayNamespace, gatewayName) →
                     findObj gatewayKey k (stGateways st')
                     = findObj gatewayKey k (stGateways st)) as (st' & evs & Hu & Hr & Hf).
    { rewrite <- Hk.
      apply (updateGatewayListeners_quiet_frame gateway gatewayNamespace st gateway).
      - by rewrite Hk.
      - by injection Hk. }
    destruct (bool_decide (annot (gwAnnotations gateway) clusterIssuerAnnotation
                           ≠ clusterIssuer)).
    { eexists _, st, _. split; [reflexivity|]. by split. }
    destruct (recordedZone gateway) as [z|].
    + destruct (bool_decide (z ≠ ipamZone)).
      * eexists _, st, _. split; [reflexivity|]. by split.
      * rewrite Hu. by eexists _, st', _.
    + rewrite Hu. by eexists _, st', _.
  - rewrite (ensureGateway_creates _ _ _ _ st Hg).
    eexists _, _, _. split; [reflexivity|]. split; [done|].
    intros k Hk. cbn [stGateways]. apply findObj_putObj_ne.
    unfold gatewayKey. simpl. done.
Qed.

Lemma synced_union (annotations : gmap string string) currentGatewayRef :
  (syncedAnnotations annotations currentGatewayRef).1 ∪ annotations
  = (syncedAnnotations annotations currentGatewayRef).1.
Proof.
  unfold syncedAnnotations.
  destruct (annotations !! reconcileAnnotationKey);
    destruct (bool_decide _); simpl;
    rewrite <- ?insert_union_l; by rewrite (idemp_L (∪)).
Qed.

Lemma synced_unchanged (annotations : gmap string string) currentGatewayRef :
  (syncedAnnotations annotations currentGatewayRef).2 = false →
  (syncedAnnotations annotations currentGatewayRef).1 = annotations.
Proof.
  unfold syncedAnnotations.
  destruct (annotations !! reconcileAnnotationKey); destruct (bool_decide _); done.
Qed.

Lemma reconcileGateway_quiet_frame req httpRoute gatewayName gatewayNamespace
    currentGatewayRef st :
  findObj routeKey req (stRoutes st) = Some httpRoute →
  ∃ r st' evs,
    reconcileGateway httpRoute gatewayName gatewayNamespace currentGatewayRef (quiet st)
    = (r, quiet st', evs)
    ∧ findObj routeKey req (stRoutes st')
      = Some (setAnnotations httpRoute
                (syncedAnnotations (rtAnnotations httpRoute) currentGatewayRef).1)
    ∧ ∀ k, k ≠ (gatewayNamespace, gatewayName) →
           findObj gatewayKey k (stGateways st') = findObj gatewayKey k (stGateways st).
Proof.
  intros Hr. pose proof (findObj_key _ _ _ _ Hr) as Hkey.
  unfold reconcileGateway.
  pose proof (synced_union (rtAnnotations httpRoute) currentGatewayRef) as Hunion.
  pose proof (synced_unchanged (rtAnnotations httpRoute) currentGatewayRef) as Hsame.
  destruct (syncedAnnotations (rtAnnotations httpRoute) currentGatewayRef)
    as [annotations needsUpdate]. cbn [fst snd] in *.
  destruct needsUpdate.
  - set (st1 := {| stRoutes := applyRouteTo (annotationsPatch httpRoute annotations)
                                 (stRoutes st);
                   stGateways := stGateways st |}).
    destruct (ensureGateway_quiet_frame gatewayName gatewayNamespace
                (effectiveZone annotations) (effectiveIssuer annotations) st1)
      as (r & st' & evs & He & Hroutes & Hframe).
    assert (findObj routeKey req (stRoutes st1)
            = Some (setAnnotations httpRoute annotations)) as Hstored.
    { unfold st1. cbn [stRoutes]. unfold applyRouteTo.
      change (routeKey (annotationsPatch httpRoute annotations))
        with (routeKey httpRoute).
      rewrite Hkey, Hr. cbn [rtAnnotations annotationsPatch]. rewrite Hunion.
      rewrite <- Hkey at 1.
      change (routeKey httpRoute)
        with (routeKey (setAnnotations httpRoute annotations)).
      apply findObj_putObj. }
    erewrite bind_ok.
    2: { erewrite bind_ok by apply attempt_run, clientApplyRoute_quiet. reflexivity. }
    fold st1. erewrite bind_ok by (apply attempt_run, He).
    destruct r as [[]|e].
    + eexists _, st', _. split; [reflexivity|]. split; [by rewrite Hroutes|done].
    + eexists _, st', _. split; [reflexivity|]. split; [by rewrite Hroutes|done].
  - specialize (Hsame eq_refl). subst annotations.
    destruct (ensureGateway_quiet_frame gatewayName gatewayNamespace
                (effectiveZone (rtAnnotations httpRoute))
                (effectiveIssuer (rtAnnotations httpRoute)) st)
      as (r & st' & evs & He & Hroutes & Hframe).
    assert (setAnnotations httpRoute (rtAnnotations httpRoute) = httpRoute) as ->
      by (by destruct httpRoute).
    erewrite bind_ok by reflexivity.
    erewrite bind_ok by (apply attempt_run, He).
    destruct r as [[]|e].
    + eexists _, st', _. split; [reflexivity|]. split; [by rewrite Hroutes|done].
    + eexists _, st', _. split; [reflexivity|]. split; [by rewrite Hroutes|done].
Qed.



(** ** Issuer and zone defaults *)

(** X13. The issuer and the zone a route stands for are never empty: a
    missing or empty annotation is replaced by the default.  Hence a
    gateway that carries no cluster-issuer annotation is rejected for
    every route, whatever the route declares, and is not written to. *)
Theorem gateway_without_issuer_is_never_adopted :
  (∀ annotations : gmap string string,
     effectiveIssuer annotations ≠ "" ∧ effectiveZone annotations ≠ ""
     ∧ (annot annotations AnnotationClusterIssuer = "" →
        effectiveIssuer annotations = "internpki")
     ∧ (annot annotations AnnotationIPAMZone = "" →
        effectiveZone annotations = "hnet-private"))
  ∧ (∀ gatewayName gatewayNamespace (annotations : gmap string string)
       w gateway w1 ev,
       clientGetGateway (gatewayNamespace, gatewayName) w = (Ok gateway, w1, ev) →
       gwAnnotations gateway !! clusterIssuerAnnotation = None →
       ∃ evs,
         ensureGateway gatewayName gatewayNamespace (effectiveZone annotations)
           (effectiveIssuer annotations) w
         = (Err (issuerMismatch "" (effectiveIssuer annotations)), w1, evs)
         ∧ writes evs = []).
Proof.
  assert (∀ annotations : gmap string string,
            effectiveIssuer annotations ≠ "" ∧ effectiveZone annotations ≠ ""
            ∧ (annot annotations AnnotationClusterIssuer = "" →
               effectiveIssuer annotations = "internpki")
            ∧ (annot annotations AnnotationIPAMZone = "" →
               effectiveZone annotations = "hnet-private")) as Hdefault.
  { intros annotations. unfold effectiveIssuer, effectiveZone.
    repeat case_bool_decide; repeat split; done. }
  split; [exact Hdefault|].
  intros gatewayName gatewayNamespace annotations w gateway w1 ev Hget Hmissing.
  destruct (Hdefault annotations) as (Hne & _).
  pose proof (call_events _ _ _ _ _ _ Hget) as ->.
  assert (annot (gwAnnotations gateway) clusterIssuerAnnotation = "") as Hann
    by (unfold annot; by rewrite Hmissing).
  unfold ensureGateway. step_with Hget. rewrite Hann.
  rewrite bool_decide_eq_true_2 by (by intros ?).
  eexists. split; reflexivity.
Qed.

Lemma gateway_without_issuer_is_never_adopted_witness :
  let g := Ex.bareGateway "ns" "g1" ["a.example.com"] in
  ∃ evs,
    ensureGateway "g1" "ns" (effectiveZone Ex.enabled) (effectiveIssuer Ex.enabled)
      (quiet (Ex.store [Ex.first] [g]))
    = (Err (issuerMismatch "" (effectiveIssuer Ex.enabled)),
       quiet (Ex.store [Ex.first] [g]), evs)
    ∧ writes evs = [].
Proof.
  intros g. destruct gateway_without_issuer_is_never_adopted as [_ Hreject].
  apply (Hreject "g1" "ns" Ex.enabled _ g _ []); reflexivity.
Defined.

(** ** Bookkeeping and migration *)

(** X14. The bookkeeping annotations are written before the gateway is
    validated, so they persist whatever the gateway step answers.  In a
    quiet world, for a stored route that is enabled, not being deleted,
    holds the finalizer and has a parent reference, after the run, failed
    or not, the stored route is the loaded one with the reconciled marker
    and the current gateway reference added to its annotations. *)
Theorem bookkeeping_is_written_before_validation st req httpRoute parentRef :
  findObj routeKey req (stRoutes st) = Some httpRoute →
  operatorEnabled httpRoute = true →
  head (rtParentRefs httpRoute) = Some parentRef →
  timeIsZero (rtDeletionTimestamp httpRoute) = true →
  ContainsFinalizer httpRoute httprouteFinalizerName = true →
  ∃ r st' evs,
    Reconcile req (quiet st) = (r, quiet st', evs)
    ∧ findObj routeKey req (stRoutes st')
      = Some (setAnnotations httpRoute
                (syncedAnnotations (rtAnnotations httpRoute)
                   ((effectiveGateway httpRoute parentRef).1 +:+ "/"
                      +:+ (effectiveGateway httpRoute parentRef).2)).1).
Proof.
  intros Hr He Hp Hl Hf.
  destruct (rtParentRefs httpRoute) as [|p rest] eqn:Hrefs; [done|].
  injection Hp as ->.
  set (gatewayNamespace := default (rtNamespace httpRoute) (prNamespace parentRef)).
  set (gatewayName := prName parentRef).
  set (currentGatewayRef := gatewayNamespace +:+ "/" +:+ gatewayName).
  set (previousGatewayRef := annot (rtAnnotations httpRoute) previousGatewayAnnotationKey).
  destruct (oldGatewayStep_quiet previousGatewayRef currentGatewayRef st)
    as (st1 & ev1 & Hold & Hroutes & _).
  destruct (reconcileGateway_quiet_frame req httpRoute gatewayName gatewayNamespace
              currentGatewayRef st1) as (r & st' & evs & Hrun & Hstored & _).
  { by rewrite Hroutes. }
  exists r, st', (ev1 ++ evs). split; [|exact Hstored].
  rewrite (Reconcile_live _ _ _ _ _ _ _ (clientGetRoute_quiet _ _ _ Hr) He Hrefs Hl).
  unfold reconcileLive.
  fold gatewayNamespace gatewayName currentGatewayRef previousGatewayRef.
  erewrite bind_ok by exact Hold.
  unfold reconcileFinalized. rewrite Hf. cbn [negb]. by rewrite Hrun.
Qed.

Lemma bookkeeping_is_written_before_validation_witness :
  let st := Ex.store [ExMore.conflicting] [Ex.gateway "ns" "g1" ["a.example.com"]] in
  (Reconcile ("ns", "r2") (quiet st)).1.1
  = Err (issuerMismatch defaultClusterIssuer "letsencrypt")
  ∧ ∃ r st' evs,
      Reconcile ("ns", "r2") (quiet st) = (r, quiet st', evs)
      ∧ findObj routeKey ("ns", "r2") (stRoutes st')
        = Some (setAnnotations ExMore.conflicting
                  (syncedAnnotations (rtAnnotations ExMore.conflicting) "ns/g1").1).
Proof.
  intros st. split; [vm_compute; reflexivity|].
  apply (bookkeeping_is_written_before_validation st ("ns", "r2") ExMore.conflicting
           (Ex.ref "g1")); reflexivity.
Defined.




(** ** The deletion path, continued *)

(** X16. A route that is being deleted and does not hold the finalizer of
    the operator is left alone: the run returns success at once, no
    gateway is synchronised and nothing is written or logged. *)
Theorem deleting_route_without_finalizer_is_left_alone
    req w httpRoute parentRef rest w1 ev :
  clientGetRoute req w = (Ok httpRoute, w1, ev) →
  operatorEnabled httpRoute = true →
  rtParentRefs httpRoute = parentRef :: rest →
  timeIsZero (rtDeletionTimestamp httpRoute) = false →
  ContainsFinalizer httpRoute httprouteFinalizerName = false →
  Reconcile req w = (Ok tt, w1, []).
Proof.
  intros Hget He Hrefs Hdel Hf.
  rewrite (Reconcile_deleting _ _ _ _ _ _ _ Hget He Hrefs Hdel).
  unfold reconcileDeleting. by rewrite Hf.
Qed.

Lemma deleting_route_without_finalizer_is_left_alone_witness :
  let st := Ex.store [ExMore.released] [Ex.gateway "ns" "g1" ["b.example.com"]] in
  Reconcile ("ns", "r2") (quiet st) = (Ok tt, quiet st, []).
Proof.
  intros st.
  apply (deleting_route_without_finalizer_is_left_alone ("ns", "r2") (quiet st)
           ExMore.released (Ex.ref "g1") [] (quiet st) []); reflexivity.
Defined.

(** X17. The finalizer is only released after the gateway has been
    synchronised.  When the synchronisation of the gateway fails on the
    deletion path, [Reconcile] logs, returns that error and issues no
    update of the route, so the route keeps its finalizer for the next
    attempt. *)
Theorem finalizer_is_kept_when_gateway_sync_fails
    req w httpRoute parentRef rest w1 ev e w2 ev2 :
  clientGetRoute req w = (Ok httpRoute, w1, ev) →
  operatorEnabled httpRoute = true →
  rtParentRefs httpRoute = parentRef :: rest →
  timeIsZero (rtDeletionTimestamp httpRoute) = false →
  ContainsFinalizer httpRoute httprouteFinalizerName = true →
  handleHTTPRouteDeletion (prName parentRef)
    (default (rtNamespace httpRoute) (prNamespace parentRef)) w1 = (Err e, w2, ev2) →
  Reconcile req w
  = (Err e, w2, ev2 ++ [EvLogError "Failed to handle HTTPRoute deletion"])
  ∧ List.filter isUpdateRoute
      (ev2 ++ [EvLogError "Failed to handle HTTPRoute deletion"]) = [].
Proof.
  intros Hget He Hrefs Hdel Hf Hh.
  destruct (handleHTTPRouteDeletion_events req _ _ _ _ _ _ Hh) as [_ Hnone].
  split.
  - rewrite (Reconcile_deleting _ _ _ _ _ _ _ Hget He Hrefs Hdel).
    unfold reconcileDeleting. rewrite Hf. step_with Hh. reflexivity.
  - by rewrite List.filter_app, Hnone.
Qed.

Lemma finalizer_is_kept_when_gateway_sync_fails_witness :
  let g := Ex.gateway "ns" "g1" ["b.example.com"] in
  let st := Ex.store [Ex.leaving] [g] in
  Reconcile ("ns", "r2") {| wStore := st; wScript := ExMore.fourthFails; wMapOrder := [] |}
  = (Err (ErrInternal "timeout"), quiet st,
     [EvDeleteGateway g;
      EvLogError "Failed to update Gateway listeners after HTTPRoute deletion";
      EvLogError "Failed to handle HTTPRoute deletion"]).
Proof.
  intros g st.
  apply (finalizer_is_kept_when_gateway_sync_fails ("ns", "r2")
           {| wStore := st; wScript := ExMore.fourthFails; wMapOrder := [] |} Ex.leaving (Ex.ref "g1") []
           {| wStore := st; wScript := tail ExMore.fourthFails; wMapOrder := [] |} []
           (ErrInternal "timeout") (quiet st)
           [EvDeleteGateway g;
            EvLogError "Failed to update Gateway listeners after HTTPRoute deletion"]);
    reflexivity.
Defined.

(** ** Creating the gateway, continued *)

(** X18. A failed creation is surfaced, not retried.  When the gateway is
    not found, the listeners are aggregated and the create call fails,
    for instance because another writer created the gateway in between,
    [ensureGateway] logs and returns that error after this one create
    call, and issues no other write. *)
Theorem failed_creation_is_surfaced
    gatewayName gatewayNamespace ipamZone clusterIssuer w w1 ev listeners w2 ev2 e w3 ev3 :
  clientGetGateway (gatewayNamespace, gatewayName) w = (Err ErrNotFound, w1, ev) →
  collectListenersForGateway gatewayName gatewayNamespace w1 = (Ok listeners, w2, ev2) →
  let created :=
    newGatewayObject gatewayName gatewayNamespace ipamZone clusterIssuer listeners in
  clientCreateGateway created w2 = (Err e, w3, ev3) →
  ensureGateway gatewayName gatewayNamespace ipamZone clusterIssuer w
  = (Err e, w3, [EvCreateGateway created; EvLogError "Failed to create Gateway"]).
Proof.
  intros Hget Hc created Hcreate.
  rewrite (ensureGateway_absent _ _ _ _ _ _ _ Hget).
  destruct (collectListenersForGateway_inv _ _ _ _ _ _ Hc) as [-> _].
  pose proof (call_events _ _ _ _ _ _ Hcreate) as ->.
  unfold createGateway. step_with Hc. cbn [app]. fold created.
  step_with Hcreate. reflexivity.
Qed.

Lemma failed_creation_is_surfaced_witness :
  let theirs := Ex.bareGateway "ns" "g1" ["z.example.com"] in
  let ours := Ex.gateway "ns" "g1" ["a.example.com"] in
  ensureGateway "g1" "ns" defaultIPAMZone defaultClusterIssuer
    {| wStore := Ex.store [ExMore.finalized] [];
       wScript := tail (ExMore.raceOnCreate theirs); wMapOrder := [] |}
  = (Err ErrAlreadyExists, quiet (Ex.store [ExMore.finalized] [theirs]),
     [EvCreateGateway ours; EvLogError "Failed to create Gateway"]).
Proof.
  intros theirs ours.
  apply (failed_creation_is_surfaced "g1" "ns" defaultIPAMZone defaultClusterIssuer
           {| wStore := Ex.store [ExMore.finalized] [];
              wScript := tail (ExMore.raceOnCreate theirs); wMapOrder := [] |}
           {| wStore := Ex.store [ExMore.finalized] [];
              wScript := tail (tail (ExMore.raceOnCreate theirs)); wMapOrder := [] |} []
           (collectListeners "g1" "ns" [ExMore.finalized])
           {| wStore := Ex.store [ExMore.finalized] [];
              wScript := tail (tail (tail (ExMore.raceOnCreate theirs)));
              wMapOrder := [] |} []
           ErrAlreadyExists (quiet (Ex.store [ExMore.finalized] [theirs]))
           [EvCreateGateway ours]); reflexivity.
Defined.

(** ** The aggregation, continued *)

(** X19. Listing more routes never removes a listener: every listener of
    the aggregation over a list is a listener of the aggregation over any
    list that contains its routes. *)
Theorem aggregation_is_monotone gatewayName gatewayNamespace
    (items items' : list HTTPRoute) l :
  items ⊆ items' →
  l ∈ collectListeners gatewayName gatewayNamespace items →
  l ∈ collectListeners gatewayName gatewayNamespace items'.
Proof.
  intros Hsub Hl.
  destruct (collectListeners_exact gatewayName gatewayNamespace items) as [_ H1].
  destruct (collectListeners_exact gatewayName gatewayNamespace items') as [_ H2].
  apply H1 in Hl as (rt & h & Hin & ?). apply H2. exists rt, h.
  split; [by apply Hsub|done].
Qed.

Lemma aggregation_is_monotone_witness :
  createHTTPSListener "a.example.com" "ns"
  ∈ collectListeners "g1" "ns" [Ex.crossNamespace; Ex.first].
Proof.
  apply (aggregation_is_monotone "g1" "ns" [Ex.first] [Ex.crossNamespace; Ex.first]).
  - intros rt Hrt. by right.
  - vm_compute. apply list_elem_of_here.
Defined.
